(** * go-freshdesk: request pipeline and structured error model

    A shallow embedding of [client.go], [errors.go] and [contacts.go].
    Go strings and byte slices are Rocq [string]s (sequences of bytes),
    [int] and [uint64] are [Z], [float64] is [spec_float] (IEEE 754
    binary64 as sign, mantissa, exponent), Go maps keyed by strings are
    [gmap string _].  The pieces of the Go standard library the program
    calls ([encoding/json], [encoding/base64], [net/http], [fmt]) are
    written out next to the code that uses them. *)

From Stdlib Require Import ZArith NArith Ascii String List Bool Lia.
From Stdlib Require Import Floats.SpecFloat.
From stdpp Require Import base option list sorting gmap strings fin_maps.

Local Open Scope string_scope.
Local Open Scope Z_scope.

Set Warnings "-register-all".

(* ================================================================== *)
(** ** Bytes and text *)

(** The double quote, byte 34. *)
Definition dq : ascii := "034"%char.
Definition bs : ascii := "\"%char.

Definition str1 (c : ascii) : string := String c EmptyString.

(** JSON texts are written with apostrophes in this development; [js]
    turns every apostrophe into a double quote. *)
Fixpoint js (s : string) : string :=
  match s with
  | EmptyString => EmptyString
  | String c r => String (if Ascii.eqb c "'" then dq else c) (js r)
  end.

Definition code (c : ascii) : Z := Z.of_N (N_of_ascii c).
Definition byte_of (n : Z) : ascii := ascii_of_N (Z.to_N (n mod 256)).

Definition in_range (lo hi : Z) (c : ascii) : bool :=
  (lo <=? code c) && (code c <=? hi).

Definition is_digit (c : ascii) : bool := in_range 48 57 c.
Definition is_digit19 (c : ascii) : bool := in_range 49 57 c.
Definition is_lower (c : ascii) : bool := in_range 97 122 c.
Definition is_upper (c : ascii) : bool := in_range 65 90 c.

Definition hex_val (c : ascii) : option Z :=
  if is_digit c then Some (code c - 48)
  else if in_range 97 102 c then Some (code c - 87)
  else if in_range 65 70 c then Some (code c - 55)
  else None.

(** [isSpace] of encoding/json's scanner: space, tab, CR, LF. *)
Definition is_space (c : ascii) : bool :=
  let n := code c in (n =? 32) || (n =? 9) || (n =? 13) || (n =? 10).

Fixpoint skip_space (s : string) : string :=
  match s with
  | String c r => if is_space c then skip_space r else s
  | EmptyString => s
  end.

Definition slen (s : string) : nat := String.length s.

Fixpoint concat_with (sep : string) (l : list string) : string :=
  match l with
  | [] => ""
  | [x] => x
  | x :: r => x ++ sep ++ concat_with sep r
  end.

(** *** Decimal numerals, as [strconv] and [fmt]'s [%d] print them *)

Definition digit_char (d : Z) : ascii := byte_of (48 + d).

Fixpoint pos_digits (fuel : nat) (n : Z) (acc : string) : string :=
  match fuel with
  | O => acc
  | S f =>
      let acc' := String (digit_char (n mod 10)) acc in
      if n <? 10 then acc' else pos_digits f (n / 10) acc'
  end.

Definition nat_decimal (n : Z) : string :=
  pos_digits (S (Z.to_nat (Z.log2 n))) n "".

Definition itoa (n : Z) : string :=
  if n <? 0 then String "-" (nat_decimal (- n)) else nat_decimal n.

(** A run of decimal digits read back as a number; [None] on any other
    byte or on the empty string. *)
Fixpoint digits_value (s : string) (acc : Z) : option Z :=
  match s with
  | EmptyString => Some acc
  | String c r =>
      if is_digit c then digits_value r (10 * acc + (code c - 48)) else None
  end.

Definition parse_digits (s : string) : option Z :=
  match s with
  | EmptyString => None
  | _ => digits_value s 0
  end.

(** [strconv.ParseUint(s, 10, 64)]. *)
Definition ParseUint64 (s : string) : option Z :=
  match parse_digits s with
  | Some n => if n <? 2 ^ 64 then Some n else None
  | None => None
  end.

(** [strconv.ParseInt(s, 10, 64)]: an optional sign, then digits. *)
Definition ParseInt64 (s : string) : option Z :=
  match s with
  | String "-" r =>
      match parse_digits r with
      | Some n => if n <=? 2 ^ 63 then Some (- n) else None
      | None => None
      end
  | String "+" r =>
      match parse_digits r with
      | Some n => if n <? 2 ^ 63 then Some n else None
      | None => None
      end
  | _ =>
      match parse_digits s with
      | Some n => if n <? 2 ^ 63 then Some n else None
      | None => None
      end
  end.

(* ================================================================== *)
(** ** encoding/json: reading *)

(** A JSON text as the decoder sees it.  Number literals keep their
    source text, because the target type decides how they are converted
    ([ParseInt], [ParseUint] or [ParseFloat]); strings and object keys are
    already unquoted; object members keep their order and repetitions. *)
Inductive json : Type :=
| JNull
| JBool (b : bool)
| JNumber (lit : string)
| JString (s : string)
| JArray (l : list json)
| JObject (l : list (string * json)).

(** [maxNestingDepth] of the scanner. *)
Definition maxNestingDepth : Z := 10000.

Fixpoint take_digits (s : string) : string * string :=
  match s with
  | String c r =>
      if is_digit c then let '(d, t) := take_digits r in (String c d, t)
      else (EmptyString, s)
  | EmptyString => (EmptyString, EmptyString)
  end.

(** The number grammar of the scanner (states [stateNeg], [state0],
    [state1], [stateDot], [stateDot0], [stateE], [stateESign],
    [stateE0]): literal and rest of the input. *)
Definition lex_int (s : string) : option (string * string) :=
  match s with
  | String c r =>
      if Ascii.eqb c "0" then Some ("0", r)
      else if is_digit19 c then
        let '(d, t) := take_digits r in Some (String c d, t)
      else None
  | EmptyString => None
  end.

Definition lex_frac (s : string) : option (string * string) :=
  match s with
  | String "." r =>
      match take_digits r with
      | (EmptyString, _) => None
      | (d, t) => Some (String "." d, t)
      end
  | _ => Some ("", s)
  end.

Definition lex_exp (s : string) : option (string * string) :=
  match s with
  | String c r =>
      if Ascii.eqb c "e" || Ascii.eqb c "E" then
        let '(sg, r1) :=
          match r with
          | String "+" r' => ("+", r')
          | String "-" r' => ("-", r')
          | _ => ("", r)
          end in
        match take_digits r1 with
        | (EmptyString, _) => None
        | (d, t) => Some (String c (sg ++ d), t)
        end
      else Some ("", s)
  | EmptyString => Some ("", s)
  end.

Definition lex_number (s : string) : option (string * string) :=
  let '(sg, s1) :=
    match s with String "-" r => ("-", r) | _ => ("", s) end in
  '(i, s2) ← lex_int s1;
  '(f, s3) ← lex_frac s2;
  '(e, s4) ← lex_exp s3;
  Some (sg ++ i ++ f ++ e, s4).

Definition is_hex (c : ascii) : bool :=
  match hex_val c with Some _ => true | None => false end.

Definition is_simple_escape (c : ascii) : bool :=
  Ascii.eqb c dq || Ascii.eqb c bs || Ascii.eqb c "/" || Ascii.eqb c "b"
  || Ascii.eqb c "f" || Ascii.eqb c "n" || Ascii.eqb c "r" || Ascii.eqb c "t".

(** The inside of a string literal, from just after the opening quote
    (states [stateInString], [stateInStringEsc], [stateInStringEscU...]):
    the raw text up to the closing quote, and what follows it. *)
Fixpoint lex_string (s : string) : option (string * string) :=
  match s with
  | EmptyString => None
  | String c r =>
      if Ascii.eqb c dq then Some ("", r)
      else if Ascii.eqb c bs then
        match r with
        | String e r2 =>
            if Ascii.eqb e "u" then
              match r2 with
              | String h1 (String h2 (String h3 (String h4 r3))) =>
                  if is_hex h1 && is_hex h2 && is_hex h3 && is_hex h4 then
                    '(raw, t) ← lex_string r3;
                    Some (String c (String e (String h1 (String h2
                           (String h3 (String h4 raw))))), t)
                  else None
              | _ => None
              end
            else if is_simple_escape e then
              '(raw, t) ← lex_string r2;
              Some (String c (String e raw), t)
            else None
        | EmptyString => None
        end
      else if code c <? 32 then None
      else '(raw, t) ← lex_string r; Some (String c raw, t)
  end.

(** *** Unquoting ([unquoteBytes]) *)

(** [utf8.EncodeRune]; surrogates and values past U+10FFFF become the
    replacement character U+FFFD. *)
Definition replacement : string :=
  String (byte_of 239) (String (byte_of 191) (String (byte_of 189) "")).

Definition utf8_encode (r : Z) : string :=
  if r <? 128 then str1 (byte_of r)
  else if r <? 2048 then
    String (byte_of (192 + r / 64)) (str1 (byte_of (128 + r mod 64)))
  else if ((55296 <=? r) && (r <=? 57343)) || (1114111 <? r) then replacement
  else if r <? 65536 then
    String (byte_of (224 + r / 4096))
      (String (byte_of (128 + (r / 64) mod 64))
         (str1 (byte_of (128 + r mod 64))))
  else
    String (byte_of (240 + r / 262144))
      (String (byte_of (128 + (r / 4096) mod 64))
         (String (byte_of (128 + (r / 64) mod 64))
            (str1 (byte_of (128 + r mod 64))))).

(** Length of the well-formed UTF-8 sequence at the head of [s], [0]
    when the head is not one ([utf8.DecodeRune]'s table of first bytes
    and accept ranges). *)
Definition utf8_seq_len (s : string) : nat :=
  match s with
  | String c0 r =>
      let cont := in_range 128 191 in
      let n := code c0 in
      if n <? 128 then 1%nat
      else if in_range 194 223 c0 then
        match r with
        | String c1 _ => if cont c1 then 2%nat else 0%nat
        | _ => 0%nat
        end
      else if in_range 224 239 c0 then
        match r with
        | String c1 (String c2 _) =>
            let lo := if n =? 224 then 160 else 128 in
            let hi := if n =? 237 then 159 else 191 in
            if in_range lo hi c1 && cont c2 then 3%nat else 0%nat
        | _ => 0%nat
        end
      else if in_range 240 244 c0 then
        match r with
        | String c1 (String c2 (String c3 _)) =>
            let lo := if n =? 240 then 144 else 128 in
            let hi := if n =? 244 then 143 else 191 in
            if in_range lo hi c1 && cont c2 && cont c3 then 4%nat else 0%nat
        | _ => 0%nat
        end
      else 0%nat
  | EmptyString => 0%nat
  end.

Fixpoint sdrop (n : nat) (s : string) : string :=
  match n, s with
  | S k, String _ r => sdrop k r
  | _, _ => s
  end.

Fixpoint stake (n : nat) (s : string) : string :=
  match n, s with
  | S k, String c r => String c (stake k r)
  | _, _ => EmptyString
  end.

(** Four hex digits after a backslash-u ([getu4]). *)
Definition getu4 (s : string) : option Z :=
  match s with
  | String b (String u (String h1 (String h2 (String h3 (String h4 _))))) =>
      if Ascii.eqb b bs && Ascii.eqb u "u" then
        a ← hex_val h1; b' ← hex_val h2; c ← hex_val h3; d ← hex_val h4;
        Some (((a * 16 + b') * 16 + c) * 16 + d)
      else None
  | _ => None
  end.

Definition simple_escape (e : ascii) : ascii :=
  if Ascii.eqb e "b" then byte_of 8
  else if Ascii.eqb e "f" then byte_of 12
  else if Ascii.eqb e "n" then byte_of 10
  else if Ascii.eqb e "r" then byte_of 13
  else if Ascii.eqb e "t" then byte_of 9
  else e.

Definition is_surrogate (r : Z) : bool := (55296 <=? r) && (r <? 57344).

(** [utf16.DecodeRune]. *)
Definition utf16_pair (r1 r2 : Z) : option Z :=
  if (55296 <=? r1) && (r1 <? 56320) && (56320 <=? r2) && (r2 <? 57344)
  then Some ((r1 - 55296) * 1024 + (r2 - 56320) + 65536)
  else None.

(** The value of a string literal from its raw text: escapes resolved,
    ill-formed UTF-8 replaced by U+FFFD byte by byte. *)
Fixpoint unquote_go (fuel : nat) (s : string) : string :=
  match fuel with
  | O => EmptyString
  | S f =>
      match s with
      | EmptyString => EmptyString
      | String c r =>
          if Ascii.eqb c bs then
            match getu4 s with
            | Some rr =>
                let s6 := sdrop 6 s in
                if is_surrogate rr then
                  match getu4 s6 ≫= utf16_pair rr with
                  | Some dec => utf8_encode dec ++ unquote_go f (sdrop 6 s6)
                  | None => replacement ++ unquote_go f s6
                  end
                else utf8_encode rr ++ unquote_go f s6
            | None =>
                match r with
                | String e r2 => String (simple_escape e) (unquote_go f r2)
                | EmptyString => EmptyString
                end
            end
          else
            match utf8_seq_len s with
            | O => replacement ++ unquote_go f r
            | n => stake n s ++ unquote_go f (sdrop n s)
            end
      end
  end.

Definition unquote (raw : string) : string := unquote_go (S (slen raw)) raw.

(** *** The parser *)

Definition lit_true : string := "true".
Definition lit_false : string := "false".
Definition lit_null : string := "null".

Definition strip_prefix (p s : string) : option string :=
  if String.prefix p s then Some (sdrop (slen p) s) else None.

(** One value from the head of [s] ([depth] containers are open), then
    the rest of the input.  [None] is a syntax error.  Every two nested
    calls consume a byte, so [2 * length + 3] units of fuel never run
    out on a text the scanner accepts. *)
Fixpoint parse_value (fuel : nat) (depth : Z) (s : string)
  : option (json * string) :=
  match fuel with
  | O => None
  | S f =>
      match skip_space s with
      | EmptyString => None
      | String c r as s' =>
          if Ascii.eqb c "{" then
            if depth <? maxNestingDepth then
              match skip_space r with
              | String "}" r' => Some (JObject [], r')
              | _ => '(ms, t) ← parse_members f (depth + 1) r [];
                     Some (JObject ms, t)
              end
            else None
          else if Ascii.eqb c "[" then
            if depth <? maxNestingDepth then
              match skip_space r with
              | String "]" r' => Some (JArray [], r')
              | _ => '(vs, t) ← parse_elements f (depth + 1) r [];
                     Some (JArray vs, t)
              end
            else None
          else if Ascii.eqb c dq then
            '(raw, t) ← lex_string r; Some (JString (unquote raw), t)
          else if Ascii.eqb c "-" || is_digit c then
            '(lit, t) ← lex_number s'; Some (JNumber lit, t)
          else if Ascii.eqb c "t" then
            t ← strip_prefix lit_true s'; Some (JBool true, t)
          else if Ascii.eqb c "f" then
            t ← strip_prefix lit_false s'; Some (JBool false, t)
          else if Ascii.eqb c "n" then
            t ← strip_prefix lit_null s'; Some (JNull, t)
          else None
      end
  end
with parse_elements (fuel : nat) (depth : Z) (s : string) (acc : list json)
  : option (list json * string) :=
  match fuel with
  | O => None
  | S f =>
      '(v, r) ← parse_value f depth s;
      match skip_space r with
      | String "," r' => parse_elements f depth r' (v :: acc)
      | String "]" r' => Some (rev (v :: acc), r')
      | _ => None
      end
  end
with parse_members (fuel : nat) (depth : Z) (s : string)
       (acc : list (string * json)) : option (list (string * json) * string) :=
  match fuel with
  | O => None
  | S f =>
      match skip_space s with
      | String c r =>
          if Ascii.eqb c dq then
            '(raw, r1) ← lex_string r;
            match skip_space r1 with
            | String ":" r2 =>
                '(v, r3) ← parse_value f depth r2;
                match skip_space r3 with
                | String "," r4 =>
                    parse_members f depth r4 ((unquote raw, v) :: acc)
                | String "}" r4 => Some (rev ((unquote raw, v) :: acc), r4)
                | _ => None
                end
            | _ => None
            end
          else None
      | EmptyString => None
      end
  end.

Definition parse_fuel (s : string) : nat := (2 * slen s + 3)%nat.

(** What a [json.Decoder] reads: the first value of the stream; the
    bytes after it stay unread. *)
Definition json_first_value (s : string) : option (json * string) :=
  parse_value (parse_fuel s) 0 s.

(** A whole document ([checkValid] followed by decoding): one value,
    then nothing but white space. *)
Definition json_parse (s : string) : option json :=
  '(v, r) ← json_first_value s;
  match skip_space r with
  | EmptyString => Some v
  | _ => None
  end.

Definition json_Valid (s : string) : bool :=
  match json_parse s with Some _ => true | None => false end.

(** White space outside string literals removed. *)
Fixpoint strip_space (in_str esc : bool) (s : string) : string :=
  match s with
  | EmptyString => EmptyString
  | String c r =>
      if in_str then
        String c
          (if esc then strip_space true false r
           else if Ascii.eqb c bs then strip_space true true r
           else if Ascii.eqb c dq then strip_space false false r
           else strip_space true false r)
      else if is_space c then strip_space false false r
      else String c (strip_space (Ascii.eqb c dq) false r)
  end.

(** [json.Compact]: an error ([None]) on a text that is not valid JSON,
    otherwise the text without its insignificant white space. *)
Definition json_Compact (src : string) : option string :=
  if json_Valid src then Some (strip_space false false src) else None.

(** *** Matching object keys to struct fields *)

(** [foldName]: ASCII letters to upper case; the two non-ASCII runes
    whose simple case folding reaches ASCII, U+017F (long s) and U+212A
    (Kelvin sign), to [S] and [K].  Field names of this program are
    ASCII, so no other rune can make a key match. *)
Fixpoint fold_go (fuel : nat) (s : string) : string :=
  match fuel with
  | O => EmptyString
  | S f =>
      match s with
      | EmptyString => EmptyString
      | String c r =>
          if is_lower c then String (byte_of (code c - 32)) (fold_go f r)
          else if String.prefix (String (byte_of 197) (str1 (byte_of 191))) s
          then String "S" (fold_go f (sdrop 2 s))
          else if String.prefix
                    (String (byte_of 226) (String (byte_of 132) (str1 (byte_of 170)))) s
          then String "K" (fold_go f (sdrop 3 s))
          else String c (fold_go f r)
      end
  end.

Definition foldName (s : string) : string := fold_go (slen s) s.

(** A key selects the field called [name] when it is that name exactly
    or up to case folding. *)
Definition key_is (name key : string) : bool :=
  String.eqb key name || String.eqb (foldName key) (foldName name).

(** *** float64 *)

Definition float64 := spec_float.

Definition f64_prec : Z := 53.
Definition f64_emax : Z := 1024.

(** The float64 nearest to an integer (ties to even). *)
Definition float64_of_Z (n : Z) : float64 :=
  binary_normalize f64_prec f64_emax n 0 false.

(** The float64 nearest to [(-1)^neg * n / d], for [0 < n], [0 < d]. *)
Definition float64_of_ratio (neg : bool) (n d : Z) : float64 :=
  let k := 1100 + Z.log2_up d in
  let q := (n * 2 ^ k) / d in
  let r := (n * 2 ^ k) mod d in
  let loc := if r =? 0 then loc_Exact else loc_Inexact (2 * r ?= d) in
  binary_round_aux f64_prec f64_emax neg q (- k) loc.

Definition split_at_char (c : ascii) (s : string) : string * option string :=
  match String.index 0 (str1 c) s with
  | Some i => (stake i s, Some (sdrop (S i) s))
  | None => (s, None)
  end.

(** [strconv.ParseFloat(lit, 64)] on a literal of the JSON number
    grammar: the nearest float64, [None] when it is out of range. *)
Definition ParseFloat64 (lit : string) : option float64 :=
  let '(neg, body) :=
    match lit with String "-" r => (true, r) | _ => (false, lit) end in
  let '(mant, ex) :=
    match split_at_char "e" body with
    | (m, Some e) => (m, Some e)
    | (m, None) => split_at_char "E" body
    end in
  let '(ip, fp) := split_at_char "." mant in
  let fp := default "" fp in
  n ← parse_digits (ip ++ fp);
  e ← match ex with
      | None => Some 0
      | Some (String "+" d) => parse_digits d
      | Some (String "-" d) => Z.opp <$> parse_digits d
      | Some d => parse_digits d
      end;
  let e10 := e - Z.of_nat (slen fp) in
  let f :=
    if n =? 0 then S754_zero neg
    else if 0 <=? e10 then
      float64_of_Z ((if neg then -1 else 1) * n * 10 ^ e10)
    else float64_of_ratio neg n (10 ^ (- e10)) in
  match f with
  | S754_infinity _ | S754_nan => None
  | _ => Some f
  end.

(** What the model takes as given from the platform and from the
    standard library: the result of a conversion to [uint64] whose
    truncated value does not fit (the language leaves it to the
    implementation); which texts [url.Parse] accepts; the decimal text
    of a finite float64 as the JSON encoder writes it
    ([strconv.AppendFloat] with the shortest digits); and [time.Time]
    with its [MarshalJSON] and [UnmarshalJSON], both on the text between
    the quotes. *)
Class Platform := {
  uint64_of_unrepresentable : float64 -> Z;
  url_Parse_ok : string -> bool;
  FormatFloat64 : float64 -> string;
  Time : Type;
  Time_zero : Time;
  Time_MarshalJSON : Time -> option string;
  Time_UnmarshalJSON : string -> option Time;
}.

(** The conversion [uint64(f)]: the fraction is discarded. *)
Definition float64_trunc (f : float64) : option Z :=
  match f with
  | S754_zero _ => Some 0
  | S754_finite s m e =>
      let a := if 0 <=? e then Z.pos m * 2 ^ e else Z.pos m / 2 ^ (- e) in
      Some (if s then - a else a)
  | _ => None
  end.

Definition uint64_of_float64 `{Platform} (f : float64) : Z :=
  match float64_trunc f with
  | Some n =>
      if (0 <=? n) && (n <? 2 ^ 64) then n else uint64_of_unrepresentable f
  | None => uint64_of_unrepresentable f
  end.

(** *** Values of type [interface{}] *)

(** The values held in an [interface{}]: those the decoder stores,
    [nil], [bool], [float64], [string], [[]interface{}] and
    [map[string]interface{}]; and, for the values of other types that a
    caller can put there, [int]. *)
Inductive dyn : Type :=
| DNil
| DBool (b : bool)
| DFloat64 (f : float64)
| DString (s : string)
| DSlice (l : list dyn)
| DMap (m : gmap string dyn)
| DInt (n : Z).

(** The size of a value, for inductions over values. *)
Fixpoint dyn_size (d : dyn) : nat :=
  match d with
  | DSlice l => S (sum_list (map dyn_size l))
  | DMap m => S (sum_list (map_to_list (dyn_size <$> m)).*2)
  | _ => 1%nat
  end.

(** Decoding into an empty interface ([valueInterface]).  A number
    that [ParseFloat] rejects leaves [nil] (and an error, see
    [json_number_errors]); a repeated key keeps its last value. *)
Fixpoint dyn_of_json (j : json) : dyn :=
  match j with
  | JNull => DNil
  | JBool b => DBool b
  | JNumber lit =>
      match ParseFloat64 lit with Some f => DFloat64 f | None => DNil end
  | JString s => DString s
  | JArray l => DSlice (map dyn_of_json l)
  | JObject ms =>
      DMap ((fix members (ms : list (string * json)) (acc : gmap string dyn) :=
               match ms with
               | [] => acc
               | (k, v) :: r => members r (<[k := dyn_of_json v]> acc)
               end) ms ∅)
  end.

Fixpoint json_number_errors (j : json) : bool :=
  match j with
  | JNumber lit =>
      match ParseFloat64 lit with Some _ => false | None => true end
  | JArray l => existsb json_number_errors l
  | JObject ms =>
      (fix members (ms : list (string * json)) :=
         match ms with
         | [] => false
         | (_, v) :: r => json_number_errors v || members r
         end) ms
  | _ => false
  end.

(* ================================================================== *)
(** ** errors.go *)

(** A call either returns or panics (a failed type assertion, a nil
    dereference). *)
Inductive outcome (A : Type) : Type :=
| Returned (a : A)
| Panicked.
Arguments Returned {A} a.
Arguments Panicked {A}.

(** [FieldError].  A nil map reads like the empty map, so
    [AdditionalInfo] is a [gmap]. *)
Record FieldError := mkFieldError {
  Field : string;
  AdditionalInfo : gmap string dyn;
  Message : string;
  Code : string;
}.

(** [APIError].  [Err] holds the [error] interface value: [None] is the
    nil interface, [Some msg] the [*errors.errorString] that
    [fmt.Errorf] builds.  A nil slice ranges like the empty one, so
    [Errors] is a list. *)
Record APIError := mkAPIError {
  Err : option string;
  ReqBody : string;
  ResBody : string;
  Description : string;
  Errors : list FieldError;
  StatusCode : Z;
}.

Definition zero_FieldError : FieldError :=
  {| Field := ""; AdditionalInfo := ∅; Message := ""; Code := "" |}.

(** *** [json.Unmarshal] into an [*APIError]

    A value that does not fit its target is skipped: the decoder records
    an [UnmarshalTypeError] and goes on ([Mismatch]).  An error returned
    by a type's own [UnmarshalJSON] stops the decoding at once
    ([Abort]). *)
Inductive status : Type := Clean | Mismatch | Abort.

(** The status of two steps in a row. *)
Definition and_then (a b : status) : status :=
  match a, b with
  | Abort, _ => Abort
  | _, Abort => Abort
  | Clean, Clean => Clean
  | _, _ => Mismatch
  end.

Definition decode_string (old : string) (j : json) : string * status :=
  match j with
  | JString s => (s, Clean)
  | JNull => (old, Clean)
  | _ => (old, Mismatch)
  end.

Definition decode_int (old : Z) (j : json) : Z * status :=
  match j with
  | JNumber lit =>
      match ParseInt64 lit with
      | Some n => (n, Clean)
      | None => (old, Mismatch)
      end
  | JNull => (old, Clean)
  | _ => (old, Mismatch)
  end.

(** Into the field [Err error]: [null] zeroes the interface; an object
    is decoded into the [errorString] behind a non-nil value, which has
    no exported field, so nothing changes; everything else is a type
    error. *)
Definition decode_error_value (old : option string) (j : json)
  : option string * status :=
  match j with
  | JNull => (None, Clean)
  | JObject _ => (old, match old with Some _ => Clean | None => Mismatch end)
  | _ => (old, Mismatch)
  end.

Definition number_status (j : json) : status :=
  if json_number_errors j then Mismatch else Clean.

(** Into a [map[string]interface{}]: entries are added to the map that
    is there; [null] makes it nil. *)
Definition decode_info (old : gmap string dyn) (j : json)
  : gmap string dyn * status :=
  match j with
  | JObject ms =>
      (fold_left (fun acc kv => <[kv.1 := dyn_of_json kv.2]> acc) ms old,
       number_status j)
  | JNull => (∅, Clean)
  | _ => (old, Mismatch)
  end.

(** One object member stored into a struct, then the next. *)
Fixpoint decode_members {A : Type} (store : A -> string -> json -> A * status)
    (ms : list (string * json)) (a : A) : A * status :=
  match ms with
  | [] => (a, Clean)
  | (k, v) :: r =>
      match store a k v with
      | (a1, Abort) => (a1, Abort)
      | (a1, e1) =>
          let '(a2, e2) := decode_members store r a1 in (a2, and_then e1 e2)
      end
  end.

(** The fields of [FieldError] under their tags [field],
    [additional_info], [message] and [code]. *)
Definition store_FieldError (fe : FieldError) (k : string) (v : json)
  : FieldError * status :=
  if key_is "field" k then
    let '(x, e) := decode_string (Field fe) v in
    (mkFieldError x (AdditionalInfo fe) (Message fe) (Code fe), e)
  else if key_is "additional_info" k then
    let '(x, e) := decode_info (AdditionalInfo fe) v in
    (mkFieldError (Field fe) x (Message fe) (Code fe), e)
  else if key_is "message" k then
    let '(x, e) := decode_string (Message fe) v in
    (mkFieldError (Field fe) (AdditionalInfo fe) x (Code fe), e)
  else if key_is "code" k then
    let '(x, e) := decode_string (Code fe) v in
    (mkFieldError (Field fe) (AdditionalInfo fe) (Message fe) x, e)
  else (fe, Clean).

Definition decode_FieldError (old : FieldError) (j : json)
  : FieldError * status :=
  match j with
  | JObject ms => decode_members store_FieldError ms old
  | JNull => (old, Clean)
  | _ => (old, Mismatch)
  end.

(** Into a slice: element [i] of the array is decoded into element [i]
    of the slice when the slice is that long, into a zero element
    otherwise; the slice ends up as long as the array. *)
Fixpoint decode_elements {A : Type} (zero : A) (dec : A -> json -> A * status)
    (old : list A) (l : list json) : list A * status :=
  match l with
  | [] => ([], Clean)
  | j :: r =>
      match dec (hd zero old) j with
      | (x, Abort) => (x :: tl old, Abort)
      | (x, e1) =>
          let '(rest, e2) := decode_elements zero dec (tl old) r in
          (x :: rest, and_then e1 e2)
      end
  end.

Definition decode_Errors (old : list FieldError) (j : json)
  : list FieldError * status :=
  match j with
  | JArray l => decode_elements zero_FieldError decode_FieldError old l
  | JNull => ([], Clean)
  | _ => (old, Mismatch)
  end.

(** The fields of [APIError].  [Description] and [Errors] are tagged
    [description] and [errors]; [Err], [ReqBody], [ResBody] and
    [StatusCode] are exported and carry no tag, so encoding/json decodes
    them too, under their Go names. *)
Definition store_APIError (a : APIError) (k : string) (v : json)
  : APIError * status :=
  if key_is "Err" k then
    let '(x, e) := decode_error_value (Err a) v in
    (mkAPIError x (ReqBody a) (ResBody a) (Description a) (Errors a)
       (StatusCode a), e)
  else if key_is "ReqBody" k then
    let '(x, e) := decode_string (ReqBody a) v in
    (mkAPIError (Err a) x (ResBody a) (Description a) (Errors a)
       (StatusCode a), e)
  else if key_is "ResBody" k then
    let '(x, e) := decode_string (ResBody a) v in
    (mkAPIError (Err a) (ReqBody a) x (Description a) (Errors a)
       (StatusCode a), e)
  else if key_is "description" k then
    let '(x, e) := decode_string (Description a) v in
    (mkAPIError (Err a) (ReqBody a) (ResBody a) x (Errors a)
       (StatusCode a), e)
  else if key_is "errors" k then
    let '(x, e) := decode_Errors (Errors a) v in
    (mkAPIError (Err a) (ReqBody a) (ResBody a) (Description a) x
       (StatusCode a), e)
  else if key_is "StatusCode" k then
    let '(x, e) := decode_int (StatusCode a) v in
    (mkAPIError (Err a) (ReqBody a) (ResBody a) (Description a) (Errors a)
       x, e)
  else (a, Clean).

(** The errors of encoding/json: a text that is not JSON, a value that
    does not fit its target, a failing [UnmarshalJSON], a value that
    cannot be encoded, a stream that ends before a value does. *)
Inductive json_error : Type :=
| SyntaxError
| UnmarshalTypeError
| UnmarshalerError
| MarshalFailure
| UnexpectedEOF.

(** [json.Unmarshal(data, i)] for [i : *APIError]: the text is checked
    as a whole first, and a text that is not valid JSON leaves [i] as it
    was. *)
Definition Unmarshal_APIError (data : string) (i : APIError)
  : APIError * option json_error :=
  match json_parse data with
  | None => (i, Some SyntaxError)
  | Some (JObject ms) =>
      let '(i', st) := decode_members store_APIError ms i in
      (i', match st with Clean => None | _ => Some UnmarshalTypeError end)
  | Some JNull => (i, None)
  | Some _ => (i, Some UnmarshalTypeError)
  end.

(** [fmt.Errorf("received status code %d (%d expected)", ...)]. *)
Definition status_message (statusCode expectedStatus : Z) : string :=
  "received status code " ++ itoa statusCode ++ " (" ++ itoa expectedStatus
  ++ " expected)".

(** The struct literal of [NewApiError], before the response body is
    unmarshalled onto it. *)
Definition base_APIError (statusCode expectedStatus : Z) (req res : string)
  : APIError :=
  {| Err := Some (status_message statusCode expectedStatus);
     ReqBody := req;
     ResBody := res;
     Description := "";
     Errors := [];
     StatusCode := statusCode |}.

Definition NewApiError (statusCode expectedStatus : Z) (req res : string)
  : APIError :=
  let i := base_APIError statusCode expectedStatus req res in
  (Unmarshal_APIError res i).1.

(** The method [Error] of [APIError]; calling [Error] on a nil [Err]
    panics. *)
Definition Error (e : APIError) : outcome string :=
  match Err e with
  | Some msg => Returned (msg ++ " - " ++ ResBody e)
  | None => Panicked
  end.

(** The loop of [IsDuplicate] over [e.Errors]. *)
Fixpoint IsDuplicate_range `{Platform} (errs : list FieldError)
  : outcome (bool * Z) :=
  match errs with
  | [] => Returned (false, 0)
  | err :: rest =>
      if String.eqb (Field err) "email"
         && String.eqb (Code err) "duplicate_value" then
        match AdditionalInfo err !! "user_id" with
        | None => Returned (false, 0)
        | Some DNil => Returned (false, 0)
        | Some (DFloat64 f) => Returned (true, uint64_of_float64 f)
        | Some _ => Panicked
        end
      else IsDuplicate_range rest
  end.

Definition IsDuplicate `{Platform} (e : APIError) : outcome (bool * Z) :=
  IsDuplicate_range (Errors e).

(* ================================================================== *)
(** ** encoding/json and encoding/base64: writing *)

Definition hex_char (n : Z) : ascii :=
  if n <? 10 then byte_of (48 + n) else byte_of (87 + n).

(** [htmlSafeSet]: the ASCII bytes written as they are. *)
Definition html_safe (c : ascii) : bool :=
  (32 <=? code c) && (code c <? 128)
  && negb (Ascii.eqb c dq || Ascii.eqb c bs || Ascii.eqb c "&"
           || Ascii.eqb c "<" || Ascii.eqb c ">").

Definition escape_byte (c : ascii) : string :=
  let n := code c in
  if Ascii.eqb c dq || Ascii.eqb c bs then String bs (str1 c)
  else if n =? 8 then String bs "b"
  else if n =? 12 then String bs "f"
  else if n =? 10 then String bs "n"
  else if n =? 13 then String bs "r"
  else if n =? 9 then String bs "t"
  else String bs (String "u" (String "0" (String "0"
         (String (hex_char (n / 16)) (str1 (hex_char (n mod 16))))))).

Definition line_sep_2028 : string :=
  String (byte_of 226) (String (byte_of 128) (str1 (byte_of 168))).
Definition line_sep_2029 : string :=
  String (byte_of 226) (String (byte_of 128) (str1 (byte_of 169))).

(** The inside of a string literal as [appendString] writes it, with
    HTML escaping on: unsafe ASCII escaped, ill-formed UTF-8 written as
    the escape of U+FFFD, U+2028 and U+2029 escaped. *)
Fixpoint quote_go (fuel : nat) (s : string) : string :=
  match fuel with
  | O => EmptyString
  | S f =>
      match s with
      | EmptyString => EmptyString
      | String c r =>
          if code c <? 128 then
            (if html_safe c then str1 c else escape_byte c) ++ quote_go f r
          else
            match utf8_seq_len s with
            | O => String bs "ufffd" ++ quote_go f r
            | n =>
                let u := stake n s in
                (if String.eqb u line_sep_2028 then String bs "u2028"
                 else if String.eqb u line_sep_2029 then String bs "u2029"
                 else u) ++ quote_go f (sdrop n s)
            end
      end
  end.

Definition quote (s : string) : string :=
  String dq (quote_go (slen s) s ++ str1 dq).

(** The text of a JSON document, without white space, as the encoder
    writes it. *)
Fixpoint json_print (j : json) : string :=
  match j with
  | JNull => "null"
  | JBool true => "true"
  | JBool false => "false"
  | JNumber lit => lit
  | JString s => quote s
  | JArray l => "[" ++ concat_with "," (map json_print l) ++ "]"
  | JObject ms =>
      "{" ++ concat_with ","
               (map (fun kv : string * json =>
                       quote kv.1 ++ ":" ++ json_print kv.2) ms) ++ "}"
  end.

(** [base64.StdEncoding.EncodeToString]. *)
Definition b64_char (n : Z) : ascii :=
  if n <? 26 then byte_of (65 + n)
  else if n <? 52 then byte_of (71 + n)
  else if n <? 62 then byte_of (n - 4)
  else if n =? 62 then "+"%char
  else "/"%char.

Fixpoint base64 (s : string) : string :=
  match s with
  | EmptyString => EmptyString
  | String a EmptyString =>
      let x := code a in
      String (b64_char (x / 4))
        (String (b64_char ((x mod 4) * 16)) "==")
  | String a (String b EmptyString) =>
      let x := code a in
      let y := code b in
      String (b64_char (x / 4))
        (String (b64_char ((x mod 4) * 16 + y / 16))
           (String (b64_char ((y mod 16) * 4)) "="))
  | String a (String b (String c r)) =>
      let x := code a in
      let y := code b in
      let z := code c in
      String (b64_char (x / 4))
        (String (b64_char ((x mod 4) * 16 + y / 16))
           (String (b64_char ((y mod 16) * 4 + z / 64))
              (String (b64_char (z mod 64)) (base64 r))))
  end.

(** *** Documents that the decoder reads back as they were written *)

(** Well-formed UTF-8: a run of well-formed sequences. *)
Fixpoint utf8_valid_go (fuel : nat) (s : string) : bool :=
  match s with
  | EmptyString => true
  | _ =>
      match fuel with
      | O => false
      | S f =>
          match utf8_seq_len s with
          | O => false
          | n => utf8_valid_go f (sdrop n s)
          end
      end
  end.

Definition utf8_valid (s : string) : bool := utf8_valid_go (slen s) s.

(** A literal of the number grammar, and nothing after it. *)
Definition number_ok (lit : string) : bool :=
  match lex_number lit with
  | Some (tok, EmptyString) => String.eqb tok lit
  | _ => false
  end.

(** How deep the arrays and objects of a document nest. *)
Fixpoint json_height (j : json) : Z :=
  match j with
  | JArray l => 1 + fold_right (fun x h => Z.max (json_height x) h) 0 l
  | JObject ms =>
      1 + fold_right (fun kv h => Z.max (json_height (snd kv)) h) 0 ms
  | _ => 0
  end.

(** Strings and keys are UTF-8 and numbers are number literals. *)
Fixpoint json_texts_ok (j : json) : bool :=
  match j with
  | JNumber lit => number_ok lit
  | JString s => utf8_valid s
  | JArray l => forallb json_texts_ok l
  | JObject ms =>
      forallb (fun kv => utf8_valid (fst kv) && json_texts_ok (snd kv)) ms
  | _ => true
  end.

Definition wf_json (j : json) : bool :=
  json_texts_ok j && (json_height j <=? maxNestingDepth).

(** The size of a document, for inductions over documents. *)
Fixpoint json_size (j : json) : nat :=
  match j with
  | JArray l => S (sum_list (map json_size l))
  | JObject ms => S (sum_list (map (fun kv => json_size (snd kv)) ms))
  | _ => 1%nat
  end.

(** What may follow a value, the first byte of a value, and the chunks
    of a string literal, for the proof that a well-formed document is
    read back from its text. *)

(** What may follow a value: the end of the text, a comma, or the end
    of the array or the object that holds it. *)
Definition value_end (rest : string) : bool :=
  match rest with
  | EmptyString => true
  | String c _ => Ascii.eqb c "," || Ascii.eqb c "]" || Ascii.eqb c "}"
  end.

(** The first byte of a value. *)
Definition value_start (c : ascii) : bool :=
  Ascii.eqb c "{" || Ascii.eqb c "[" || Ascii.eqb c dq || Ascii.eqb c "-"
  || is_digit c || Ascii.eqb c "t" || Ascii.eqb c "f" || Ascii.eqb c "n".

(** A chunk that the scanner reads through inside a string literal. *)
Definition lex_through (u : string) : Prop :=
  forall x, lex_string (u ++ x)
            = '(raw, t) ← lex_string x; Some (u ++ raw, t).

(** A chunk of raw text that [unquote_go] turns into [v]. *)
Definition unquote_through (u v : string) : Prop :=
  forall fuel x, unquote_go (S fuel) (u ++ x) = v ++ unquote_go fuel x.

(** With [depth] containers open, what is written for a value is read
    back as that value. *)
Definition reads (depth : Z) (x : json) : Prop :=
  forall fuel rest,
    value_end rest = true -> (2 * slen (json_print x) + 1 <= fuel)%nat ->
    parse_value fuel depth (json_print x ++ rest) = Some (x, rest).

Ltac bytes c := destruct c as [[] [] [] [] [] [] [] []].

(** *** Encoders by type

    Each gives the JSON document the encoder writes for a Go value, or
    no document when the value cannot be encoded
    ([UnsupportedTypeError], [UnsupportedValueError], a failing
    [MarshalJSON]).  The encoder follows pointers and interfaces, so a
    value and a pointer to it are written alike. *)

Definition enc_bool (b : bool) : option json := Some (JBool b).
Definition enc_uint64 (n : Z) : option json := Some (JNumber (itoa n)).
Definition enc_string (s : string) : option json := Some (JString s).

(** A pointer ([None] when nil). *)
Definition enc_ptr {T} (enc : T -> option json) (p : option T) : option json :=
  match p with
  | None => Some JNull
  | Some v => enc v
  end.

Definition enc_list {T} (enc : T -> option json) (l : list T) : option json :=
  JArray <$> mapM enc l.

(** A slice ([None] when nil, written [null]). *)
Definition enc_slice {T} (enc : T -> option json) (s : option (list T))
  : option json := enc_ptr (enc_list enc) s.

(** A [[]byte] is written as a string holding its base64 encoding. *)
Definition enc_bytes (b : option string) : option json :=
  enc_ptr (fun s => Some (JString (base64 s))) b.

(** Map keys are written in sorted order. *)
Definition key_le {A} (x y : string * A) : Prop := String.leb x.1 y.1 = true.
#[global] Instance key_le_dec {A} (x y : string * A) : Decision (key_le x y).
Proof. unfold key_le. apply _. Defined.

Definition sorted_entries {A} (m : gmap string A) : list (string * A) :=
  merge_sort key_le (map_to_list m).

Definition enc_entry (kv : string * option json) : option (string * json) :=
  pair kv.1 <$> kv.2.

(** A map: every value is encoded, then the entries are written by
    sorted key. *)
Definition enc_map {T} (enc : T -> option json) (m : gmap string T)
  : option json := JObject <$> mapM enc_entry (sorted_entries (enc <$> m)).

(** [time.Time] through its [MarshalJSON]. *)
Definition enc_time `{Platform} (t : Time) : option json :=
  JString <$> Time_MarshalJSON t.

Definition finite (f : float64) : bool :=
  match f with
  | S754_nan | S754_infinity _ => false
  | _ => true
  end.

(** A value held in an [interface{}]; NaN and the infinities have no
    encoding. *)
Fixpoint enc_dyn `{Platform} (d : dyn) : option json :=
  match d with
  | DNil => Some JNull
  | DBool b => Some (JBool b)
  | DFloat64 f => if finite f then Some (JNumber (FormatFloat64 f)) else None
  | DString s => Some (JString s)
  | DSlice l => JArray <$> mapM enc_dyn l
  | DMap m => enc_map enc_dyn m
  | DInt n => Some (JNumber (itoa n))
  end.

(** One field of a struct: its key and document, unless [omitempty]
    drops it ([omit] says whether the tag has [omitempty] and the value
    is empty: false, 0, a nil pointer or interface, an array, slice, map
    or string of length zero). *)
Definition field (key : string) (omit : bool) (doc : option json)
  : option (list (string * json)) :=
  if omit then Some [] else j ← doc; Some [(key, j)].

Fixpoint fields (l : list (option (list (string * json))))
  : option (list (string * json)) :=
  match l with
  | [] => Some []
  | x :: r => a ← x; b ← fields r; Some (app a b)
  end.

Definition struct (l : list (option (list (string * json)))) : option json :=
  JObject <$> fields l.

Definition is_nil {T} (p : option T) : bool :=
  match p with None => true | Some _ => false end.

Definition no_elements {T} (s : option (list T)) : bool :=
  match s with None | Some [] => true | Some _ => false end.

Definition no_entries {T} (m : option (gmap string T)) : bool :=
  match m with None => true | Some m => bool_decide (m = ∅) end.

(** What [json.Marshal] does with a Go value of type [T]. *)
Class Marshal (T : Type) := to_json : T -> option json.

Definition json_Marshal {T} `{Marshal T} (v : T) : option string :=
  json_print <$> to_json v.

(** The type [[]byte]. *)
Record bytes := Bytes { bytes_data : option string }.
#[global] Instance Marshal_bytes : Marshal bytes :=
  fun b => enc_bytes (bytes_data b).

(** A channel: no encoding. *)
Inductive chan : Type := mkchan.
#[global] Instance Marshal_chan : Marshal chan := fun _ => None.

(** How the decoder stores a JSON document into a Go value of type [T]
    (reached through the pointer the caller passes): the new value, and
    how the decoding went. *)
Class Unmarshal (T : Type) := from_json : json -> T -> T * status.

(** The parameters [body] and [out] of the client have type
    [interface{}]: a value of any type, or nil.  They are options on a
    type that can be encoded or decoded; [nothing] is the type of the
    argument when the caller passes the literal [nil]. *)
Inductive nothing : Type := .
#[global] Instance Marshal_nothing : Marshal nothing := fun _ => None.
#[global] Instance Unmarshal_nothing : Unmarshal nothing :=
  fun _ x => (x, Clean).

Definition no_body : option nothing := None.
Definition no_out : option nothing := None.

(* ================================================================== *)
(** ** client.go *)

(** The [error] values of the program: those of encoding/json, of
    net/http and the retrying client behind it, of reading a body, and
    the program's own [*APIError]. *)
Inductive error : Type :=
| Error_json (e : json_error)
| Error_http (msg : string)
| Error_io
| Error_API (e : APIError).

Inductive result (A : Type) : Type :=
| Ok (a : A)
| Fail (e : error).
Arguments Ok {A} a.
Arguments Fail {A} e.

(** A body: the bytes not read yet, whether the stream ends in a read
    error instead of EOF, and whether [Close] was called. *)
Record Reader := mkReader {
  unread : string;
  broken : bool;
  closed : bool;
}.

Definition bytes_NewReader (b : string) : Reader :=
  {| unread := b; broken := false; closed := false |}.

(** [io.ReadAll]: everything up to the end of the stream, and the read
    error if the stream ends in one. *)
Definition io_ReadAll (r : Reader) : string * bool * Reader :=
  (unread r, broken r,
   {| unread := ""; broken := broken r; closed := closed r |}).

Definition Close (r : Reader) : Reader :=
  {| unread := unread r; broken := broken r; closed := true |}.

(** [http.Request], as far as the program touches it, wrapped by
    [Request]. *)
Record Request := mkRequest {
  Method : string;
  URL : string;
  Header : gmap string (list string);
  Body : Reader;
}.

(** [http.Response], wrapped by [Response]. *)
Record Response := mkResponse {
  Response_StatusCode : Z;
  Response_Body : Reader;
}.

(** What [httpClient.Do] did with a request: it failed with an error
    and no response, or it produced a response; either way it may have
    read from the body of the request. *)
Record exchange := mkExchange {
  outcome_of : error + Response;
  request_body_after : Reader;
}.

Record client := mkClient {
  apiKey : string;
  baseURL : string;
  httpClient : Request -> exchange;
}.

Definition BaseUrl (c : client) : string := baseURL c.

(** *** net/http *)

Definition is_token_char (c : ascii) : bool :=
  is_digit c || is_lower c || is_upper c
  || existsb (Ascii.eqb c)
       ["!"; "#"; "$"; "%"; "&"; "'"; "*"; "+"; "-"; "."; "^"; "_"; "`";
        "|"; "~"]%char.

Fixpoint all_chars (p : ascii -> bool) (s : string) : bool :=
  match s with
  | EmptyString => true
  | String c r => p c && all_chars p r
  end.

Definition validMethod (m : string) : bool :=
  negb (String.eqb m "") && all_chars is_token_char m.

(** [http.NewRequest] on a [*bytes.Reader]: the method must be a token
    (the empty method stands for GET) and the URL must parse. *)
Definition http_NewRequest `{Platform} (method url : string) (body : Reader)
  : result Request :=
  let method := if String.eqb method "" then "GET" else method in
  if negb (validMethod method) then Fail (Error_http "invalid method")
  else if negb (url_Parse_ok url) then Fail (Error_http "parse")
  else Ok {| Method := method; URL := url; Header := ∅; Body := body |}.

Definition basicAuth (username password : string) : string :=
  base64 (username ++ ":" ++ password).

Definition Header_Set (k v : string) (h : gmap string (list string))
  : gmap string (list string) := <[k := [v]]> h.

Definition Header_Add (k v : string) (h : gmap string (list string))
  : gmap string (list string) := <[k := app (default [] (h !! k)) [v]]> h.

Definition SetBasicAuth (username password : string) (r : Request)
  : Request :=
  {| Method := Method r; URL := URL r;
     Header := Header_Set "Authorization"
                 ("Basic " ++ basicAuth username password) (Header r);
     Body := Body r |}.

Definition AddHeader (k v : string) (r : Request) : Request :=
  {| Method := Method r; URL := URL r;
     Header := Header_Add k v (Header r); Body := Body r |}.

(** *** The client *)

Definition newRequest `{Platform} {T} `{Marshal T} (c : client)
    (method endpoint : string) (body : option T) : result Request :=
  let marshalled :=
    match body with
    | None => Ok ""
    | Some v =>
        match json_Marshal v with
        | Some b => Ok b
        | None => Fail (Error_json MarshalFailure)
        end
    end in
  match marshalled with
  | Fail err => Fail err
  | Ok b =>
      let bodyReader := bytes_NewReader b in
      match http_NewRequest method (baseURL c ++ endpoint) bodyReader with
      | Fail err => Fail err
      | Ok raw =>
          let raw := SetBasicAuth (apiKey c) "X" raw in
          let raw := AddHeader "Content-Type" "application/json" raw in
          Ok raw
      end
  end.

(** [Payload] of [Request] and of [Response]: the whole body, compacted;
    the empty string when reading or compacting fails. *)
Definition Payload (body : Reader) : string * Reader :=
  let '(data, err, body') := io_ReadAll body in
  (if err then ""
   else match json_Compact data with
        | Some compacted => compacted
        | None => ""
        end,
   body').

Definition Request_Payload (r : Request) : string * Request :=
  let '(p, b) := Payload (Body r) in
  (p, {| Method := Method r; URL := URL r; Header := Header r; Body := b |}).

Definition Response_Payload (r : Response) : string * Response :=
  let '(p, b) := Payload (Response_Body r) in
  (p, {| Response_StatusCode := Response_StatusCode r; Response_Body := b |}).

Definition is_container (j : json) : bool :=
  match j with JArray _ | JObject _ => true | _ => false end.

(** [json.NewDecoder(body).Decode(out)]: the first value of the stream
    is read and stored into [out].  A scalar is only known to be complete
    at the next byte or at EOF, so a stream that breaks right after one
    fails. *)
Definition Decode {T} `{Unmarshal T} (body : Reader) (out : T)
  : T * option error * Reader :=
  match json_first_value (unread body) with
  | Some (j, rest) =>
      if broken body && negb (is_container j) && String.eqb rest "" then
        (out, Some Error_io, (io_ReadAll body).2)
      else
        let '(v, st) := from_json j out in
        (v,
         match st with
         | Clean => None
         | Mismatch => Some (Error_json UnmarshalTypeError)
         | Abort => Some (Error_json UnmarshalerError)
         end,
         {| unread := rest; broken := broken body; closed := closed body |})
  | None =>
      (out,
       Some (if broken body then Error_io
             else if String.eqb (skip_space (unread body)) ""
                  then Error_json UnexpectedEOF
                  else Error_json SyntaxError),
       (io_ReadAll body).2)
  end.

(** What a call of [do] leaves behind: the error it returns ([None] is
    nil), the target, and the two bodies. *)
Record done (T : Type) := mkDone {
  returned : option error;
  out_after : option T;
  request_after : Request;
  response_after : option Response;
}.
Arguments mkDone {T} _ _ _ _.
Arguments returned {T} _.
Arguments out_after {T} _.
Arguments request_after {T} _.
Arguments response_after {T} _.

Definition with_Body (r : Request) (b : Reader) : Request :=
  {| Method := Method r; URL := URL r; Header := Header r; Body := b |}.

Definition close_Response (r : Response) : Response :=
  {| Response_StatusCode := Response_StatusCode r;
     Response_Body := Close (Response_Body r) |}.

Definition do {T} `{Unmarshal T} (c : client) (req : Request)
    (out : option T) (expectedStatus : Z) : done T :=
  let x := httpClient c req in
  let req := with_Body req (request_body_after x) in
  match outcome_of x with
  | inl err => mkDone (Some err) out req None
  | inr raw =>
      (* defer raw.Body.Close() *)
      let res := raw in
      if negb (Response_StatusCode res =? expectedStatus) then
        let '(reqPayload, req') := Request_Payload req in
        let '(resPayload, res') := Response_Payload res in
        mkDone
          (Some (Error_API (NewApiError (Response_StatusCode res)
                              expectedStatus reqPayload resPayload)))
          out req' (Some (close_Response res'))
      else
        match out with
        | Some o =>
            let '(o', err, body') := Decode (Response_Body res) o in
            let res' := mkResponse (Response_StatusCode res) body' in
            match err with
            | Some e =>
                mkDone (Some e) (Some o') req (Some (close_Response res'))
            | None => mkDone None (Some o') req (Some (close_Response res'))
            end
        | None => mkDone None None req (Some (close_Response res))
        end
  end.

(* ================================================================== *)
(** ** contacts.go *)

Module Contact.
(** The struct [Contact].  Pointers, slices and maps are options:
    [None] is nil. *)
Record t `{Platform} := mk {
  ID : Z;
  UniqueExternalID : string;
  Active : bool;
  Deleted : bool;
  CreatedAt : option Time;
  UpdatedAt : option Time;
  ViewAllTickets : bool;
  Name : string;
  JobTitle : option string;
  Description : option string;
  Address : option string;
  Email : string;
  OtherEmails : option (list string);
  Phone : option string;
  Mobile : option string;
  OtherPhones : option (list (option (gmap string string)));
  TwitterID : option string;
  TimeZone : option string;
  Language : option string;
  CompanyID : option string;
  OtherCompanies : option (list (option (gmap string string)));
  Tags : option (list string);
  CustomFields : option (gmap string dyn);
}.

(** [new(Contact)]. *)
Definition zero `{Platform} : t :=
  mk _ 0 "" false false None None false "" None None None "" None None None
     None None None None None None None None.
End Contact.

Abbreviation Contact := Contact.t.

(** The encoding of a [Contact], field by field as the struct tags say. *)
Definition enc_Contact `{Platform} (c : Contact) : option json :=
  struct [
    field "id" (Contact.ID c =? 0) (enc_uint64 (Contact.ID c));
    field "unique_external_id" (String.eqb (Contact.UniqueExternalID c) "")
      (enc_string (Contact.UniqueExternalID c));
    field "active" false (enc_bool (Contact.Active c));
    field "deleted" (negb (Contact.Deleted c)) (enc_bool (Contact.Deleted c));
    field "created_at" (is_nil (Contact.CreatedAt c))
      (enc_ptr enc_time (Contact.CreatedAt c));
    field "updated_at" (is_nil (Contact.UpdatedAt c))
      (enc_ptr enc_time (Contact.UpdatedAt c));
    field "view_all_tickets" false (enc_bool (Contact.ViewAllTickets c));
    field "name" false (enc_string (Contact.Name c));
    field "job_title" (is_nil (Contact.JobTitle c))
      (enc_ptr enc_string (Contact.JobTitle c));
    field "description" (is_nil (Contact.Description c))
      (enc_ptr enc_string (Contact.Description c));
    field "address" (is_nil (Contact.Address c))
      (enc_ptr enc_string (Contact.Address c));
    field "email" (String.eqb (Contact.Email c) "")
      (enc_string (Contact.Email c));
    field "other_emails" (no_elements (Contact.OtherEmails c))
      (enc_slice enc_string (Contact.OtherEmails c));
    field "phone" (is_nil (Contact.Phone c))
      (enc_ptr enc_string (Contact.Phone c));
    field "mobile" (is_nil (Contact.Mobile c))
      (enc_ptr enc_string (Contact.Mobile c));
    field "other_phone_numbers" (no_elements (Contact.OtherPhones c))
      (enc_slice (enc_ptr (enc_map enc_string)) (Contact.OtherPhones c));
    field "twitter_id" (is_nil (Contact.TwitterID c))
      (enc_ptr enc_string (Contact.TwitterID c));
    field "time_zone" (is_nil (Contact.TimeZone c))
      (enc_ptr enc_string (Contact.TimeZone c));
    field "language" (is_nil (Contact.Language c))
      (enc_ptr enc_string (Contact.Language c));
    field "company_id" (is_nil (Contact.CompanyID c))
      (enc_ptr enc_string (Contact.CompanyID c));
    field "other_companies" (no_elements (Contact.OtherCompanies c))
      (enc_slice (enc_ptr (enc_map enc_string)) (Contact.OtherCompanies c));
    field "tags" (no_elements (Contact.Tags c))
      (enc_slice enc_string (Contact.Tags c));
    field "custom_fields" (no_entries (Contact.CustomFields c))
      (enc_ptr (enc_map enc_dyn) (Contact.CustomFields c))
  ].

(** A [*Contact] passed as a body. *)
#[global] Instance Marshal_Contact `{Platform} : Marshal (option Contact) :=
  enc_ptr enc_Contact.

(** *** Decoders by type *)

Definition decode_bool (old : bool) (j : json) : bool * status :=
  match j with
  | JBool b => (b, Clean)
  | JNull => (old, Clean)
  | _ => (old, Mismatch)
  end.

Definition decode_uint64 (old : Z) (j : json) : Z * status :=
  match j with
  | JNumber lit =>
      match ParseUint64 lit with
      | Some n => (n, Clean)
      | None => (old, Mismatch)
      end
  | JNull => (old, Clean)
  | _ => (old, Mismatch)
  end.

(** Through a pointer: [null] makes it nil; for anything else the
    pointer is allocated if it was nil, and the value is decoded into
    what it points to. *)
Definition decode_ptr {T} (zero : T) (dec : T -> json -> T * status)
    (old : option T) (j : json) : option T * status :=
  match j with
  | JNull => (None, Clean)
  | _ => let '(x, e) := dec (default zero old) j in (Some x, e)
  end.

Definition decode_slice {T} (zero : T) (dec : T -> json -> T * status)
    (old : option (list T)) (j : json) : option (list T) * status :=
  match j with
  | JArray l =>
      let '(xs, e) := decode_elements zero dec (default [] old) l in
      (Some xs, e)
  | JNull => (None, Clean)
  | _ => (old, Mismatch)
  end.

(** Into a map: each member is decoded into a fresh element, which is
    then stored under its key, whether or not it fitted. *)
Fixpoint decode_entries {T} (zero : T) (dec : T -> json -> T * status)
    (ms : list (string * json)) (m : gmap string T) : gmap string T * status :=
  match ms with
  | [] => (m, Clean)
  | (k, v) :: r =>
      match dec zero v with
      | (x, Abort) => (m, Abort)
      | (x, e1) =>
          let '(m', e2) := decode_entries zero dec r (<[k := x]> m) in
          (m', and_then e1 e2)
      end
  end.

Definition decode_map {T} (zero : T) (dec : T -> json -> T * status)
    (old : option (gmap string T)) (j : json)
  : option (gmap string T) * status :=
  match j with
  | JObject ms =>
      let '(m, e) := decode_entries zero dec ms (default ∅ old) in (Some m, e)
  | JNull => (None, Clean)
  | _ => (old, Mismatch)
  end.

Definition decode_dyn (old : dyn) (j : json) : dyn * status :=
  (dyn_of_json j, number_status j).

(** A [*time.Time]: [null] makes it nil; anything else goes to
    [UnmarshalJSON], whose error stops the decoding. *)
Definition decode_time_ptr `{Platform} (old : option Time) (j : json)
  : option Time * status :=
  match j with
  | JNull => (None, Clean)
  | JString s =>
      match Time_UnmarshalJSON s with
      | Some t => (Some t, Clean)
      | None => (Some (default Time_zero old), Abort)
      end
  | _ => (Some (default Time_zero old), Abort)
  end.

Definition decode_string_ptr := decode_ptr "" decode_string.
Definition decode_strings := decode_slice "" decode_string.
Definition decode_string_maps :=
  decode_slice None (decode_map "" decode_string).

(** The fields of [Contact] under their tags. *)
Definition store_Contact `{Platform} (c : Contact) (k : string) (v : json)
  : Contact * status :=
  let 'Contact.mk _ f1 f2 f3 f4 f5 f6 f7 f8 f9 f10 f11 f12 f13 f14 f15 f16
         f17 f18 f19 f20 f21 f22 f23 := c in
  if key_is "id" k then
    let '(x, e) := decode_uint64 f1 v in
    (Contact.mk _ x f2 f3 f4 f5 f6 f7 f8 f9 f10 f11 f12 f13 f14 f15 f16 f17
       f18 f19 f20 f21 f22 f23, e)
  else if key_is "unique_external_id" k then
    let '(x, e) := decode_string f2 v in
    (Contact.mk _ f1 x f3 f4 f5 f6 f7 f8 f9 f10 f11 f12 f13 f14 f15 f16 f17
       f18 f19 f20 f21 f22 f23, e)
  else if key_is "active" k then
    let '(x, e) := decode_bool f3 v in
    (Contact.mk _ f1 f2 x f4 f5 f6 f7 f8 f9 f10 f11 f12 f13 f14 f15 f16 f17
       f18 f19 f20 f21 f22 f23, e)
  else if key_is "deleted" k then
    let '(x, e) := decode_bool f4 v in
    (Contact.mk _ f1 f2 f3 x f5 f6 f7 f8 f9 f10 f11 f12 f13 f14 f15 f16 f17
       f18 f19 f20 f21 f22 f23, e)
  else if key_is "created_at" k then
    let '(x, e) := decode_time_ptr f5 v in
    (Contact.mk _ f1 f2 f3 f4 x f6 f7 f8 f9 f10 f11 f12 f13 f14 f15 f16 f17
       f18 f19 f20 f21 f22 f23, e)
  else if key_is "updated_at" k then
    let '(x, e) := decode_time_ptr f6 v in
    (Contact.mk _ f1 f2 f3 f4 f5 x f7 f8 f9 f10 f11 f12 f13 f14 f15 f16 f17
       f18 f19 f20 f21 f22 f23, e)
  else if key_is "view_all_tickets" k then
    let '(x, e) := decode_bool f7 v in
    (Contact.mk _ f1 f2 f3 f4 f5 f6 x f8 f9 f10 f11 f12 f13 f14 f15 f16 f17
       f18 f19 f20 f21 f22 f23, e)
  else if key_is "name" k then
    let '(x, e) := decode_string f8 v in
    (Contact.mk _ f1 f2 f3 f4 f5 f6 f7 x f9 f10 f11 f12 f13 f14 f15 f16 f17
       f18 f19 f20 f21 f22 f23, e)
  else if key_is "job_title" k then
    let '(x, e) := decode_string_ptr f9 v in
    (Contact.mk _ f1 f2 f3 f4 f5 f6 f7 f8 x f10 f11 f12 f13 f14 f15 f16 f17
       f18 f19 f20 f21 f22 f23, e)
  else if key_is "description" k then
    let '(x, e) := decode_string_ptr f10 v in
    (Contact.mk _ f1 f2 f3 f4 f5 f6 f7 f8 f9 x f11 f12 f13 f14 f15 f16 f17
       f18 f19 f20 f21 f22 f23, e)
  else if key_is "address" k then
    let '(x, e) := decode_string_ptr f11 v in
    (Contact.mk _ f1 f2 f3 f4 f5 f6 f7 f8 f9 f10 x f12 f13 f14 f15 f16 f17
       f18 f19 f20 f21 f22 f23, e)
  else if key_is "email" k then
    let '(x, e) := decode_string f12 v in
    (Contact.mk _ f1 f2 f3 f4 f5 f6 f7 f8 f9 f10 f11 x f13 f14 f15 f16 f17
       f18 f19 f20 f21 f22 f23, e)
  else if key_is "other_emails" k then
    let '(x, e) := decode_strings f13 v in
    (Contact.mk _ f1 f2 f3 f4 f5 f6 f7 f8 f9 f10 f11 f12 x f14 f15 f16 f17
       f18 f19 f20 f21 f22 f23, e)
  else if key_is "phone" k then
    let '(x, e) := decode_string_ptr f14 v in
    (Contact.mk _ f1 f2 f3 f4 f5 f6 f7 f8 f9 f10 f11 f12 f13 x f15 f16 f17
       f18 f19 f20 f21 f22 f23, e)
  else if key_is "mobile" k then
    let '(x, e) := decode_string_ptr f15 v in
    (Contact.mk _ f1 f2 f3 f4 f5 f6 f7 f8 f9 f10 f11 f12 f13 f14 x f16 f17
       f18 f19 f20 f21 f22 f23, e)
  else if key_is "other_phone_numbers" k then
    let '(x, e) := decode_string_maps f16 v in
    (Contact.mk _ f1 f2 f3 f4 f5 f6 f7 f8 f9 f10 f11 f12 f13 f14 f15 x f17
       f18 f19 f20 f21 f22 f23, e)
  else if key_is "twitter_id" k then
    let '(x, e) := decode_string_ptr f17 v in
    (Contact.mk _ f1 f2 f3 f4 f5 f6 f7 f8 f9 f10 f11 f12 f13 f14 f15 f16 x
       f18 f19 f20 f21 f22 f23, e)
  else if key_is "time_zone" k then
    let '(x, e) := decode_string_ptr f18 v in
    (Contact.mk _ f1 f2 f3 f4 f5 f6 f7 f8 f9 f10 f11 f12 f13 f14 f15 f16 f17
       x f19 f20 f21 f22 f23, e)
  else if key_is "language" k then
    let '(x, e) := decode_string_ptr f19 v in
    (Contact.mk _ f1 f2 f3 f4 f5 f6 f7 f8 f9 f10 f11 f12 f13 f14 f15 f16 f17
       f18 x f20 f21 f22 f23, e)
  else if key_is "company_id" k then
    let '(x, e) := decode_string_ptr f20 v in
    (Contact.mk _ f1 f2 f3 f4 f5 f6 f7 f8 f9 f10 f11 f12 f13 f14 f15 f16 f17
       f18 f19 x f21 f22 f23, e)
  else if key_is "other_companies" k then
    let '(x, e) := decode_string_maps f21 v in
    (Contact.mk _ f1 f2 f3 f4 f5 f6 f7 f8 f9 f10 f11 f12 f13 f14 f15 f16 f17
       f18 f19 f20 x f22 f23, e)
  else if key_is "tags" k then
    let '(x, e) := decode_strings f22 v in
    (Contact.mk _ f1 f2 f3 f4 f5 f6 f7 f8 f9 f10 f11 f12 f13 f14 f15 f16 f17
       f18 f19 f20 f21 x f23, e)
  else if key_is "custom_fields" k then
    let '(x, e) := decode_map DNil decode_dyn f23 v in
    (Contact.mk _ f1 f2 f3 f4 f5 f6 f7 f8 f9 f10 f11 f12 f13 f14 f15 f16 f17
       f18 f19 f20 f21 f22 x, e)
  else (c, Clean).

Definition decode_Contact `{Platform} (old : Contact) (j : json)
  : Contact * status :=
  match j with
  | JObject ms => decode_members store_Contact ms old
  | JNull => (old, Clean)
  | _ => (old, Mismatch)
  end.

(** The target [res] of [Create], [Update] and [View], a [*Contact]
    that is not nil. *)
#[global] Instance Unmarshal_Contact `{Platform} : Unmarshal Contact :=
  fun j c => decode_Contact c j.

(** The target [&res] of [ListAll], a pointer to a [[]*Contact]. *)
#[global] Instance Unmarshal_Contacts `{Platform}
  : Unmarshal (option (list (option Contact))) :=
  fun j l => decode_slice None (decode_ptr Contact.zero decode_Contact) l j.

(** [json.Unmarshal(data, c)] for [c : *Contact]. *)
Definition Unmarshal_Contact_text `{Platform} (data : string) (c : Contact)
  : Contact * option json_error :=
  match json_parse data with
  | None => (c, Some SyntaxError)
  | Some j =>
      let '(c', st) := decode_Contact c j in
      (c', match st with
           | Clean => None
           | Mismatch => Some UnmarshalTypeError
           | Abort => Some UnmarshalerError
           end)
  end.

(** *** The contacts client

    [ListAllContactFields] comes after the struct [ContactField],
    further down. *)

Definition contacts_path (id : Z) (suffix : string) : string :=
  "contacts/" ++ itoa id ++ suffix.

Definition StatusOK : Z := 200.
Definition StatusCreated : Z := 201.
Definition StatusNoContent : Z := 204.

Definition Create `{Platform} (c : client) (t : option Contact)
  : option Contact * option error :=
  match newRequest c "POST" "contacts" (Some t) with
  | Fail err => (None, Some err)
  | Ok req =>
      let d := do c req (Some Contact.zero) StatusCreated in
      (out_after d, returned d)
  end.

Definition Update `{Platform} (c : client) (id : Z) (t : option Contact)
  : option Contact * option error :=
  match newRequest c "PUT" (contacts_path id "") (Some t) with
  | Fail err => (None, Some err)
  | Ok req =>
      let d := do c req (Some Contact.zero) StatusOK in
      (out_after d, returned d)
  end.

Definition View `{Platform} (c : client) (id : Z)
  : option Contact * option error :=
  match newRequest c "GET" (contacts_path id "") no_body with
  | Fail err => (None, Some err)
  | Ok req =>
      let d := do c req (Some Contact.zero) StatusOK in
      (out_after d, returned d)
  end.

Definition ListAll `{Platform} (c : client)
  : option (list (option Contact)) * option error :=
  match newRequest c "GET" "contacts" no_body with
  | Fail err => (None, Some err)
  | Ok req =>
      let d := do c req (Some (None : option (list (option Contact))))
                 StatusOK in
      (mjoin (out_after d), returned d)
  end.

Definition Delete `{Platform} (c : client) (id : Z) : option error :=
  match newRequest c "DELETE" (contacts_path id "") no_body with
  | Fail err => Some err
  | Ok req => returned (do c req no_out StatusOK)
  end.

(** The body [params] of [HardDelete]. *)
Definition enc_HardDelete_params (id : Z) (force : bool) : option json :=
  struct [
    field "id" false (enc_uint64 id);
    field "force" false (enc_bool force)
  ].

Definition HardDelete `{Platform} (c : client) (id : Z) (force : bool)
  : option error :=
  match json_print <$> enc_HardDelete_params id force with
  | None => Some (Error_json MarshalFailure)
  | Some in_ =>
      match newRequest c "DELETE" (contacts_path id "/hard_delete")
              (Some (Bytes (Some in_))) with
      | Fail err => Some err
      | Ok req => returned (do c req no_out StatusOK)
      end
  end.

Definition Restore `{Platform} (c : client) (id : Z) : option error :=
  match newRequest c "PUT" (contacts_path id "/restore") no_body with
  | Fail err => Some err
  | Ok req => returned (do c req no_out StatusOK)
  end.

Definition SearchContacts `{Platform} (c : client) (keyword : string)
  : option (list (option Contact)) * option error :=
  match newRequest c "POST" ("contacts/autocomplete?term=" ++ keyword)
          no_body with
  | Fail err => (None, Some err)
  | Ok req =>
      let d := do c req (Some (None : option (list (option Contact))))
                 StatusNoContent in
      (mjoin (out_after d), returned d)
  end.

Definition SendInvite `{Platform} (c : client) (id : Z) : option error :=
  match newRequest c "POST" (contacts_path id "/send_invite") no_body with
  | Fail err => Some err
  | Ok req => returned (do c req no_out StatusNoContent)
  end.

(** The body [params] of [Merge]. *)
Definition enc_Merge_params `{Platform} (primaryID : Z)
    (secondaryIDs : option (list Z)) (attrs : option Contact) : option json :=
  struct [
    field "primary_contact_id" false (enc_uint64 primaryID);
    field "secondary_contact_ids" false (enc_slice enc_uint64 secondaryIDs);
    field "contact" (is_nil attrs) (enc_ptr enc_Contact attrs)
  ].

Definition Merge `{Platform} (c : client) (primaryID : Z)
    (secondaryIDs : option (list Z)) (attrs : option Contact) : option error :=
  match json_print <$> enc_Merge_params primaryID secondaryIDs attrs with
  | None => Some (Error_json MarshalFailure)
  | Some in_ =>
      match newRequest c "POST" "contacts/merge" (Some (Bytes (Some in_))) with
      | Fail err => Some err
      | Ok req => returned (do c req no_out StatusNoContent)
      end
  end.

(** *** Contact fields *)

Module ContactField.
(** The struct [ContactField]; [Type_] is its field [Type]. *)
Record t := mk {
  EditableInSignup : bool;
  ID : Z;
  Label : string;
  Name : string;
  Position : Z;
  Default : bool;
  Type_ : string;
  CustomersCanEdit : bool;
  LabelForCustomers : string;
  RequiredForCustomers : bool;
  DisplayedForCustomers : bool;
  RequiredForAgents : bool;
  Choices : option (gmap string string);
}.

Definition zero : t :=
  mk false 0 "" "" 0 false "" false "" false false false None.
End ContactField.

Abbreviation ContactField := ContactField.t.

(** The encoding of a [ContactField], field by field as the struct tags
    say. *)
Definition enc_ContactField (f : ContactField) : option json :=
  struct [
    field "editable_in_signup" false
      (enc_bool (ContactField.EditableInSignup f));
    field "id" false (enc_uint64 (ContactField.ID f));
    field "label" false (enc_string (ContactField.Label f));
    field "name" false (enc_string (ContactField.Name f));
    field "position" false (enc_uint64 (ContactField.Position f));
    field "default" false (enc_bool (ContactField.Default f));
    field "type" false (enc_string (ContactField.Type_ f));
    field "customers_can_edit" false
      (enc_bool (ContactField.CustomersCanEdit f));
    field "label_for_customers" false
      (enc_string (ContactField.LabelForCustomers f));
    field "required_for_customers" false
      (enc_bool (ContactField.RequiredForCustomers f));
    field "displayed_for_customers" false
      (enc_bool (ContactField.DisplayedForCustomers f));
    field "required_for_agents" false
      (enc_bool (ContactField.RequiredForAgents f));
    field "choices" (no_entries (ContactField.Choices f))
      (enc_ptr (enc_map enc_string) (ContactField.Choices f))
  ].

(** The fields of [ContactField] under their tags. *)
Definition store_ContactField (f : ContactField) (k : string) (v : json)
  : ContactField * status :=
  let 'ContactField.mk f1 f2 f3 f4 f5 f6 f7 f8 f9 f10 f11 f12 f13 := f in
  if key_is "editable_in_signup" k then
    let '(x, e) := decode_bool f1 v in
    (ContactField.mk x f2 f3 f4 f5 f6 f7 f8 f9 f10 f11 f12 f13, e)
  else if key_is "id" k then
    let '(x, e) := decode_uint64 f2 v in
    (ContactField.mk f1 x f3 f4 f5 f6 f7 f8 f9 f10 f11 f12 f13, e)
  else if key_is "label" k then
    let '(x, e) := decode_string f3 v in
    (ContactField.mk f1 f2 x f4 f5 f6 f7 f8 f9 f10 f11 f12 f13, e)
  else if key_is "name" k then
    let '(x, e) := decode_string f4 v in
    (ContactField.mk f1 f2 f3 x f5 f6 f7 f8 f9 f10 f11 f12 f13, e)
  else if key_is "position" k then
    let '(x, e) := decode_uint64 f5 v in
    (ContactField.mk f1 f2 f3 f4 x f6 f7 f8 f9 f10 f11 f12 f13, e)
  else if key_is "default" k then
    let '(x, e) := decode_bool f6 v in
    (ContactField.mk f1 f2 f3 f4 f5 x f7 f8 f9 f10 f11 f12 f13, e)
  else if key_is "type" k then
    let '(x, e) := decode_string f7 v in
    (ContactField.mk f1 f2 f3 f4 f5 f6 x f8 f9 f10 f11 f12 f13, e)
  else if key_is "customers_can_edit" k then
    let '(x, e) := decode_bool f8 v in
    (ContactField.mk f1 f2 f3 f4 f5 f6 f7 x f9 f10 f11 f12 f13, e)
  else if key_is "label_for_customers" k then
    let '(x, e) := decode_string f9 v in
    (ContactField.mk f1 f2 f3 f4 f5 f6 f7 f8 x f10 f11 f12 f13, e)
  else if key_is "required_for_customers" k then
    let '(x, e) := decode_bool f10 v in
    (ContactField.mk f1 f2 f3 f4 f5 f6 f7 f8 f9 x f11 f12 f13, e)
  else if key_is "displayed_for_customers" k then
    let '(x, e) := decode_bool f11 v in
    (ContactField.mk f1 f2 f3 f4 f5 f6 f7 f8 f9 f10 x f12 f13, e)
  else if key_is "required_for_agents" k then
    let '(x, e) := decode_bool f12 v in
    (ContactField.mk f1 f2 f3 f4 f5 f6 f7 f8 f9 f10 f11 x f13, e)
  else if key_is "choices" k then
    let '(x, e) := decode_map "" decode_string f13 v in
    (ContactField.mk f1 f2 f3 f4 f5 f6 f7 f8 f9 f10 f11 f12 x, e)
  else (f, Clean).

Definition decode_ContactField (old : ContactField) (j : json)
  : ContactField * status :=
  match j with
  | JObject ms => decode_members store_ContactField ms old
  | JNull => (old, Clean)
  | _ => (old, Mismatch)
  end.

(** The target [&res] of [ListAllContactFields], a pointer to a
    [[]*ContactField]. *)
#[global] Instance Unmarshal_ContactFields
  : Unmarshal (option (list (option ContactField))) :=
  fun j l =>
    decode_slice None (decode_ptr ContactField.zero decode_ContactField) l j.

Definition ListAllContactFields `{Platform} (c : client)
  : option (list (option ContactField)) * option error :=
  match newRequest c "GET" "contact_fields" no_body with
  | Fail err => (None, Some err)
  | Ok req =>
      let d := do c req (Some (None : option (list (option ContactField))))
                 StatusOK in
      (mjoin (out_after d), returned d)
  end.

(** *** crypto/md5 and encoding/hex *)

Definition u32 (x : Z) : Z := x mod 2 ^ 32.

Definition not32 (x : Z) : Z := 2 ^ 32 - 1 - x.

Definition rotl32 (x c : Z) : Z :=
  Z.lor (u32 (Z.shiftl x c)) (Z.shiftr x (32 - c)).

(** The shift of each of the 64 steps, and the table of sines. *)
Definition md5_shifts : list Z :=
  [7; 12; 17; 22; 7; 12; 17; 22; 7; 12; 17; 22; 7; 12; 17; 22;
   5; 9; 14; 20; 5; 9; 14; 20; 5; 9; 14; 20; 5; 9; 14; 20;
   4; 11; 16; 23; 4; 11; 16; 23; 4; 11; 16; 23; 4; 11; 16; 23;
   6; 10; 15; 21; 6; 10; 15; 21; 6; 10; 15; 21; 6; 10; 15; 21].

Definition md5_table : list Z :=
  [3614090360; 3905402710; 606105819; 3250441966;
   4118548399; 1200080426; 2821735955; 4249261313;
   1770035416; 2336552879; 4294925233; 2304563134;
   1804603682; 4254626195; 2792965006; 1236535329;
   4129170786; 3225465664; 643717713; 3921069994;
   3593408605; 38016083; 3634488961; 3889429448;
   568446438; 3275163606; 4107603335; 1163531501;
   2850285829; 4243563512; 1735328473; 2368359562;
   4294588738; 2272392833; 1839030562; 4259657740;
   2763975236; 1272893353; 4139469664; 3200236656;
   681279174; 3936430074; 3572445317; 76029189;
   3654602809; 3873151461; 530742520; 3299628645;
   4096336452; 1126891415; 2878612391; 4237533241;
   1700485571; 2399980690; 4293915773; 2240044497;
   1873313359; 4264355552; 2734768916; 1309151649;
   4149444226; 3174756917; 718787259; 3951481745].

Fixpoint le_bytes (k : nat) (x : Z) : list Z :=
  match k with
  | O => []
  | S k' => x mod 256 :: le_bytes k' (x / 256)
  end.

Fixpoint le_words (bs : list Z) : list Z :=
  match bs with
  | b0 :: b1 :: b2 :: b3 :: r =>
      (b0 + 256 * b1 + 65536 * b2 + 16777216 * b3) :: le_words r
  | _ => []
  end.

(** The message, a one bit, zeros up to 56 bytes modulo 64, and the
    length in bits as 8 bytes. *)
Definition md5_pad (msg : list Z) : list Z :=
  let n := Z.of_nat (length msg) in
  app msg (128 :: app (repeat 0 (Z.to_nat ((55 - n) mod 64)))
                     (le_bytes 8 ((8 * n) mod 2 ^ 64))).

Definition md5_state : Type := Z * Z * Z * Z.

Definition md5_init : md5_state :=
  (1732584193, 4023233417, 2562383102, 271733878).

Definition md5_step (m : list Z) (st : md5_state) (i : nat) : md5_state :=
  let '(a, b, c, d) := st in
  let n := Z.of_nat i in
  let '(f, g) :=
    if n <? 16 then (Z.lor (Z.land b c) (Z.land (not32 b) d), n)
    else if n <? 32 then
      (Z.lor (Z.land d b) (Z.land (not32 d) c), (5 * n + 1) mod 16)
    else if n <? 48 then (Z.lxor (Z.lxor b c) d, (3 * n + 5) mod 16)
    else (Z.lxor c (Z.lor b (not32 d)), (7 * n) mod 16) in
  let f := u32 (f + a + nth i md5_table 0 + nth (Z.to_nat g) m 0) in
  (d, u32 (b + rotl32 f (nth i md5_shifts 0)), b, c).

Definition md5_block (st : md5_state) (block : list Z) : md5_state :=
  let '(a, b, c, d) := st in
  let '(a', b', c', d') :=
    fold_left (md5_step (le_words block)) (seq 0 64) st in
  (u32 (a + a'), u32 (b + b'), u32 (c + c'), u32 (d + d')).

Fixpoint md5_blocks (n : nat) (bs : list Z) (st : md5_state) : md5_state :=
  match n with
  | O => st
  | S k => md5_blocks k (skipn 64 bs) (md5_block st (firstn 64 bs))
  end.

Fixpoint string_codes (s : string) : list Z :=
  match s with
  | EmptyString => []
  | String c r => code c :: string_codes r
  end.

Fixpoint codes_string (l : list Z) : string :=
  match l with
  | [] => EmptyString
  | x :: r => String (byte_of x) (codes_string r)
  end.

(** [md5.Sum]: the 16 bytes of the digest. *)
Definition md5_Sum (data : string) : string :=
  let padded := md5_pad (string_codes data) in
  let '(a, b, c, d) :=
    md5_blocks (length padded / 64) padded md5_init in
  codes_string
    (app (le_bytes 4 a) (app (le_bytes 4 b) (app (le_bytes 4 c) (le_bytes 4 d)))).

(** [hex.EncodeToString]: two lower-case digits for each byte. *)
Fixpoint hex_EncodeToString (s : string) : string :=
  match s with
  | EmptyString => EmptyString
  | String c r =>
      String (hex_char (code c / 16))
        (String (hex_char (code c mod 16)) (hex_EncodeToString r))
  end.

(** The method [Hash] of [*Contact]; the receiver may be nil. *)
Definition Hash `{Platform} (c : option Contact) : result string :=
  match json_Marshal c with
  | None => Fail (Error_json MarshalFailure)
  | Some in_ => Ok (hex_EncodeToString (md5_Sum in_))
  end.

(** *** The constructor of the client *)

(** [NewClient].  The retrying HTTP client is not part of this
    repository: [rc log] stands for the [StandardClient] of a
    [retryablehttp.Client] whose logger is [log], or its own default
    when [log] is nil.  The error returned is always nil. *)
Definition NewClient {L : Type} (rc : option L -> Request -> exchange)
    (subdomain apiKey : string) (log : option L) : client * option error :=
  ({| apiKey := apiKey;
      baseURL := "https://" ++ subdomain ++ ".freshdesk.com/api/v2/";
      httpClient := rc log |}, None).

(** [Contacts]: the contacts client holds the client itself. *)
Definition Contacts (c : client) : client := c.

(** *** The parser, case by case

    [after c s] is what follows [c] when [s] starts with it. *)
Definition after (c : ascii) (s : string) : option string :=
  match s with
  | String c' r => if Ascii.eqb c' c then Some r else None
  | EmptyString => None
  end.

(** Every byte of [s] passes [p]. *)
Definition head_is (p : ascii -> bool) (s : string) : bool :=
  match s with
  | EmptyString => true
  | String c _ => p c
  end.

(** The bytes that white-space removal copies as they are and that
    leave it outside a string literal. *)
Definition plain_byte (c : ascii) : bool :=
  negb (is_space c) && negb (Ascii.eqb c dq).

(** An exchange that fails: the transport gives no response, or one
    whose status is not the expected one. *)
Definition exchange_fails (c : client) (req : Request) (status : Z) : Prop :=
  (exists err, outcome_of (httpClient c req) = inl err) \/
  (exists raw, outcome_of (httpClient c req) = inr raw /\
               Response_StatusCode raw <> status).

(* ================================================================== *)
(** ** An environment for the examples *)

(** Conversions that do not fit yield [2^63], as on amd64; every URL
    parses; integral floats are written as integers; a time is its
    RFC 3339 text.  The examples below use no other float, and no URL
    that [url.Parse] rejects. *)
Definition example_platform : Platform :=
  {| uint64_of_unrepresentable := fun _ => 2 ^ 63;
     url_Parse_ok := fun _ => true;
     FormatFloat64 := fun f => default "" (itoa <$> float64_trunc f);
     Time := string;
     Time_zero := "";
     Time_MarshalJSON := Some;
     Time_UnmarshalJSON := Some |}.

(** A transport in the manner of net/http: the body of the request is
    read to its end in order to be sent, then the server answers. *)
Definition answering (status : Z) (body : string) : Request -> exchange :=
  fun req =>
    {| outcome_of := inr (mkResponse status (bytes_NewReader body));
       request_body_after := (io_ReadAll (Body req)).2 |}.

(** A transport that fails before any response. *)
Definition failing (err : error) : Request -> exchange :=
  fun req => {| outcome_of := inl err; request_body_after := Body req |}.

(** A transport that fails, and reports in its error the bytes it was
    given to send. *)
Definition reporting : Request -> exchange :=
  fun req => failing (Error_http (unread (Body req))) req.

Definition example_client (transport : Request -> exchange) : client :=
  {| apiKey := "key";
     baseURL := "https://example.freshdesk.com/api/v2/";
     httpClient := transport |}.

(* ================================================================== *)
(** ** The specification's words *)

(** A field error that names a duplicate e-mail address. *)
Definition is_email_duplicate (fe : FieldError) : bool :=
  String.eqb (Field fe) "email" && String.eqb (Code fe) "duplicate_value".

(** The duplicate-contact signal as section 3 of the specification
    words it: some field error names a duplicate e-mail address and has
    a [user_id] that is present and not null. *)
Definition usable_duplicate (fe : FieldError) : Prop :=
  is_email_duplicate fe = true /\
  exists v, AdditionalInfo fe !! "user_id" = Some v /\ v <> DNil.

Definition duplicate_signal (e : APIError) : Prop :=
  exists fe, In fe (Errors e) /\ usable_duplicate fe.

(** The first field error that names a duplicate e-mail address. *)
Definition first_duplicate (errs : list FieldError) : option FieldError :=
  find is_email_duplicate errs.

(** The keys through which a response body reaches the base state of
    the error. *)
Definition reaches_base (k : string) : bool :=
  key_is "Err" k || key_is "ReqBody" k || key_is "ResBody" k
  || key_is "StatusCode" k.

Definition base_state (e : APIError) : option string * string * string * Z :=
  (Err e, ReqBody e, ResBody e, StatusCode e).

(** The JSON object that the interface table of section 6 gives as the
    body of a hard delete. *)
Definition hard_delete_object (id : Z) (force : bool) : string :=
  js "{'id':" ++ itoa id ++ js ",'force':"
  ++ (if force then "true" else "false") ++ "}".

(** The request that [Restore] builds for contact 7. *)
Definition restore_request : Request :=
  {| Method := "PUT";
     URL := "https://example.freshdesk.com/api/v2/contacts/7/restore";
     Header := Header_Add "Content-Type" "application/json"
                 (Header_Set "Authorization" "Basic a2V5Olg=" ∅);
     Body := bytes_NewReader "" |}.

(** [f] is exactly the integer [n]. *)
Definition float64_is_integer (f : float64) (n : Z) : Prop :=
  match f with
  | S754_zero _ => n = 0
  | S754_finite s m e =>
      if 0 <=? e then n = (if s then -1 else 1) * (Z.pos m * 2 ^ e)
      else Z.pos m mod 2 ^ (- e) = 0 /\
           n = (if s then -1 else 1) * (Z.pos m / 2 ^ (- e))
  | _ => False
  end.

Definition field_error (field code : string) (info : gmap string dyn)
  : FieldError :=
  {| Field := field; AdditionalInfo := info; Message := ""; Code := code |}.

Definition api_error (errs : list FieldError) : APIError :=
  {| Err := Some "received status code 400 (201 expected)";
     ReqBody := ""; ResBody := ""; Description := ""; Errors := errs;
     StatusCode := 400 |}.

Definition user_id (v : dyn) : gmap string dyn := {[ "user_id" := v ]}.

(** A duplicate e-mail entry without [user_id], followed by one that
    has it. *)
Definition shadowed_duplicate : APIError :=
  api_error [ field_error "email" "duplicate_value" ∅;
              field_error "email" "duplicate_value"
                (user_id (DFloat64 (float64_of_Z 7))) ].

(** *** Records that survive the round trip through JSON *)

#[global] Instance float64_eq_dec : EqDecision float64.
Proof. solve_decision. Defined.

(** A slice or a map that is empty without being nil is dropped by
    [omitempty] and comes back nil. *)
Definition nil_or_elements {T} (s : option (list T)) : bool :=
  match s with Some [] => false | _ => true end.

Definition nil_or_entries {T} (m : option (gmap string T)) : bool :=
  match m with
  | Some m => negb (bool_decide (m = ∅))
  | None => true
  end.

(** A time that its own [MarshalJSON] and [UnmarshalJSON] give back. *)
Definition time_roundtrips `{Platform} (t : option Time) : Prop :=
  match t with
  | None => True
  | Some t => (Time_MarshalJSON t ≫= Time_UnmarshalJSON) = Some t
  end.

(** A value of a custom field that is of a kind the decoder stores,
    and in which every number is finite and is read back from its
    decimal text. *)
Fixpoint dyn_roundtrips `{Platform} (d : dyn) : bool :=
  match d with
  | DFloat64 f =>
      finite f && bool_decide (ParseFloat64 (FormatFloat64 f) = Some f)
  | DSlice l => forallb dyn_roundtrips l
  | DMap m =>
      forallb (fun kv : string * bool => kv.2)
        (map_to_list (dyn_roundtrips <$> m))
  | DInt _ => false
  | _ => true
  end.

Definition custom_fields_roundtrip `{Platform} (m : option (gmap string dyn))
  : bool :=
  match m with
  | None => true
  | Some m =>
      forallb (fun kv : string * bool => kv.2)
        (map_to_list (dyn_roundtrips <$> m))
  end.

(** The records for which the round trip is claimed: the id is a
    [uint64]; no slice or map is empty without being nil; the
    timestamps and the custom fields come back from their own
    encodings. *)
Definition Contact_valid `{Platform} (c : Contact) : Prop :=
  0 <= Contact.ID c < 2 ^ 64 /\
  nil_or_elements (Contact.OtherEmails c) = true /\
  nil_or_elements (Contact.OtherPhones c) = true /\
  nil_or_elements (Contact.OtherCompanies c) = true /\
  nil_or_elements (Contact.Tags c) = true /\
  nil_or_entries (Contact.CustomFields c) = true /\
  time_roundtrips (Contact.CreatedAt c) /\
  time_roundtrips (Contact.UpdatedAt c) /\
  custom_fields_roundtrip (Contact.CustomFields c) = true.

(** The document that the encoder writes for the record is well formed:
    its strings are UTF-8, its numbers are number literals, and it
    nests no deeper than the scanner allows. *)
Definition Contact_well_formed `{Platform} (c : Contact) : Prop :=
  match enc_Contact c with
  | Some doc => wf_json doc = true
  | None => False
  end.

(** [decode(encode(record))]: [json.Marshal] of a pointer to the record,
    then [json.Unmarshal] of the bytes into a new [Contact]. *)
Definition Contact_roundtrip `{Platform} (c : Contact)
  : option (Contact * option json_error) :=
  data ← json_Marshal (Some c);
  Some (Unmarshal_Contact_text data Contact.zero).

(** A contact whose tags are an empty slice, not a nil one. *)
Definition contact_with_empty_tags : @Contact example_platform :=
  Contact.mk _ 0 "" false false None None false "" None None None "" None
    None None None None None None None None (Some []) None.

(** A contact whose name is the single byte 255, which is not UTF-8. *)
Definition contact_bad_name : @Contact example_platform :=
  Contact.mk _ 0 "" false false None None false (str1 (byte_of 255)) None
    None None "" None None None None None None None None None None None.

(** A contact with a custom field that holds NaN. *)
Definition contact_nan : @Contact example_platform :=
  Contact.mk _ 0 "" false false None None false "" None None None "" None
    None None None None None None None None None
    (Some {[ "ratio" := DFloat64 S754_nan ]}).

(** A contact with a custom field that holds the [int] 5. *)
Definition contact_int : @Contact example_platform :=
  Contact.mk _ 0 "" false false None None false "" None None None "" None
    None None None None None None None None None
    (Some {[ "level" := DInt 5 ]}).

Definition new_year_2020 : @Time example_platform :=
  "2020-01-01T00:00:00Z" : string.

(** A contact with every kind of field filled in. *)
Definition contact_ann : @Contact example_platform :=
  Contact.mk _ 5 "ext-5" true false (Some new_year_2020) None false
    "Ann" (Some "CEO") (Some "") None "ann@example.com"
    (Some ["a@example.com"]) None None
    (Some [None; Some {[ "work" := "555" ]}]) None None None None None
    (Some ["vip"; "new"])
    (Some {[ "level" := DFloat64 (float64_of_Z 3);
             "notes" := DSlice [DString "x"; DNil; DBool true] ]}).

(** *** Tactics for the round trip *)

(** The comparisons of a key with the tags of [Contact], computed. *)
Ltac reduce_keys :=
  repeat match goal with
         | |- context [key_is ?a ?b] =>
             let v := eval vm_compute in (key_is a b) in
             change (key_is a b) with v
         end;
  cbv beta iota.

(** One field: dropped by [omitempty], and then it was empty and stays
    at its zero value; or written, and then read back by its decoder. *)
Ltac field_written Hl written :=
  match type of Hl with
  | (?d ≫= _) = _ => destruct d as [j|] eqn:Hdoc; [|discriminate Hl]
  end;
  injection Hl as <-;
  cbn [decode_members]; unfold store_Contact; reduce_keys;
  written; reflexivity.

Ltac field_step Hl dropped written :=
  unfold field in Hl;
  lazymatch type of Hl with
  | (if ?o then _ else _) = _ =>
      destruct o eqn:Homit;
      [ injection Hl as <-; cbn [decode_members]; dropped
      | field_written Hl written ]
  | _ => field_written Hl written
  end.

(** *** Contact fields, slices and hashes *)

(** The contact fields that survive the round trip through JSON: the
    two numbers are [uint64]s, and the choices are not an empty map that
    is not nil. *)
Definition ContactField_valid (f : ContactField) : Prop :=
  0 <= ContactField.ID f < 2 ^ 64 /\
  0 <= ContactField.Position f < 2 ^ 64 /\
  nil_or_entries (ContactField.Choices f) = true.

(** A transport whose server answers with the body it was sent. *)
Definition echoing (status : Z) : Request -> exchange :=
  fun req =>
    {| outcome_of :=
         inr (mkResponse status (bytes_NewReader (unread (Body req))));
       request_body_after := (io_ReadAll (Body req)).2 |}.

(** A slice of [*Contact] whose contacts are valid; a slice of
    [*ContactField] whose fields are. *)
Definition Contacts_valid `{Platform} (l : list (option Contact)) : Prop :=
  Forall (fun x => from_option Contact_valid True x) l.

Definition ContactFields_valid (l : list (option ContactField)) : Prop :=
  Forall (fun x => from_option ContactField_valid True x) l.

(** The digits of [hex.EncodeToString]. *)
Definition is_hex_lower (c : ascii) : bool :=
  is_digit c || in_range 97 102 c.

(** A contact field with choices, and the document of a slice that
    holds it and a nil pointer. *)
Definition field_language : ContactField :=
  ContactField.mk true 7 "Language" "language" 3 true "default_language"
    true "Language" false true false
    (Some {[ "English" := "en"; "French" := "fr" ]}).

Definition field_documents : json :=
  default JNull (enc_list (enc_ptr enc_ContactField)
                   [Some field_language; None]).

(** The request that [Create] builds for the zero contact, and the
    document in its body. *)
Definition zero_document : json :=
  JObject [("active", JBool false); ("view_all_tickets", JBool false);
           ("name", JString "")].

Definition create_zero_request : Request :=
  {| Method := "POST";
     URL := "https://example.freshdesk.com/api/v2/contacts";
     Header := Header_Add "Content-Type" "application/json"
                 (Header_Set "Authorization" "Basic a2V5Olg=" ∅);
     Body := bytes_NewReader (json_print zero_document) |}.

(** A value that the decoder stored, and a value that is not a number
    and not nil. *)
Definition decoded (v : dyn) : Prop := exists j, v = dyn_of_json j.

Definition not_a_number (v : dyn) : bool :=
  match v with
  | DBool _ | DString _ | DSlice _ | DMap _ => true
  | _ => false
  end.

(** The document written for [contact_ann]. *)
Definition ann_document : json :=
  default JNull (enc_Contact contact_ann).

(** One member of a struct other than [Contact]; [unf] unfolds its
    [store] function. *)
Ltac member_written unf Hl written :=
  match type of Hl with
  | (?d ≫= _) = _ => destruct d as [j|] eqn:Hdoc; [|discriminate Hl]
  end;
  injection Hl as <-;
  cbn [decode_members]; unf; reduce_keys;
  written; reflexivity.

Ltac member_step unf Hl dropped written :=
  unfold field in Hl;
  lazymatch type of Hl with
  | (if ?o then _ else _) = _ =>
      destruct o eqn:Homit;
      [ injection Hl as <-; cbn [decode_members]; dropped
      | member_written unf Hl written ]
  | _ => member_written unf Hl written
  end.

(* ================================================================== *)
(** ** Theorems: the duplicate-contact signal *)

Lemma IsDuplicate_range_skip `{Platform} fe errs :
  is_email_duplicate fe = false ->
  IsDuplicate_range (fe :: errs) = IsDuplicate_range errs.
Proof.
  unfold is_email_duplicate. intros Hfe. simpl. now rewrite Hfe.
Qed.

Lemma IsDuplicate_range_hit `{Platform} fe errs :
  is_email_duplicate fe = true ->
  IsDuplicate_range (fe :: errs) =
    match AdditionalInfo fe !! "user_id" with
    | None | Some DNil => Returned (false, 0)
    | Some (DFloat64 f) => Returned (true, uint64_of_float64 f)
    | Some _ => Panicked
    end.
Proof.
  unfold is_email_duplicate. intros Hfe. simpl. now rewrite Hfe.
Qed.

(** [IsDuplicate] is decided by the first duplicate e-mail entry alone. *)
Lemma IsDuplicate_first `{Platform} (e : APIError) :
  IsDuplicate e =
    match first_duplicate (Errors e) with
    | None => Returned (false, 0)
    | Some fe =>
        match AdditionalInfo fe !! "user_id" with
        | None | Some DNil => Returned (false, 0)
        | Some (DFloat64 f) => Returned (true, uint64_of_float64 f)
        | Some _ => Panicked
        end
    end.
Proof.
  unfold IsDuplicate, first_duplicate.
  induction (Errors e) as [|fe errs IH]; [reflexivity|].
  cbn [find]. destruct (is_email_duplicate fe) eqn:Hfe.
  - now apply IsDuplicate_range_hit.
  - rewrite IsDuplicate_range_skip by assumption. exact IH.
Qed.

Lemma uint64_of_integer `{Platform} (f : float64) (n : Z) :
  float64_is_integer f n -> 0 <= n < 2 ^ 64 -> uint64_of_float64 f = n.
Proof.
  intros Hf Hn. unfold uint64_of_float64.
  assert (float64_trunc f = Some n) as ->.
  { destruct f as [s|s| |s m e]; simpl in *; try contradiction.
    - now subst.
    - destruct (0 <=? e).
      + subst. f_equal. destruct s; lia.
      + destruct Hf as [_ ->]. f_equal. destruct s; lia. }
  destruct (0 <=? n) eqn:H0; destruct (n <? 2 ^ 64) eqn:H1; simpl; lia.
Qed.

(** C3, as amended: [IsDuplicate] returns [(true, id)] exactly when the
    first field error with field [email] and code [duplicate_value] has
    a [user_id] that is a number, [id] being that number converted to
    [uint64]; it returns [(false, 0)] exactly when there is no such
    field error, or the first one has no [user_id], or a null one. *)
Theorem IsDuplicate_first_match `{Platform} (e : APIError) :
  (forall id,
      IsDuplicate e = Returned (true, id) <->
      exists fe f,
        first_duplicate (Errors e) = Some fe /\
        AdditionalInfo fe !! "user_id" = Some (DFloat64 f) /\
        id = uint64_of_float64 f) /\
  (IsDuplicate e = Returned (false, 0) <->
   first_duplicate (Errors e) = None \/
   exists fe,
     first_duplicate (Errors e) = Some fe /\
     (AdditionalInfo fe !! "user_id" = None \/
      AdditionalInfo fe !! "user_id" = Some DNil)).
Proof.
  rewrite IsDuplicate_first.
  destruct (first_duplicate (Errors e)) as [fe|];
    [destruct (AdditionalInfo fe !! "user_id") as [[ |b|f|s|l|m|n]|] eqn:Hu|];
    (split; [intros id|]; split; intros Hr);
    try discriminate Hr;
    try (injection Hr as <-);
    try (destruct Hr as (fe' & f' & Hfe' & Hf' & ->));
    try (destruct Hr as [Hr | (fe' & Hfe' & [Hf'|Hf'])]);
    try congruence; eauto 8.
Qed.

(** C3, as stated, fails: an entry without [user_id] hides a later one
    that has it. *)
Lemma IsDuplicate_misses_later_entry :
  duplicate_signal shadowed_duplicate /\
  @IsDuplicate example_platform shadowed_duplicate = Returned (false, 0).
Proof.
  split; [|reflexivity].
  exists (field_error "email" "duplicate_value"
            (user_id (DFloat64 (float64_of_Z 7)))).
  split; [right; left; reflexivity|].
  split; [reflexivity|].
  exists (DFloat64 (float64_of_Z 7)). split; [reflexivity|discriminate].
Qed.

(** The example of section 8: a [user_id] of 12345 is found. *)
Example IsDuplicate_12345 :
  @IsDuplicate example_platform
    (api_error [field_error "email" "duplicate_value"
                  (user_id (DFloat64 (float64_of_Z 12345)))])
  = Returned (true, 12345).
Proof. reflexivity. Qed.

(** C9: the first field error with field [email] and code
    [duplicate_value] decides.  When its [user_id] is absent or null the
    result is [(false, 0)], whatever follows it; entries before it with
    another field or code are skipped. *)
Theorem IsDuplicate_short_circuit `{Platform} (e : APIError)
    (before after : list FieldError) (fe : FieldError) :
  Errors e = app before (fe :: after) ->
  forallb (fun x => negb (is_email_duplicate x)) before = true ->
  is_email_duplicate fe = true ->
  AdditionalInfo fe !! "user_id" = None \/
  AdditionalInfo fe !! "user_id" = Some DNil ->
  IsDuplicate e = Returned (false, 0).
Proof.
  intros He Hbefore Hfe Hu. unfold IsDuplicate. rewrite He. clear He.
  induction before as [|x before IH].
  - simpl app. rewrite IsDuplicate_range_hit by assumption.
    destruct Hu as [-> | ->]; reflexivity.
  - simpl in Hbefore. apply andb_prop in Hbefore as [Hx Hrest].
    simpl app. rewrite IsDuplicate_range_skip.
    + now apply IH.
    + now destruct (is_email_duplicate x).
Qed.

Lemma IsDuplicate_short_circuit_witness :
  @IsDuplicate example_platform
    (api_error [ field_error "phone" "duplicate_value" ∅;
                 field_error "email" "duplicate_value" (user_id DNil);
                 field_error "email" "duplicate_value"
                   (user_id (DFloat64 (float64_of_Z 7))) ])
  = Returned (false, 0).
Proof.
  apply (@IsDuplicate_short_circuit example_platform _
           [field_error "phone" "duplicate_value" ∅]
           [field_error "email" "duplicate_value"
              (user_id (DFloat64 (float64_of_Z 7)))]
           (field_error "email" "duplicate_value" (user_id DNil)));
    first [reflexivity | right; reflexivity].
Defined.

(** C10: the type assertion to [float64] is unchecked.  [IsDuplicate]
    panics exactly when the first field error with field [email] and
    code [duplicate_value] has a [user_id] that is present, not null and
    not a number. *)
Theorem IsDuplicate_panics `{Platform} (e : APIError) :
  IsDuplicate e = Panicked <->
  exists fe v,
    first_duplicate (Errors e) = Some fe /\
    AdditionalInfo fe !! "user_id" = Some v /\
    v <> DNil /\
    forall f, v <> DFloat64 f.
Proof.
  rewrite IsDuplicate_first.
  destruct (first_duplicate (Errors e)) as [fe|].
  - destruct (AdditionalInfo fe !! "user_id") as [v|] eqn:Hu.
    + split.
      * intros Hp. exists fe, v.
        destruct v; try discriminate Hp; repeat split; congruence.
      * intros (fe' & v' & [= <-] & Hv & Hnil & Hnum).
        rewrite Hu in Hv. injection Hv as <-.
        destruct v; try reflexivity; [congruence | now destruct (Hnum f)].
    + split; [discriminate|]. intros (fe' & v' & [= <-] & Hv & _).
      congruence.
  - split; [discriminate|]. intros (fe' & v' & Hfe & _). discriminate.
Qed.

(** A [user_id] that is a string, or an [int] put there by hand, makes
    [IsDuplicate] panic. *)
Example IsDuplicate_int_user_id :
  @IsDuplicate example_platform
    (api_error [field_error "email" "duplicate_value" (user_id (DInt 12345))])
  = Panicked.
Proof. reflexivity. Qed.

Example IsDuplicate_string_user_id :
  @IsDuplicate example_platform
    (api_error [field_error "email" "duplicate_value"
                  (user_id (DString "12345"))])
  = Panicked.
Proof. reflexivity. Qed.

(* ================================================================== *)
(** ** Theorems: the transport core *)

(** C7: when the transport fails, [do] returns the transport's error
    as it is; no response exists and the target is untouched. *)
Theorem do_transport_failure {T} `{Unmarshal T} (c : client) (req : Request)
    (out : option T) (expectedStatus : Z) (err : error) :
  outcome_of (httpClient c req) = inl err ->
  returned (do c req out expectedStatus) = Some err /\
  out_after (do c req out expectedStatus) = out /\
  response_after (do c req out expectedStatus) = None.
Proof.
  intros Hx. unfold do. rewrite Hx. auto.
Qed.

Lemma do_transport_failure_witness :
  returned (do (example_client (failing (Error_http "connection refused")))
              restore_request no_out StatusOK)
    = Some (Error_http "connection refused") /\
  out_after (do (example_client (failing (Error_http "connection refused")))
               restore_request no_out StatusOK) = no_out /\
  response_after (do (example_client (failing (Error_http "connection refused")))
                    restore_request no_out StatusOK) = None.
Proof.
  apply (do_transport_failure
           (example_client (failing (Error_http "connection refused")))
           restore_request no_out StatusOK (Error_http "connection refused")).
  reflexivity.
Defined.

(** The decoder never returns an [*APIError]. *)
Lemma Decode_error_plain {T} `{Unmarshal T} (body : Reader) (o : T)
    (err : error) :
  (Decode body o).1.2 = Some err -> forall e, err <> Error_API e.
Proof.
  unfold Decode. intros Hd e ->.
  destruct (json_first_value (unread body)) as [[j rest]|].
  - destruct (broken body && negb (is_container j) && String.eqb rest "");
      [discriminate|].
    destruct (from_json j o) as [v [ | | ]]; discriminate.
  - simpl in Hd.
    destruct (broken body); [discriminate|].
    destruct (String.eqb (skip_space (unread body)) ""); discriminate.
Qed.

(** C4: when the status is the expected one, [do] returns no
    [*APIError], whatever the body holds.  Without a target it returns
    nil and leaves the body unread; with a target, a failure of the
    decoder is returned as it is. *)
Theorem do_status_match {T} `{Unmarshal T} (c : client) (req : Request)
    (out : option T) (expectedStatus : Z) (raw : Response) :
  outcome_of (httpClient c req) = inr raw ->
  Response_StatusCode raw = expectedStatus ->
  (forall e, returned (do c req out expectedStatus) <> Some (Error_API e)) /\
  (out = None ->
   returned (do c req out expectedStatus) = None /\
   out_after (do c req out expectedStatus) = None /\
   response_after (do c req out expectedStatus) = Some (close_Response raw)) /\
  (forall o err,
      out = Some o ->
      (Decode (Response_Body raw) o).1.2 = Some err ->
      returned (do c req out expectedStatus) = Some err).
Proof.
  intros Hx Hs. unfold do. rewrite Hx, Hs, Z.eqb_refl. cbn [negb].
  destruct out as [o|].
  - destruct (Decode (Response_Body raw) o) as [[o' err] body'] eqn:Hd.
    split; [|split].
    + intros e. destruct err as [e'|]; [|discriminate].
      intros [= ->].
      eapply (Decode_error_plain (Response_Body raw) o); [|reflexivity].
      now rewrite Hd.
    + discriminate.
    + intros o1 err1 [= <-]. rewrite Hd. cbn. now intros ->.
  - split; [discriminate|]. split; [auto|]. discriminate.
Qed.

Lemma do_status_match_witness :
  (forall e,
      returned (do (example_client (answering 200 "not json"))
                  restore_request no_out StatusOK) <> Some (Error_API e)) /\
  (no_out = None ->
   returned (do (example_client (answering 200 "not json"))
               restore_request no_out StatusOK) = None /\
   out_after (do (example_client (answering 200 "not json"))
                restore_request no_out StatusOK) = None /\
   response_after (do (example_client (answering 200 "not json"))
                     restore_request no_out StatusOK)
     = Some (close_Response (mkResponse 200 (bytes_NewReader "not json")))) /\
  (forall o err,
      no_out = Some o ->
      (Decode (Response_Body (mkResponse 200 (bytes_NewReader "not json"))) o).1.2
        = Some err ->
      returned (do (example_client (answering 200 "not json"))
                  restore_request no_out StatusOK) = Some err).
Proof.
  apply (do_status_match (example_client (answering 200 "not json"))
           restore_request no_out StatusOK
           (mkResponse 200 (bytes_NewReader "not json")));
    reflexivity.
Defined.

(** A body-less operation with the expected status: nil. *)
Example Restore_ok :
  @Restore example_platform (example_client (answering 200 "")) 7 = None.
Proof. reflexivity. Qed.

(** A body that does not decode, with the expected status: a plain
    error of the decoder. *)
Example View_not_json :
  (@View example_platform (example_client (answering 200 "not json")) 7).2
  = Some (Error_json SyntaxError).
Proof. reflexivity. Qed.

(** C6: without a body the request carries no bytes at all; a body that
    cannot be encoded gives an error and no request; every request that
    is built carries the content type and the Basic credentials made of
    the API key and [X]. *)
Theorem newRequest_contract `{Platform} {T} `{Marshal T} (c : client)
    (method endpoint : string) (body : option T) :
  (forall req,
      body = None ->
      newRequest c method endpoint body = Ok req ->
      Body req = bytes_NewReader "" /\
      unread (Body req) <> "null" /\ unread (Body req) <> "{}") /\
  (forall v,
      body = Some v ->
      json_Marshal v = None ->
      newRequest c method endpoint body = Fail (Error_json MarshalFailure)) /\
  (forall req,
      newRequest c method endpoint body = Ok req ->
      Header req !! "Content-Type" = Some ["application/json"] /\
      Header req !! "Authorization"
        = Some ["Basic " ++ basicAuth (apiKey c) "X"]).
Proof.
  unfold newRequest. split; [|split].
  - intros req -> Hr.
    destruct (http_NewRequest method (baseURL c ++ endpoint)
                (bytes_NewReader "")) as [raw|err] eqn:Hn; [|discriminate].
    injection Hr as <-. unfold http_NewRequest in Hn.
    repeat match type of Hn with
           | (if ?b then _ else _) = _ => destruct b; [discriminate|]
           end.
    injection Hn as <-. cbn. repeat split; discriminate.
  - intros v -> Hm. now rewrite Hm.
  - intros req Hr.
    destruct (match body with
              | Some v =>
                  match json_Marshal v with
                  | Some b => Ok b
                  | None => Fail (Error_json MarshalFailure)
                  end
              | None => Ok ""
              end) as [b|err]; [|discriminate].
    destruct (http_NewRequest method (baseURL c ++ endpoint)
                (bytes_NewReader b)) as [raw|err] eqn:Hn; [|discriminate].
    injection Hr as <-. unfold http_NewRequest in Hn.
    repeat match type of Hn with
           | (if ?b then _ else _) = _ => destruct b; [discriminate|]
           end.
    injection Hn as <-. cbn. unfold Header_Add, Header_Set.
    split.
    + rewrite lookup_insert_eq.
      rewrite lookup_insert_ne by discriminate.
      now rewrite lookup_empty.
    + rewrite lookup_insert_ne by discriminate.
      now rewrite lookup_insert_eq.
Qed.

(** The request of [Restore]: built, and with an empty body. *)
Example newRequest_restore :
  @newRequest example_platform _ _ (example_client reporting) "PUT"
    (contacts_path 7 "/restore") no_body = Ok restore_request.
Proof. reflexivity. Qed.

(** A channel cannot be encoded: no request. *)
Example newRequest_channel :
  @newRequest example_platform _ _ (example_client reporting) "POST"
    "contacts" (Some mkchan) = Fail (Error_json MarshalFailure).
Proof. reflexivity. Qed.

(* ================================================================== *)
(** ** Theorems: the structured error *)

(** On a status other than the expected one, [do] returns the
    [*APIError] that [NewApiError] builds from the observed status, from
    what is left to read of the request body once the transport is done
    with it, and from the response body; the target is untouched. *)
Lemma do_status_mismatch {T} `{Unmarshal T} (c : client) (req : Request)
    (out : option T) (expectedStatus : Z) (raw : Response) :
  outcome_of (httpClient c req) = inr raw ->
  Response_StatusCode raw <> expectedStatus ->
  returned (do c req out expectedStatus)
    = Some (Error_API
              (NewApiError (Response_StatusCode raw) expectedStatus
                 (Payload (request_body_after (httpClient c req))).1
                 (Payload (Response_Body raw)).1)) /\
  out_after (do c req out expectedStatus) = out.
Proof.
  intros Hx Hs. unfold do. rewrite Hx.
  apply Z.eqb_neq in Hs. rewrite Hs. cbn [negb].
  unfold Request_Payload, Response_Payload, with_Body. cbn [Body].
  destruct (Payload (request_body_after (httpClient c req))) as [p1 b1].
  destruct (Payload (Response_Body raw)) as [p2 b2]. auto.
Qed.

(** [Payload] is the compacted body when the body is valid JSON and the
    empty string when it is not. *)
Lemma Payload_compact (body : Reader) :
  broken body = false ->
  (Payload body).1 =
    if json_Valid (unread body) then strip_space false false (unread body)
    else "".
Proof.
  intros Hb. unfold Payload, io_ReadAll, json_Compact. rewrite Hb. cbn.
  now destruct (json_Valid (unread body)).
Qed.

(** A response body that is not valid JSON leaves the base error as
    [NewApiError] built it. *)
Lemma NewApiError_not_json (statusCode expectedStatus : Z) (req res : string) :
  json_Valid res = false ->
  NewApiError statusCode expectedStatus req res
    = base_APIError statusCode expectedStatus req res.
Proof.
  unfold NewApiError, Unmarshal_APIError, json_Valid.
  now destruct (json_parse res).
Qed.

Lemma store_APIError_base (a : APIError) (k : string) (v : json) :
  reaches_base k = false ->
  base_state (store_APIError a k v).1 = base_state a.
Proof.
  unfold reaches_base, store_APIError. intros Hk.
  apply orb_false_elim in Hk as [Hk Hsc].
  apply orb_false_elim in Hk as [Hk Hres].
  apply orb_false_elim in Hk as [Herr Hreq].
  rewrite Herr, Hreq, Hres, Hsc.
  destruct (key_is "description" k);
    [now destruct (decode_string (Description a) v)|].
  destruct (key_is "errors" k);
    [now destruct (decode_Errors (Errors a) v)|].
  reflexivity.
Qed.

Lemma decode_members_APIError_base (ms : list (string * json)) :
  forall a,
    forallb (fun kv => negb (reaches_base kv.1)) ms = true ->
    base_state (decode_members store_APIError ms a).1 = base_state a.
Proof.
  induction ms as [|[k v] ms IH]; intros a Hms; [reflexivity|].
  cbn in Hms. apply andb_prop in Hms as [Hk Hms].
  apply negb_true_iff in Hk.
  pose proof (store_APIError_base a k v Hk) as Hs.
  cbn [decode_members].
  destruct (store_APIError a k v) as [a1 e1]. cbn in Hs.
  specialize (IH a1 Hms).
  destruct (decode_members store_APIError ms a1) as [a2 e2]. cbn in IH.
  destruct e1; cbn; congruence.
Qed.

(** Away from the four untagged fields the error keeps the message,
    the payloads and the status code it was built with. *)
Lemma NewApiError_base_kept (statusCode expectedStatus : Z)
    (req res : string) :
  (forall ms, json_parse res = Some (JObject ms) ->
              forallb (fun kv => negb (reaches_base kv.1)) ms = true) ->
  base_state (NewApiError statusCode expectedStatus req res)
  = (Some (status_message statusCode expectedStatus), req, res, statusCode).
Proof.
  intros Hkeys. unfold NewApiError, Unmarshal_APIError.
  destruct (json_parse res) as [[ | | | | |ms]|]; try reflexivity.
  specialize (Hkeys ms eq_refl).
  pose proof (decode_members_APIError_base ms
                (base_APIError statusCode expectedStatus req res) Hkeys) as Hb.
  destruct (decode_members store_APIError ms _) as [i' st]. exact Hb.
Qed.

(** C1 fails on the code.  The response body is unmarshalled onto the
    whole [APIError], whose fields [StatusCode], [ReqBody], [ResBody]
    and [Err] are exported and untagged: a response with status 400 and
    body [{"StatusCode":200}] yields an error whose [StatusCode] is 200,
    whatever the request was. *)
Theorem do_status_code_overwritten (req : Request) :
  exists e,
    returned (do (example_client (answering 400 (js "{'StatusCode':200}")))
                req no_out StatusOK) = Some (Error_API e) /\
    StatusCode e = 200 /\
    ResBody e = js "{'StatusCode':200}".
Proof.
  destruct (do_status_mismatch
              (example_client (answering 400 (js "{'StatusCode':200}")))
              req no_out StatusOK
              (mkResponse 400 (bytes_NewReader (js "{'StatusCode':200}"))))
    as [Hr _]; [reflexivity | discriminate |].
  rewrite Hr. eexists. split; [reflexivity|]. split; reflexivity.
Qed.

(** The same through [Restore]. *)
Example Restore_status_code_overwritten :
  @Restore example_platform
    (example_client (answering 400 (js "{'StatusCode':200}"))) 7
  = Some (Error_API
            {| Err := Some "received status code 400 (200 expected)";
               ReqBody := "";
               ResBody := js "{'StatusCode':200}";
               Description := "";
               Errors := [];
               StatusCode := 200 |}).
Proof. reflexivity. Qed.

(** The request payload is read after the transport has sent, that is
    read, the body: it is empty although the body was valid JSON. *)
Example Create_request_payload_lost :
  exists e,
    (@Create example_platform
       (example_client (answering 400 (js "{'description':'Validation failed'}")))
       (Some Contact.zero)).2 = Some (Error_API e) /\
    ReqBody e = "" /\
    @json_Marshal _ (@Marshal_Contact example_platform) (Some Contact.zero)
      = Some (js "{'active':false,'view_all_tickets':false,'name':''}").
Proof. eexists. repeat split. Qed.

(** The scenario of section 8: a create answered by 400 with a
    duplicate e-mail error. *)
Definition duplicate_response : string :=
  js "{'description':'Validation failed','errors':[{'field':'email','code':'duplicate_value','message':'already taken','additional_info':{'user_id':42}}]}".

Example Create_duplicate :
  exists e,
    (@Create example_platform
       (example_client (answering 400 duplicate_response))
       (Some Contact.zero)).2 = Some (Error_API e) /\
    @IsDuplicate example_platform e = Returned (true, 42) /\
    Error e = Returned ("received status code 400 (201 expected) - "
                        ++ duplicate_response) /\
    Description e = "Validation failed" /\
    StatusCode e = 400.
Proof. eexists. repeat split. Qed.

(** [NewApiError] populates [Description] from a body that carries it. *)
Example NewApiError_description :
  Description (NewApiError 400 201 "" (js "{'description':'Validation failed'}"))
  = "Validation failed".
Proof. reflexivity. Qed.

(** C5 fails on the code, by the same defect as C1.  The unmarshalling
    of [{"description":5,"StatusCode":200}] fails with a type error on
    [description], and the error that [NewApiError] returns has lost the
    status code it was built with. *)
Theorem NewApiError_base_state_lost :
  (Unmarshal_APIError (js "{'description':5,'StatusCode':200}")
     (base_APIError 400 201 "" (js "{'description':5,'StatusCode':200}"))).2
    = Some UnmarshalTypeError /\
  StatusCode (NewApiError 400 201 "" (js "{'description':5,'StatusCode':200}"))
    = 200 /\
  StatusCode (base_APIError 400 201 "" (js "{'description':5,'StatusCode':200}"))
    = 400.
Proof. repeat split. Qed.

(** A body with a null [Err] takes the message away: [Error] panics. *)
Example NewApiError_message_lost :
  Error (NewApiError 400 201 "" (js "{'Err':null}")) = Panicked.
Proof. reflexivity. Qed.

(* ================================================================== *)
(** ** Theorems: the contacts client *)

Lemma append_assoc (a b c : string) : (a ++ b) ++ c = a ++ (b ++ c).
Proof.
  induction a as [|x a IH]; [reflexivity|].
  change (String x ((a ++ b) ++ c) = String x (a ++ (b ++ c))).
  now rewrite IH.
Qed.

(** [HardDelete] marshals its parameters, then hands the bytes to
    [newRequest], which marshals them again: the body on the wire is a
    JSON string holding the base64 text of the object. *)
Lemma HardDelete_body `{Platform} (c : client) (id : Z) (force : bool) :
  url_Parse_ok (baseURL c ++ contacts_path id "/hard_delete") = true ->
  exists req,
    newRequest c "DELETE" (contacts_path id "/hard_delete")
      (Some (Bytes (Some (hard_delete_object id force)))) = Ok req /\
    HardDelete c id force = returned (do c req no_out StatusOK) /\
    unread (Body req) = quote (base64 (hard_delete_object id force)) /\
    unread (Body req) <> hard_delete_object id force.
Proof.
  intros Hurl.
  assert (json_print <$> enc_HardDelete_params id force
          = Some (hard_delete_object id force)) as Henc.
  { unfold hard_delete_object. cbn.
    rewrite !append_assoc. now destruct force. }
  unfold HardDelete. rewrite Henc.
  unfold newRequest, json_Marshal, http_NewRequest. cbn. rewrite Hurl. cbn.
  eexists. split; [reflexivity|]. split; [reflexivity|].
  split; [reflexivity|]. discriminate.
Qed.

(** C2 fails on the code.  The transport of this client reports the
    bytes it is given to send: for [HardDelete(1, true)] and for
    [Merge(1, [2, 3], nil)] they are a base64 string, not the object. *)
Theorem HardDelete_and_Merge_send_base64 :
  @HardDelete example_platform (example_client reporting) 1 true
    = Some (Error_http (js "'eyJpZCI6MSwiZm9yY2UiOnRydWV9'")) /\
  base64 (hard_delete_object 1 true) = "eyJpZCI6MSwiZm9yY2UiOnRydWV9" /\
  @Merge example_platform (example_client reporting) 1 (Some [2; 3]) None
    = Some (Error_http
              (js "'eyJwcmltYXJ5X2NvbnRhY3RfaWQiOjEsInNlY29uZGFyeV9jb250YWN0X2lkcyI6WzIsM119'")) /\
  base64 (js "{'primary_contact_id':1,'secondary_contact_ids':[2,3]}")
    = "eyJwcmltYXJ5X2NvbnRhY3RfaWQiOjEsInNlY29uZGFyeV9jb250YWN0X2lkcyI6WzIsM119".
Proof. repeat split. Qed.

(** [Create] passes the struct itself to [newRequest]: the object goes
    on the wire. *)
Example Create_sends_object :
  (@Create example_platform (example_client reporting) (Some Contact.zero)).2
  = Some (Error_http (js "{'active':false,'view_all_tickets':false,'name':''}")).
Proof. reflexivity. Qed.

(* ================================================================== *)
(** ** Theorems: the round trip of a contact through JSON *)

(** *** Decimal numerals *)

Lemma digit_char_digit (d : Z) :
  0 <= d < 10 ->
  is_digit (digit_char d) = true /\ code (digit_char d) - 48 = d.
Proof.
  intros Hd.
  assert (d = 0 \/ d = 1 \/ d = 2 \/ d = 3 \/ d = 4 \/ d = 5 \/ d = 6 \/
          d = 7 \/ d = 8 \/ d = 9) as Hc by lia.
  repeat (destruct Hc as [-> | Hc]; [now vm_compute|]). subst. now vm_compute.
Qed.

Lemma pos_digits_value (fuel : nat) :
  forall n acc,
    0 <= n < 10 ^ Z.of_nat fuel ->
    exists k, 0 <= k /\
      forall a, digits_value (pos_digits fuel n acc) a
                = digits_value acc (a * 10 ^ k + n).
Proof.
  induction fuel as [|fuel IH]; intros n acc Hn.
  - exists 0. split; [lia|]. intros a. cbn [pos_digits].
    f_equal. change (10 ^ Z.of_nat 0) with 1 in Hn. lia.
  - cbn [pos_digits].
    assert (0 <= n mod 10 < 10) as Hm by (apply Z.mod_pos_bound; lia).
    destruct (digit_char_digit _ Hm) as [Hd Hv].
    destruct (n <? 10) eqn:Hlt.
    + apply Z.ltb_lt in Hlt. exists 1. split; [lia|]. intros a.
      cbn [digits_value]. rewrite Hd, Hv.
      rewrite Z.mod_small by lia. f_equal. lia.
    + apply Z.ltb_ge in Hlt.
      destruct (IH (n / 10) (String (digit_char (n mod 10)) acc))
        as (k & Hk & Hdig).
      { split; [apply Z.div_pos; lia|].
        apply Z.div_lt_upper_bound; [lia|].
        rewrite Nat2Z.inj_succ, Z.pow_succ_r in Hn by lia. lia. }
      exists (k + 1). split; [lia|]. intros a. rewrite Hdig.
      cbn [digits_value]. rewrite Hd, Hv. f_equal.
      rewrite Z.pow_add_r by lia. pose proof (Z.div_mod n 10). lia.
Qed.

Lemma pos_digits_nonempty (fuel : nat) :
  forall n acc, pos_digits (S fuel) n acc <> "".
Proof.
  induction fuel as [|fuel IH]; intros n acc.
  - cbn. now destruct (n <? 10).
  - cbn [pos_digits]. destruct (n <? 10); [discriminate|]. apply IH.
Qed.

Lemma parse_digits_decimal (n : Z) :
  0 <= n -> parse_digits (nat_decimal n) = Some n.
Proof.
  intros Hn. unfold nat_decimal.
  pose proof (pos_digits_nonempty (Z.to_nat (Z.log2 n)) n "") as Hne.
  destruct (pos_digits_value (S (Z.to_nat (Z.log2 n))) n "") as (k & _ & Hk).
  { split; [assumption|].
    rewrite Nat2Z.inj_succ, Z2Nat.id by apply Z.log2_nonneg.
    destruct (Z.eq_dec n 0) as [->|Hz]; [reflexivity|].
    pose proof (Z.log2_spec n ltac:(lia)) as [_ Hu].
    eapply Z.lt_le_trans; [exact Hu|].
    apply Z.pow_le_mono_l. pose proof (Z.log2_nonneg n). lia. }
  unfold parse_digits.
  destruct (pos_digits (S (Z.to_nat (Z.log2 n))) n "") eqn:Hp;
    [contradiction|].
  cbv beta iota. rewrite Hk. cbn. reflexivity.
Qed.

Lemma ParseUint64_itoa (n : Z) :
  0 <= n < 2 ^ 64 -> ParseUint64 (itoa n) = Some n.
Proof.
  intros [Hn Hu]. unfold ParseUint64, itoa.
  destruct (n <? 0) eqn:Hneg; [lia|].
  rewrite parse_digits_decimal by assumption.
  destruct (n <? 2 ^ 64) eqn:Hlt; [reflexivity|lia].
Qed.

(** *** Structs, slices and maps *)

Lemma decode_members_app {A} (store : A -> string -> json -> A * status)
    (l1 l2 : list (string * json)) (a a1 : A) :
  decode_members store l1 a = (a1, Clean) ->
  decode_members store (app l1 l2) a = decode_members store l2 a1.
Proof.
  revert a. induction l1 as [|[k v] l1 IH]; intros a Hd.
  - cbn in Hd. now injection Hd as <-.
  - cbn in Hd |- *. destruct (store a k v) as [a' e1].
    destruct e1.
    + destruct (decode_members store l1 a') as [a2 e2] eqn:H1.
      destruct e2; try discriminate Hd. injection Hd as <-.
      rewrite (IH a' H1).
      now destruct (decode_members store l2 a2) as [a3 []].
    + destruct (decode_members store l1 a') as [a2 e2].
      cbn in Hd. destruct e2; discriminate.
    + discriminate.
Qed.

Lemma decode_elements_fresh {A} (zero : A) (dec : A -> json -> A * status)
    (l : list A) (js : list json) :
  Forall2 (fun x j => dec zero j = (x, Clean)) l js ->
  decode_elements zero dec [] js = (l, Clean).
Proof.
  induction 1 as [|x j l js Hx _ IH]; [reflexivity|].
  cbn. rewrite Hx. cbn in IH. now rewrite IH.
Qed.

Lemma decode_entries_clean {T} (zero : T) (dec : T -> json -> T * status)
    (es : list (string * json)) :
  Forall (fun kj => (dec zero kj.2).2 = Clean) es ->
  NoDup es.*1 ->
  forall m0,
    decode_entries zero dec es m0
    = (list_to_map ((fun kj => (kj.1, (dec zero kj.2).1)) <$> es) ∪ m0, Clean).
Proof.
  induction 1 as [|[k j] es Hj _ IH]; intros Hnd m0.
  - cbn. now rewrite (left_id_L ∅ (∪)).
  - rewrite fmap_cons, NoDup_cons in Hnd. destruct Hnd as [Hk Hnd].
    cbn [decode_entries]. cbn [fst snd] in Hj, Hk.
    rewrite fmap_cons, list_to_map_cons. cbn [fst snd].
    destruct (dec zero j) as [x e] eqn:Hd. cbn [fst snd] in Hj |- *. subst e.
    rewrite (IH Hnd). cbn [and_then]. f_equal.
    rewrite <- insert_union_l. symmetry. apply insert_union_r.
    apply not_elem_of_list_to_map_1.
    rewrite <- list_fmap_compose. exact Hk.
Qed.

(** A map that was encoded comes back, when each of its values does. *)
Lemma enc_map_decode {T} (enc : T -> option json) (zero : T)
    (dec : T -> json -> T * status) (m : gmap string T) (j : json) :
  (forall k v jv, m !! k = Some v -> enc v = Some jv ->
                  dec zero jv = (v, Clean)) ->
  enc_map enc m = Some j ->
  decode_map zero dec None j = (Some m, Clean).
Proof.
  intros Hrt Henc. unfold enc_map in Henc.
  destruct (mapM enc_entry (sorted_entries (enc <$> m))) as [es|] eqn:Hes;
    [|discriminate].
  injection Henc as <-.
  assert ((fun kj : string * json => (kj.1, Some kj.2)) <$> es
          = sorted_entries (enc <$> m)) as Hg.
  { eapply mapM_fmap_Some_inv; [exact Hes|].
    intros [k o] [k' j']. unfold enc_entry. cbn.
    destruct o; cbn; [|discriminate]. now intros [= <- <-]. }
  assert (forall k jv, (k, jv) ∈ es <->
                       exists v, m !! k = Some v /\ enc v = Some jv) as Hin.
  { intros k jv.
    assert ((k, jv) ∈ es <-> (k, Some jv) ∈ sorted_entries (enc <$> m)) as ->.
    { rewrite <- Hg, list_elem_of_fmap. split.
      - intros Hkj. now exists (k, jv).
      - intros ([k' j'] & [= <- <-] & Hkj). exact Hkj. }
    unfold sorted_entries. rewrite merge_sort_Permutation.
    rewrite elem_of_map_to_list, lookup_fmap.
    destruct (m !! k) as [v|]; cbn.
    - split; [intros [= <-]; eauto|]. now intros (v' & [= <-] & ->).
    - split; [discriminate|]. now intros (v' & ? & _). }
  assert (NoDup es.*1) as Hnd.
  { replace (es.*1) with ((sorted_entries (enc <$> m)).*1).
    - unfold sorted_entries. rewrite merge_sort_Permutation.
      apply NoDup_fst_map_to_list.
    - rewrite <- Hg, <- list_fmap_compose. reflexivity. }
  cbn. rewrite decode_entries_clean; [|..].
  - rewrite (right_id_L ∅ (∪)). f_equal. f_equal.
    apply map_eq. intros k. apply option_eq. intros x.
    rewrite <- elem_of_list_to_map
      by (rewrite <- list_fmap_compose; exact Hnd).
    rewrite list_elem_of_fmap. split.
    + intros ([k' jv] & [= -> ->] & Hkj). cbn.
      apply Hin in Hkj as (v & Hv & Hjv). cbn.
      now rewrite (Hrt _ _ _ Hv Hjv).
    + intros Hx.
      assert (exists jv, (k, jv) ∈ es) as [jv Hkj].
      { assert ((k, enc x) ∈ sorted_entries (enc <$> m)) as Hs.
        { unfold sorted_entries. rewrite merge_sort_Permutation.
          rewrite elem_of_map_to_list, lookup_fmap. now rewrite Hx. }
        rewrite <- Hg in Hs. apply list_elem_of_fmap in Hs
          as ([k' jv] & [= -> Hjv] & Hkj). eauto. }
      exists (k, jv). split; [|exact Hkj]. cbn.
      apply Hin in Hkj as (v & Hv & Hjv).
      rewrite (Hrt _ _ _ Hv Hjv). cbn. congruence.
  - apply Forall_forall. intros [k jv] Hkj.
    apply Hin in Hkj as (v & Hv & Hjv). cbn.
    now rewrite (Hrt _ _ _ Hv Hjv).
  - exact Hnd.
Qed.

(** A slice that was encoded comes back, when each of its elements
    does. *)
Lemma enc_list_decode {T} (enc : T -> option json) (zero : T)
    (dec : T -> json -> T * status) (l : list T) (j : json) :
  Forall (fun x => forall jx, enc x = Some jx -> dec zero jx = (x, Clean)) l ->
  enc_list enc l = Some j ->
  decode_slice zero dec None j = (Some l, Clean).
Proof.
  intros Hrt Henc. unfold enc_list in Henc.
  destruct (mapM enc l) as [js|] eqn:Hjs; [|discriminate].
  injection Henc as <-. cbn.
  rewrite (decode_elements_fresh zero dec l js); [reflexivity|].
  apply mapM_Some_1 in Hjs. clear -Hrt Hjs.
  induction Hjs as [|x jx l js Hx _ IH]; [constructor|].
  apply Forall_cons in Hrt as [Hx' Hl]. constructor; auto.
Qed.

(** *** Values held in an [interface{}] *)

Lemma sum_list_elem (x : nat) (l : list nat) : x ∈ l -> (x <= sum_list l)%nat.
Proof.
  induction 1 as [x l|x y l _ IH]; cbn; lia.
Qed.

Lemma dyn_ind_nested (P : dyn -> Prop) :
  P DNil ->
  (forall b, P (DBool b)) ->
  (forall f, P (DFloat64 f)) ->
  (forall s, P (DString s)) ->
  (forall l, Forall P l -> P (DSlice l)) ->
  (forall m, map_Forall (fun _ => P) m -> P (DMap m)) ->
  (forall n, P (DInt n)) ->
  forall d, P d.
Proof.
  intros Hnil Hbool Hfloat Hstring Hslice Hmap Hint d.
  remember (dyn_size d) as n eqn:Hn. revert d Hn.
  induction n as [n IH] using lt_wf_ind. intros d ->.
  destruct d as [ |b|f|s|l|m|i]; auto.
  - apply Hslice, Forall_forall. intros x Hx.
    apply (IH (dyn_size x)); [|reflexivity]. cbn.
    apply Nat.lt_succ_r, sum_list_elem, list_elem_of_fmap. eauto.
  - apply Hmap. intros k x Hx.
    apply (IH (dyn_size x)); [|reflexivity]. cbn.
    apply Nat.lt_succ_r, sum_list_elem, list_elem_of_fmap.
    exists (k, dyn_size x). split; [reflexivity|].
    apply elem_of_map_to_list. now rewrite lookup_fmap, Hx.
Qed.

Lemma dyn_of_json_object (es : list (string * json)) :
  dyn_of_json (JObject es)
  = DMap (fold_left (fun acc kv => <[kv.1 := dyn_of_json kv.2]> acc) es ∅).
Proof.
  cbn [dyn_of_json]. f_equal. generalize (∅ : gmap string dyn).
  induction es as [|[k v] es IH]; intros acc; [reflexivity|]. cbn. apply IH.
Qed.

Lemma json_number_errors_object (es : list (string * json)) :
  json_number_errors (JObject es)
  = existsb (fun kv => json_number_errors kv.2) es.
Proof.
  cbn [json_number_errors].
  induction es as [|[k v] es IH]; [reflexivity|]. cbn. now rewrite IH.
Qed.

Lemma decode_entries_dyn (es : list (string * json)) :
  forall m0 m',
    decode_entries DNil decode_dyn es m0 = (m', Clean) ->
    fold_left (fun acc kv => <[kv.1 := dyn_of_json kv.2]> acc) es m0 = m' /\
    existsb (fun kv => json_number_errors kv.2) es = false.
Proof.
  induction es as [|[k v] es IH]; intros m0 m' Hd.
  - cbn in Hd. injection Hd as <-. auto.
  - cbn in Hd |- *. unfold number_status in Hd.
    destruct (json_number_errors v);
      destruct (decode_entries DNil decode_dyn es (<[k:=dyn_of_json v]> m0))
        as [m1 e] eqn:He; destruct e; try discriminate Hd.
    injection Hd as <-. now apply IH.
Qed.

(** A value of a custom field that was encoded comes back, when its
    numbers do. *)
Lemma enc_dyn_decode `{Platform} (d : dyn) :
  forall j,
    dyn_roundtrips d = true ->
    enc_dyn d = Some j ->
    decode_dyn DNil j = (d, Clean).
Proof.
  unfold decode_dyn, number_status.
  induction d as [ |b|f|s|l IH|m IH|n] using dyn_ind_nested;
    intros j Hok Henc; [| | | | | |discriminate Hok].
  - now injection Henc as <-.
  - now injection Henc as <-.
  - cbn in Hok, Henc. apply andb_prop in Hok as [Hfin Hpf].
    rewrite Hfin in Henc. injection Henc as <-.
    apply bool_decide_eq_true in Hpf. cbn. now rewrite Hpf.
  - now injection Henc as <-.
  - cbn [enc_dyn] in Henc. cbn [dyn_roundtrips] in Hok.
    destruct (mapM enc_dyn l) as [js|] eqn:Hjs; [|discriminate].
    injection Henc as <-. apply mapM_Some_1 in Hjs.
    cbn [dyn_of_json json_number_errors].
    enough (map dyn_of_json js = l /\ existsb json_number_errors js = false)
      as [-> ->] by reflexivity.
    clear -IH Hok Hjs.
    induction Hjs as [|x jx l js Hx _ IHl]; [auto|].
    apply Forall_cons in IH as [IHx IH].
    cbn in Hok. apply andb_prop in Hok as [Hokx Hok].
    destruct (IHl IH Hok) as [Hmap Hex].
    specialize (IHx jx Hokx Hx).
    cbn [map existsb]. rewrite Hmap, Hex.
    destruct (json_number_errors jx); [discriminate|].
    injection IHx as ->. auto.
  - cbn [enc_dyn] in Henc. cbn [dyn_roundtrips] in Hok.
    assert (decode_map DNil decode_dyn None j = (Some m, Clean)) as Hm.
    { apply (enc_map_decode enc_dyn); [|exact Henc].
      intros k v jv Hv Hjv. unfold decode_dyn, number_status.
      apply (IH k v Hv); [|exact Hjv].
      rewrite forallb_forall in Hok.
      apply (Hok (k, dyn_roundtrips v)), list_elem_of_In, elem_of_map_to_list.
      now rewrite lookup_fmap, Hv. }
    destruct j as [ | | | | |es];
      try (unfold enc_map in Henc;
           destruct (mapM _ _); discriminate Henc).
    rewrite dyn_of_json_object, json_number_errors_object.
    cbn [decode_map default] in Hm.
    destruct (decode_entries DNil decode_dyn es ∅) as [m' e] eqn:He.
    injection Hm as -> ->.
    apply decode_entries_dyn in He as [-> ->]. reflexivity.
Qed.

(** *** The fields of a contact, type by type *)

Lemma codec_uint64 (n old : Z) (j : json) :
  0 <= n < 2 ^ 64 ->
  enc_uint64 n = Some j -> decode_uint64 old j = (n, Clean).
Proof.
  intros Hn [= <-]. cbn. now rewrite ParseUint64_itoa.
Qed.

Lemma codec_string (s old : string) (j : json) :
  enc_string s = Some j -> decode_string old j = (s, Clean).
Proof. now intros [= <-]. Qed.

Lemma codec_bool (b old : bool) (j : json) :
  enc_bool b = Some j -> decode_bool old j = (b, Clean).
Proof. now intros [= <-]. Qed.

Lemma codec_string_ptr (p old : option string) (j : json) :
  is_nil p = false ->
  enc_ptr enc_string p = Some j -> decode_string_ptr old j = (p, Clean).
Proof.
  destruct p as [s|]; [|discriminate]. now intros _ [= <-].
Qed.

Lemma codec_time_ptr `{Platform} (p old : option Time) (j : json) :
  time_roundtrips p ->
  is_nil p = false ->
  enc_ptr enc_time p = Some j -> decode_time_ptr old j = (p, Clean).
Proof.
  destruct p as [t|]; [|discriminate]. cbn. unfold enc_time.
  intros Hrt _ Henc.
  destruct (Time_MarshalJSON t) as [s|]; [|discriminate].
  injection Henc as <-. cbn in Hrt |- *. now rewrite Hrt.
Qed.

Lemma codec_strings (s : option (list string)) (j : json) :
  no_elements s = false ->
  enc_slice enc_string s = Some j -> decode_strings None j = (s, Clean).
Proof.
  destruct s as [l|]; [|discriminate]. intros _ Henc.
  apply (enc_list_decode enc_string "" decode_string l j); [|exact Henc].
  apply Forall_forall. intros x _ jx. apply codec_string.
Qed.

Lemma codec_string_map (x : option (gmap string string)) (j : json) :
  enc_ptr (enc_map enc_string) x = Some j ->
  decode_map "" decode_string None j = (x, Clean).
Proof.
  destruct x as [m|]; [|now intros [= <-]]. cbn. intros Henc.
  apply (enc_map_decode enc_string "" decode_string m j); [|exact Henc].
  intros k v jv _. apply codec_string.
Qed.

Lemma codec_string_maps (s : option (list (option (gmap string string))))
    (j : json) :
  no_elements s = false ->
  enc_slice (enc_ptr (enc_map enc_string)) s = Some j ->
  decode_string_maps None j = (s, Clean).
Proof.
  destruct s as [l|]; [|discriminate]. intros _ Henc.
  apply (enc_list_decode (enc_ptr (enc_map enc_string)) None
           (decode_map "" decode_string) l j); [|exact Henc].
  apply Forall_forall. intros x _ jx. apply codec_string_map.
Qed.

Lemma codec_custom_fields `{Platform} (m : option (gmap string dyn))
    (j : json) :
  custom_fields_roundtrip m = true ->
  no_entries m = false ->
  enc_ptr (enc_map enc_dyn) m = Some j ->
  decode_map DNil decode_dyn None j = (m, Clean).
Proof.
  destruct m as [m|]; [|discriminate]. cbn. intros Hok _ Henc.
  apply (enc_map_decode enc_dyn DNil decode_dyn m j); [|exact Henc].
  intros k v jv Hv. apply enc_dyn_decode.
  rewrite forallb_forall in Hok.
  apply (Hok (k, dyn_roundtrips v)), list_elem_of_In, elem_of_map_to_list.
  now rewrite lookup_fmap, Hv.
Qed.

Lemma fields_cons (x : option (list (string * json)))
    (r : list (option (list (string * json)))) (ms : list (string * json)) :
  fields (x :: r) = Some ms ->
  exists l ms', x = Some l /\ fields r = Some ms' /\ ms = app l ms'.
Proof.
  cbn. destruct x as [l|]; [|discriminate].
  destruct (fields r) as [ms'|]; [|discriminate].
  intros [= <-]. eauto.
Qed.

Lemma empty_slice_is_nil {T} (s : option (list T)) :
  no_elements s = true -> nil_or_elements s = true -> s = None.
Proof. now destruct s as [[|]|]. Qed.

Lemma empty_map_is_nil {T} (m : option (gmap string T)) :
  no_entries m = true -> nil_or_entries m = true -> m = None.
Proof.
  destruct m as [m|]; [|reflexivity]. cbn. intros ->. discriminate.
Qed.

(** *** The round trip *)

(** The document written for a valid record decodes, into a new
    [Contact], to the record. *)
Lemma enc_Contact_decode `{Platform} (c : Contact) (doc : json) :
  Contact_valid c ->
  enc_Contact c = Some doc ->
  decode_Contact Contact.zero doc = (c, Clean).
Proof.
  destruct c as [f1 f2 f3 f4 f5 f6 f7 f8 f9 f10 f11 f12 f13 f14 f15 f16 f17
                   f18 f19 f20 f21 f22 f23].
  unfold Contact_valid, enc_Contact, struct. cbn [Contact.ID
    Contact.UniqueExternalID Contact.Active Contact.Deleted Contact.CreatedAt
    Contact.UpdatedAt Contact.ViewAllTickets Contact.Name Contact.JobTitle
    Contact.Description Contact.Address Contact.Email Contact.OtherEmails
    Contact.Phone Contact.Mobile Contact.OtherPhones Contact.TwitterID
    Contact.TimeZone Contact.Language Contact.CompanyID
    Contact.OtherCompanies Contact.Tags Contact.CustomFields].
  intros (Hid & Hv13 & Hv16 & Hv21 & Hv22 & Hv23 & Ht5 & Ht6 & Hcf) Henc.
  match type of Henc with
  | JObject <$> ?x = _ => destruct x as [ms|] eqn:Hf; [|discriminate Henc]
  end.
  injection Henc as <-. cbn [decode_Contact]. unfold Contact.zero.
  (* id *)
  apply fields_cons in Hf as (l & ms' & Hl & Hf & ->).
  rewrite (decode_members_app store_Contact l ms' _
     (Contact.mk _ f1 "" false false None None false "" None None None
         "" None None None None None None None None None None None));
    [clear Hl l
    |field_step Hl ltac:(apply Z.eqb_eq in Homit; now rewrite Homit)
       ltac:(rewrite (codec_uint64 _ _ _ Hid Hdoc))].
  rename ms' into ms.
  (* unique_external_id *)
  apply fields_cons in Hf as (l & ms' & Hl & Hf & ->).
  rewrite (decode_members_app store_Contact l ms' _
     (Contact.mk _ f1 f2 false false None None false "" None None None
         "" None None None None None None None None None None None));
    [clear Hl l
    |field_step Hl ltac:(apply String.eqb_eq in Homit; now rewrite Homit)
       ltac:(rewrite (codec_string _ _ _ Hdoc))].
  rename ms' into ms.
  (* active *)
  apply fields_cons in Hf as (l & ms' & Hl & Hf & ->).
  rewrite (decode_members_app store_Contact l ms' _
     (Contact.mk _ f1 f2 f3 false None None false "" None None None ""
         None None None None None None None None None None None));
    [clear Hl l
    |field_step Hl ltac:(discriminate Homit)
       ltac:(rewrite (codec_bool _ _ _ Hdoc))].
  rename ms' into ms.
  (* deleted *)
  apply fields_cons in Hf as (l & ms' & Hl & Hf & ->).
  rewrite (decode_members_app store_Contact l ms' _
     (Contact.mk _ f1 f2 f3 f4 None None false "" None None None ""
         None None None None None None None None None None None));
    [clear Hl l
    |field_step Hl ltac:(now destruct f4)
       ltac:(rewrite (codec_bool _ _ _ Hdoc))].
  rename ms' into ms.
  (* created_at *)
  apply fields_cons in Hf as (l & ms' & Hl & Hf & ->).
  rewrite (decode_members_app store_Contact l ms' _
     (Contact.mk _ f1 f2 f3 f4 f5 None false "" None None None "" None
         None None None None None None None None None None));
    [clear Hl l
    |field_step Hl ltac:(now destruct f5)
       ltac:(rewrite (codec_time_ptr _ _ _ Ht5 Homit Hdoc))].
  rename ms' into ms.
  (* updated_at *)
  apply fields_cons in Hf as (l & ms' & Hl & Hf & ->).
  rewrite (decode_members_app store_Contact l ms' _
     (Contact.mk _ f1 f2 f3 f4 f5 f6 false "" None None None "" None
         None None None None None None None None None None));
    [clear Hl l
    |field_step Hl ltac:(now destruct f6)
       ltac:(rewrite (codec_time_ptr _ _ _ Ht6 Homit Hdoc))].
  rename ms' into ms.
  (* view_all_tickets *)
  apply fields_cons in Hf as (l & ms' & Hl & Hf & ->).
  rewrite (decode_members_app store_Contact l ms' _
     (Contact.mk _ f1 f2 f3 f4 f5 f6 f7 "" None None None "" None None
         None None None None None None None None None));
    [clear Hl l
    |field_step Hl ltac:(discriminate Homit)
       ltac:(rewrite (codec_bool _ _ _ Hdoc))].
  rename ms' into ms.
  (* name *)
  apply fields_cons in Hf as (l & ms' & Hl & Hf & ->).
  rewrite (decode_members_app store_Contact l ms' _
     (Contact.mk _ f1 f2 f3 f4 f5 f6 f7 f8 None None None "" None None
         None None None None None None None None None));
    [clear Hl l
    |field_step Hl ltac:(discriminate Homit)
       ltac:(rewrite (codec_string _ _ _ Hdoc))].
  rename ms' into ms.
  (* job_title *)
  apply fields_cons in Hf as (l & ms' & Hl & Hf & ->).
  rewrite (decode_members_app store_Contact l ms' _
     (Contact.mk _ f1 f2 f3 f4 f5 f6 f7 f8 f9 None None "" None None
         None None None None None None None None None));
    [clear Hl l
    |field_step Hl ltac:(now destruct f9)
       ltac:(rewrite (codec_string_ptr _ _ _ Homit Hdoc))].
  rename ms' into ms.
  (* description *)
  apply fields_cons in Hf as (l & ms' & Hl & Hf & ->).
  rewrite (decode_members_app store_Contact l ms' _
     (Contact.mk _ f1 f2 f3 f4 f5 f6 f7 f8 f9 f10 None "" None None
         None None None None None None None None None));
    [clear Hl l
    |field_step Hl ltac:(now destruct f10)
       ltac:(rewrite (codec_string_ptr _ _ _ Homit Hdoc))].
  rename ms' into ms.
  (* address *)
  apply fields_cons in Hf as (l & ms' & Hl & Hf & ->).
  rewrite (decode_members_app store_Contact l ms' _
     (Contact.mk _ f1 f2 f3 f4 f5 f6 f7 f8 f9 f10 f11 "" None None None
         None None None None None None None None));
    [clear Hl l
    |field_step Hl ltac:(now destruct f11)
       ltac:(rewrite (codec_string_ptr _ _ _ Homit Hdoc))].
  rename ms' into ms.
  (* email *)
  apply fields_cons in Hf as (l & ms' & Hl & Hf & ->).
  rewrite (decode_members_app store_Contact l ms' _
     (Contact.mk _ f1 f2 f3 f4 f5 f6 f7 f8 f9 f10 f11 f12 None None
         None None None None None None None None None));
    [clear Hl l
    |field_step Hl ltac:(apply String.eqb_eq in Homit; now rewrite Homit)
       ltac:(rewrite (codec_string _ _ _ Hdoc))].
  rename ms' into ms.
  (* other_emails *)
  apply fields_cons in Hf as (l & ms' & Hl & Hf & ->).
  rewrite (decode_members_app store_Contact l ms' _
     (Contact.mk _ f1 f2 f3 f4 f5 f6 f7 f8 f9 f10 f11 f12 f13 None None
         None None None None None None None None));
    [clear Hl l
    |field_step Hl ltac:(now rewrite (empty_slice_is_nil _ Homit Hv13))
       ltac:(rewrite (codec_strings _ _ Homit Hdoc))].
  rename ms' into ms.
  (* phone *)
  apply fields_cons in Hf as (l & ms' & Hl & Hf & ->).
  rewrite (decode_members_app store_Contact l ms' _
     (Contact.mk _ f1 f2 f3 f4 f5 f6 f7 f8 f9 f10 f11 f12 f13 f14 None
         None None None None None None None None));
    [clear Hl l
    |field_step Hl ltac:(now destruct f14)
       ltac:(rewrite (codec_string_ptr _ _ _ Homit Hdoc))].
  rename ms' into ms.
  (* mobile *)
  apply fields_cons in Hf as (l & ms' & Hl & Hf & ->).
  rewrite (decode_members_app store_Contact l ms' _
     (Contact.mk _ f1 f2 f3 f4 f5 f6 f7 f8 f9 f10 f11 f12 f13 f14 f15
         None None None None None None None None));
    [clear Hl l
    |field_step Hl ltac:(now destruct f15)
       ltac:(rewrite (codec_string_ptr _ _ _ Homit Hdoc))].
  rename ms' into ms.
  (* other_phone_numbers *)
  apply fields_cons in Hf as (l & ms' & Hl & Hf & ->).
  rewrite (decode_members_app store_Contact l ms' _
     (Contact.mk _ f1 f2 f3 f4 f5 f6 f7 f8 f9 f10 f11 f12 f13 f14 f15
         f16 None None None None None None None));
    [clear Hl l
    |field_step Hl ltac:(now rewrite (empty_slice_is_nil _ Homit Hv16))
       ltac:(rewrite (codec_string_maps _ _ Homit Hdoc))].
  rename ms' into ms.
  (* twitter_id *)
  apply fields_cons in Hf as (l & ms' & Hl & Hf & ->).
  rewrite (decode_members_app store_Contact l ms' _
     (Contact.mk _ f1 f2 f3 f4 f5 f6 f7 f8 f9 f10 f11 f12 f13 f14 f15
         f16 f17 None None None None None None));
    [clear Hl l
    |field_step Hl ltac:(now destruct f17)
       ltac:(rewrite (codec_string_ptr _ _ _ Homit Hdoc))].
  rename ms' into ms.
  (* time_zone *)
  apply fields_cons in Hf as (l & ms' & Hl & Hf & ->).
  rewrite (decode_members_app store_Contact l ms' _
     (Contact.mk _ f1 f2 f3 f4 f5 f6 f7 f8 f9 f10 f11 f12 f13 f14 f15
         f16 f17 f18 None None None None None));
    [clear Hl l
    |field_step Hl ltac:(now destruct f18)
       ltac:(rewrite (codec_string_ptr _ _ _ Homit Hdoc))].
  rename ms' into ms.
  (* language *)
  apply fields_cons in Hf as (l & ms' & Hl & Hf & ->).
  rewrite (decode_members_app store_Contact l ms' _
     (Contact.mk _ f1 f2 f3 f4 f5 f6 f7 f8 f9 f10 f11 f12 f13 f14 f15
         f16 f17 f18 f19 None None None None));
    [clear Hl l
    |field_step Hl ltac:(now destruct f19)
       ltac:(rewrite (codec_string_ptr _ _ _ Homit Hdoc))].
  rename ms' into ms.
  (* company_id *)
  apply fields_cons in Hf as (l & ms' & Hl & Hf & ->).
  rewrite (decode_members_app store_Contact l ms' _
     (Contact.mk _ f1 f2 f3 f4 f5 f6 f7 f8 f9 f10 f11 f12 f13 f14 f15
         f16 f17 f18 f19 f20 None None None));
    [clear Hl l
    |field_step Hl ltac:(now destruct f20)
       ltac:(rewrite (codec_string_ptr _ _ _ Homit Hdoc))].
  rename ms' into ms.
  (* other_companies *)
  apply fields_cons in Hf as (l & ms' & Hl & Hf & ->).
  rewrite (decode_members_app store_Contact l ms' _
     (Contact.mk _ f1 f2 f3 f4 f5 f6 f7 f8 f9 f10 f11 f12 f13 f14 f15
         f16 f17 f18 f19 f20 f21 None None));
    [clear Hl l
    |field_step Hl ltac:(now rewrite (empty_slice_is_nil _ Homit Hv21))
       ltac:(rewrite (codec_string_maps _ _ Homit Hdoc))].
  rename ms' into ms.
  (* tags *)
  apply fields_cons in Hf as (l & ms' & Hl & Hf & ->).
  rewrite (decode_members_app store_Contact l ms' _
     (Contact.mk _ f1 f2 f3 f4 f5 f6 f7 f8 f9 f10 f11 f12 f13 f14 f15
         f16 f17 f18 f19 f20 f21 f22 None));
    [clear Hl l
    |field_step Hl ltac:(now rewrite (empty_slice_is_nil _ Homit Hv22))
       ltac:(rewrite (codec_strings _ _ Homit Hdoc))].
  rename ms' into ms.
  (* custom_fields *)
  apply fields_cons in Hf as (l & ms' & Hl & Hf & ->).
  rewrite (decode_members_app store_Contact l ms' _
     (Contact.mk _ f1 f2 f3 f4 f5 f6 f7 f8 f9 f10 f11 f12 f13 f14 f15
         f16 f17 f18 f19 f20 f21 f22 f23));
    [clear Hl l
    |field_step Hl ltac:(now rewrite (empty_map_is_nil _ Homit Hv23))
       ltac:(rewrite (codec_custom_fields _ _ Hcf Homit Hdoc))].
  rename ms' into ms.
  injection Hf as <-. reflexivity.
Qed.

(** *** What the encoder writes, the parser reads: text *)

Lemma append_cons (c : ascii) (a b : string) :
  String c a ++ b = String c (a ++ b).
Proof. reflexivity. Qed.

Lemma append_nil_l (b : string) : "" ++ b = b.
Proof. reflexivity. Qed.

Lemma append_nil_r (a : string) : a ++ "" = a.
Proof.
  induction a as [|c a IH]; [reflexivity|]. now rewrite append_cons, IH.
Qed.

Lemma slen_app (a b : string) : slen (a ++ b) = (slen a + slen b)%nat.
Proof.
  induction a as [|c a IH]; [reflexivity|].
  rewrite append_cons. unfold slen in *. cbn. now rewrite IH.
Qed.

Lemma stake_sdrop (n : nat) (s : string) : stake n s ++ sdrop n s = s.
Proof.
  revert s. induction n as [|n IH]; intros s; [reflexivity|].
  destruct s as [|c s]; [reflexivity|]. cbn [stake sdrop].
  now rewrite append_cons, IH.
Qed.

Lemma stake_app (u t : string) : stake (slen u) (u ++ t) = u.
Proof.
  induction u as [|c u IH]; [reflexivity|].
  rewrite append_cons. unfold slen in *. cbn. now rewrite IH.
Qed.

Lemma sdrop_app (u t : string) : sdrop (slen u) (u ++ t) = t.
Proof.
  induction u as [|c u IH]; [reflexivity|].
  rewrite append_cons. unfold slen in *. cbn. exact IH.
Qed.

Lemma slen_sdrop (n : nat) (s : string) : slen (sdrop n s) = (slen s - n)%nat.
Proof.
  revert s. induction n as [|n IH]; intros s;
    [destruct s; unfold slen; cbn; lia|].
  destruct s as [|c s]; [reflexivity|]. cbn [sdrop]. rewrite IH.
  unfold slen. cbn. lia.
Qed.

(** *** Bytes *)

Lemma high_byte_plain (c : ascii) :
  (code c <? 128) = false ->
  Ascii.eqb c dq = false /\ Ascii.eqb c bs = false /\ (code c <? 32) = false.
Proof.
  intros H. bytes c; vm_compute in H; try discriminate H; now vm_compute.
Qed.

Lemma safe_byte_plain (c : ascii) :
  html_safe c = true ->
  Ascii.eqb c dq = false /\ Ascii.eqb c bs = false /\ (code c <? 32) = false.
Proof.
  intros H. bytes c; vm_compute in H; try discriminate H; now vm_compute.
Qed.

Lemma lex_through_plain (c : ascii) :
  Ascii.eqb c dq = false -> Ascii.eqb c bs = false -> (code c <? 32) = false ->
  lex_through (str1 c).
Proof.
  intros H1 H2 H3 x. unfold str1. rewrite append_cons, append_nil_l.
  cbn [lex_string]. rewrite H1, H2, H3.
  destruct (lex_string x) as [[raw t]|]; reflexivity.
Qed.

Lemma lex_through_app (u v : string) :
  lex_through u -> lex_through v -> lex_through (u ++ v).
Proof.
  intros Hu Hv x. rewrite append_assoc, Hu, Hv.
  destruct (lex_string x) as [[raw t]|]; cbn; [|reflexivity].
  now rewrite append_assoc.
Qed.

Lemma lex_through_escape (c : ascii) :
  (code c <? 128) = true -> lex_through (escape_byte c).
Proof.
  intros H x. bytes c; vm_compute in H; try discriminate H; reflexivity.
Qed.

(** *** Well-formed UTF-8 sequences *)

Lemma in_range_high (lo hi : Z) (c : ascii) :
  128 <= lo -> in_range lo hi c = true -> (code c <? 128) = false.
Proof. unfold in_range. lia. Qed.

Lemma lex_through_high (c : ascii) :
  (code c <? 128) = false -> lex_through (str1 c).
Proof.
  intros H. destruct (high_byte_plain c H) as (H1 & H2 & H3).
  now apply lex_through_plain.
Qed.

Lemma lex_through_cons (c : ascii) (u : string) :
  (code c <? 128) = false -> lex_through u -> lex_through (String c u).
Proof.
  intros Hc Hu. exact (lex_through_app (str1 c) u (lex_through_high c Hc) Hu).
Qed.

Lemma lex_through_nil : lex_through "".
Proof.
  intros x. rewrite append_nil_l.
  destruct (lex_string x) as [[raw t]|]; reflexivity.
Qed.

(** A well-formed sequence of two bytes or more: the scanner reads
    through it, and it is found again whatever follows it. *)
Lemma utf8_seq_chunk (c : ascii) (r : string) (n : nat) :
  (code c <? 128) = false ->
  utf8_seq_len (String c r) = S n ->
  lex_through (stake (S n) (String c r)) /\
  slen (stake (S n) (String c r)) = S n /\
  (forall x, utf8_seq_len (stake (S n) (String c r) ++ x) = S n) /\
  (exists u, stake (S n) (String c r) = String c u).
Proof.
  intros Hc Hn. unfold utf8_seq_len in Hn. cbv zeta in Hn.
  rewrite Hc in Hn.
  destruct (in_range 194 223 c) eqn:H2.
  { destruct r as [|c1 r]; [discriminate|].
    destruct (in_range 128 191 c1) eqn:K1; [|discriminate].
    injection Hn as <-. cbn [stake]. repeat split.
    - repeat apply lex_through_cons; try apply lex_through_nil; auto.
      eapply in_range_high; [|exact K1]. lia.
    - intros x. rewrite !append_cons, append_nil_l. unfold utf8_seq_len.
      cbv zeta. now rewrite Hc, H2, K1.
    - eauto. }
  destruct (in_range 224 239 c) eqn:H3.
  { destruct r as [|c1 [|c2 r]]; try discriminate.
    destruct (in_range _ _ c1 && in_range 128 191 c2) eqn:K; [|discriminate].
    injection Hn as <-. cbn [stake]. repeat split.
    - apply andb_prop in K as [K1 K2].
      repeat apply lex_through_cons; try apply lex_through_nil; auto.
      + eapply in_range_high; [|exact K1]. destruct (code c =? 224); lia.
      + eapply in_range_high; [|exact K2]. lia.
    - intros x. rewrite !append_cons, append_nil_l. unfold utf8_seq_len.
      cbv zeta. now rewrite Hc, H2, H3, K.
    - eauto. }
  destruct (in_range 240 244 c) eqn:H4; [|discriminate].
  destruct r as [|c1 [|c2 [|c3 r]]]; try discriminate.
  destruct (in_range _ _ c1 && in_range 128 191 c2 && in_range 128 191 c3)
    eqn:K; [|discriminate].
  injection Hn as <-. cbn [stake]. repeat split.
  - apply andb_prop in K as [K K3]. apply andb_prop in K as [K1 K2].
    repeat apply lex_through_cons; try apply lex_through_nil; auto.
    + eapply in_range_high; [|exact K1]. destruct (code c =? 240); lia.
    + eapply in_range_high; [|exact K2]. lia.
    + eapply in_range_high; [|exact K3]. lia.
  - intros x. rewrite !append_cons, append_nil_l. unfold utf8_seq_len.
    cbv zeta. now rewrite Hc, H2, H3, H4, K.
  - eauto.
Qed.

Lemma utf8_seq_ascii (c : ascii) (r : string) :
  (code c <? 128) = true -> utf8_seq_len (String c r) = 1%nat.
Proof. intros H. unfold utf8_seq_len. cbv zeta. now rewrite H. Qed.

(** *** Unquoting what was quoted *)

Lemma getu4_simple (b e : ascii) (x : string) :
  Ascii.eqb e "u" = false -> getu4 (String b (String e x)) = None.
Proof.
  intros H. unfold getu4.
  destruct x as [|h1 [|h2 [|h3 [|h4 x]]]]; try reflexivity.
  now rewrite H, andb_false_r.
Qed.

Lemma unquote_simple (e : ascii) (x : string) (fuel : nat) :
  Ascii.eqb e "u" = false ->
  unquote_go (S fuel) (String bs (String e x))
  = String (simple_escape e) (unquote_go fuel x).
Proof.
  intros H. cbn [unquote_go].
  change (Ascii.eqb bs bs) with true. cbv iota.
  now rewrite getu4_simple.
Qed.

Lemma unquote_through_escape (c : ascii) :
  (code c <? 128) = true -> unquote_through (escape_byte c) (str1 c).
Proof.
  intros H fuel x. bytes c; vm_compute in H; try discriminate H;
    first [reflexivity | refine (unquote_simple _ x fuel _); reflexivity].
Qed.

Lemma unquote_through_safe (c : ascii) :
  html_safe c = true -> unquote_through (str1 c) (str1 c).
Proof.
  intros H fuel x. bytes c; vm_compute in H; try discriminate H; reflexivity.
Qed.

Lemma unquote_through_2028 :
  unquote_through (String bs "u2028") line_sep_2028.
Proof. intros fuel x. reflexivity. Qed.

Lemma unquote_through_2029 :
  unquote_through (String bs "u2029") line_sep_2029.
Proof. intros fuel x. reflexivity. Qed.

Lemma unquote_through_seq (c : ascii) (r : string) (n : nat) :
  (code c <? 128) = false ->
  utf8_seq_len (String c r) = S n ->
  unquote_through (stake (S n) (String c r)) (stake (S n) (String c r)).
Proof.
  intros Hc Hn fuel x.
  destruct (utf8_seq_chunk c r n Hc Hn) as (_ & Hlen & Hseq & u & Hu).
  destruct (high_byte_plain c Hc) as (_ & Hbs & _).
  specialize (Hseq x). rewrite Hu in *. clear Hu.
  rewrite append_cons in Hseq. rewrite (append_cons c u x).
  cbn [unquote_go]. rewrite Hbs, Hseq.
  change (String c (u ++ x)) with (String c u ++ x).
  now rewrite <- Hlen, stake_app, sdrop_app.
Qed.

Lemma slen_cons (c : ascii) (s : string) : slen (String c s) = S (slen s).
Proof. reflexivity. Qed.

Lemma utf8_valid_go_cons (g : nat) (c : ascii) (r : string) :
  utf8_valid_go g (String c r) = true ->
  exists g' n, g = S g' /\ utf8_seq_len (String c r) = S n /\
               utf8_valid_go g' (sdrop (S n) (String c r)) = true.
Proof.
  intros H. destruct g as [|g']; [discriminate|].
  cbn [utf8_valid_go] in H.
  destruct (utf8_seq_len (String c r)) as [|n] eqn:Hn; [discriminate|].
  eauto.
Qed.

(** The text between the quotes of a written string: the scanner reads
    it up to the closing quote, and unquoting it gives the string back
    when the string is UTF-8. *)
Lemma quote_go_through (f : nat) :
  forall (s : string) (g : nat),
    (slen s <= f)%nat -> utf8_valid_go g s = true ->
    lex_through (quote_go f s) /\
    forall fuel, (slen (quote_go f s) <= fuel)%nat ->
                 unquote_go fuel (quote_go f s) = s.
Proof.
  induction f as [|f IH]; intros s g Hf Hg.
  { destruct s; [|cbn in Hf; lia]. split; [apply lex_through_nil|].
    intros [|fuel] _; reflexivity. }
  destruct s as [|c r].
  { split; [apply lex_through_nil|]. intros [|fuel] _; reflexivity. }
  destruct (utf8_valid_go_cons g c r Hg) as (g' & n & -> & Hn & Hg').
  assert (Hstep : forall u v s',
             lex_through u -> unquote_through u v ->
             (1 <= slen u)%nat -> (slen s' <= f)%nat ->
             utf8_valid_go g' s' = true -> v ++ s' = String c r ->
             lex_through (u ++ quote_go f s') /\
             forall fuel, (slen (u ++ quote_go f s') <= fuel)%nat ->
                          unquote_go fuel (u ++ quote_go f s') = String c r).
  { intros u v s' Hl Hu Hlen Hs' Hv Heq.
    destruct (IH s' g' Hs' Hv) as [IH1 IH2]. split.
    - now apply lex_through_app.
    - intros fuel Hfuel. rewrite slen_app in Hfuel.
      destruct fuel as [|fuel]; [lia|].
      rewrite Hu, IH2 by lia. exact Heq. }
  rewrite slen_cons in Hf.
  cbn [quote_go]. destruct (code c <? 128) eqn:Hc.
  - rewrite (utf8_seq_ascii c r Hc) in Hn. injection Hn as <-.
    cbn [sdrop] in Hg'.
    destruct (html_safe c) eqn:Hs.
    + destruct (safe_byte_plain c Hs) as (H1 & H2 & H3).
      apply (Hstep (str1 c) (str1 c) r); auto using lex_through_plain,
        unquote_through_safe with lia.
    + apply (Hstep (escape_byte c) (str1 c) r); auto using
        lex_through_escape, unquote_through_escape with lia.
      clear -Hc. bytes c; vm_compute in Hc; try discriminate Hc;
        vm_compute; lia.
  - rewrite Hn.
    destruct (utf8_seq_chunk c r n Hc Hn) as (Hl & Hlen & _ & _).
    assert (Hdrop : (slen (sdrop (S n) (String c r)) <= f)%nat).
    { rewrite slen_sdrop, slen_cons. lia. }
    pose proof (stake_sdrop (S n) (String c r)) as Heq.
    destruct (String.eqb_spec (stake (S n) (String c r)) line_sep_2028)
      as [E1|_].
    { apply (Hstep _ line_sep_2028 (sdrop (S n) (String c r))); auto using
        unquote_through_2028; [|cbn; lia|now rewrite <- E1].
      intros x. reflexivity. }
    destruct (String.eqb_spec (stake (S n) (String c r)) line_sep_2029)
      as [E2|_].
    { apply (Hstep _ line_sep_2029 (sdrop (S n) (String c r))); auto using
        unquote_through_2029; [|cbn; lia|now rewrite <- E2].
      intros x. reflexivity. }
    apply (Hstep _ (stake (S n) (String c r)) (sdrop (S n) (String c r)));
      auto using unquote_through_seq with lia.
Qed.

Lemma lex_string_quote (s rest : string) :
  utf8_valid s = true ->
  lex_string (quote_go (slen s) s ++ String dq rest)
  = Some (quote_go (slen s) s, rest).
Proof.
  intros H. destruct (quote_go_through (slen s) s (slen s)) as [Hl _]; auto.
  rewrite Hl. cbn [lex_string]. change (Ascii.eqb dq dq) with true.
  cbn. now rewrite append_nil_r.
Qed.

Lemma unquote_quote (s : string) :
  utf8_valid s = true -> unquote (quote_go (slen s) s) = s.
Proof.
  intros H. destruct (quote_go_through (slen s) s (slen s)) as [_ Hu]; auto.
  apply Hu. lia.
Qed.

(** *** Number literals *)

Lemma lex_frac_eq (s : string) :
  lex_frac s
  = match s with
    | String c r =>
        if Ascii.eqb c "." then
          match take_digits r with
          | (EmptyString, _) => None
          | (d, t) => Some (String "." d, t)
          end
        else Some ("", s)
    | EmptyString => Some ("", s)
    end.
Proof. destruct s as [|c r]; [reflexivity|]. bytes c; reflexivity. Qed.

Lemma lex_exp_eq (s : string) :
  lex_exp s
  = match s with
    | String c r =>
        if Ascii.eqb c "e" || Ascii.eqb c "E" then
          let '(sg, r1) :=
            match r with
            | String c' r' =>
                if Ascii.eqb c' "+" then ("+", r')
                else if Ascii.eqb c' "-" then ("-", r')
                else ("", r)
            | EmptyString => ("", r)
            end in
          match take_digits r1 with
          | (EmptyString, _) => None
          | (d, t) => Some (String c (sg ++ d), t)
          end
        else Some ("", s)
    | EmptyString => Some ("", s)
    end.
Proof.
  destruct s as [|c [|c' r']]; try reflexivity.
  unfold lex_exp. destruct (Ascii.eqb c "e" || Ascii.eqb c "E");
    [|reflexivity].
  bytes c'; reflexivity.
Qed.

Lemma lex_number_eq (s : string) :
  lex_number s
  = let '(sg, s1) :=
      match s with
      | String c r => if Ascii.eqb c "-" then ("-", r) else ("", s)
      | EmptyString => ("", s)
      end in
    '(i, s2) ← lex_int s1;
    '(f, s3) ← lex_frac s2;
    '(e, s4) ← lex_exp s3;
    Some (sg ++ i ++ f ++ e, s4).
Proof. destruct s as [|c r]; [reflexivity|]. bytes c; reflexivity. Qed.

Lemma value_end_head (c : ascii) (r : string) :
  value_end (String c r) = true ->
  is_digit c = false /\ Ascii.eqb c "." = false /\
  (Ascii.eqb c "e" || Ascii.eqb c "E") = false.
Proof.
  intros H. cbn in H. bytes c; vm_compute in H; try discriminate H;
    now vm_compute.
Qed.

Lemma take_digits_app (s rest d t : string) :
  value_end rest = true ->
  take_digits s = (d, t) -> take_digits (s ++ rest) = (d, t ++ rest).
Proof.
  intros Hrest. revert d t. induction s as [|c s IH]; intros d t H.
  - injection H as <- <-. rewrite append_nil_l. destruct rest as [|c r];
      [reflexivity|].
    destruct (value_end_head c r Hrest) as (Hd & _). cbn. now rewrite Hd.
  - rewrite append_cons. cbn [take_digits] in *.
    destruct (is_digit c).
    + destruct (take_digits s) as [d' t'].
      rewrite (IH d' t' eq_refl). now injection H as <- <-.
    + now injection H as <- <-.
Qed.

Lemma lex_int_app (s rest i t : string) :
  value_end rest = true ->
  lex_int s = Some (i, t) -> lex_int (s ++ rest) = Some (i, t ++ rest).
Proof.
  intros Hrest H. destruct s as [|c s]; [discriminate|].
  rewrite append_cons. cbn [lex_int] in *.
  destruct (Ascii.eqb c "0"); [now injection H as <- <-|].
  destruct (is_digit19 c); [|discriminate].
  destruct (take_digits s) as [d' t'] eqn:Hd.
  rewrite (take_digits_app s rest d' t' Hrest Hd).
  now injection H as <- <-.
Qed.

Lemma lex_frac_app (s rest f t : string) :
  value_end rest = true ->
  lex_frac s = Some (f, t) -> lex_frac (s ++ rest) = Some (f, t ++ rest).
Proof.
  intros Hrest H. rewrite lex_frac_eq in *. destruct s as [|c s].
  - injection H as <- <-. rewrite append_nil_l. destruct rest as [|c r];
      [reflexivity|].
    destruct (value_end_head c r Hrest) as (_ & Hd & _). now rewrite Hd.
  - rewrite append_cons. destruct (Ascii.eqb c ".").
    + destruct (take_digits s) as [d' t'] eqn:Hd.
      rewrite (take_digits_app s rest d' t' Hrest Hd).
      destruct d'; [discriminate|]. now injection H as <- <-.
    + now injection H as <- <-.
Qed.

Lemma lex_exp_app (s rest e t : string) :
  value_end rest = true ->
  lex_exp s = Some (e, t) -> lex_exp (s ++ rest) = Some (e, t ++ rest).
Proof.
  intros Hrest H. rewrite lex_exp_eq in *. destruct s as [|c s].
  - injection H as <- <-. rewrite append_nil_l. destruct rest as [|c r];
      [reflexivity|].
    destruct (value_end_head c r Hrest) as (_ & _ & Hd). now rewrite Hd.
  - rewrite append_cons. destruct (Ascii.eqb c "e" || Ascii.eqb c "E");
      [|now injection H as <- <-].
    assert (Hdigits : forall sg r1,
               match take_digits r1 with
               | (EmptyString, _) => None
               | (d, t) => Some (String c (sg ++ d), t)
               end = Some (e, t) ->
               match take_digits (r1 ++ rest) with
               | (EmptyString, _) => None
               | (d, t) => Some (String c (sg ++ d), t)
               end = Some (e, t ++ rest)).
    { intros sg r1 H1. destruct (take_digits r1) as [d' t'] eqn:Hd.
      rewrite (take_digits_app r1 rest d' t' Hrest Hd).
      destruct d'; [discriminate|]. now injection H1 as <- <-. }
    destruct s as [|c' s].
    + discriminate.
    + rewrite append_cons.
      destruct (Ascii.eqb c' "+"); [now apply Hdigits|].
      destruct (Ascii.eqb c' "-"); [now apply Hdigits|].
      apply (Hdigits "" (String c' s)), H.
Qed.

Lemma lex_number_app (s rest tok t : string) :
  value_end rest = true ->
  lex_number s = Some (tok, t) ->
  lex_number (s ++ rest) = Some (tok, t ++ rest).
Proof.
  intros Hrest H. rewrite lex_number_eq in *.
  assert (Hchain : forall sg s1,
             ('(i, s2) ← lex_int s1; '(f, s3) ← lex_frac s2;
              '(e, s4) ← lex_exp s3; Some (sg ++ i ++ f ++ e, s4))
             = Some (tok, t) ->
             ('(i, s2) ← lex_int (s1 ++ rest); '(f, s3) ← lex_frac s2;
              '(e, s4) ← lex_exp s3; Some (sg ++ i ++ f ++ e, s4))
             = Some (tok, t ++ rest)).
  { intros sg s1 H1.
    destruct (lex_int s1) as [[i s2]|] eqn:Hi; [|discriminate].
    rewrite (lex_int_app s1 rest i s2 Hrest Hi). cbn in *.
    destruct (lex_frac s2) as [[f s3]|] eqn:Hf; [|discriminate].
    rewrite (lex_frac_app s2 rest f s3 Hrest Hf). cbn in *.
    destruct (lex_exp s3) as [[e s4]|] eqn:He; [|discriminate].
    rewrite (lex_exp_app s3 rest e s4 Hrest He). cbn in *.
    now injection H1 as <- <-. }
  destruct s as [|c s]; [discriminate|].
  rewrite append_cons. destruct (Ascii.eqb c "-"); [now apply Hchain|].
  apply (Hchain "" (String c s)), H.
Qed.

Lemma number_ok_head (lit : string) :
  number_ok lit = true ->
  exists c r, lit = String c r /\ (Ascii.eqb c "-" || is_digit c) = true.
Proof.
  unfold number_ok. rewrite lex_number_eq. intros H.
  destruct lit as [|c r]; [discriminate|]. exists c, r. split; [easy|].
  destruct (Ascii.eqb c "-"); [reflexivity|]. cbn [lex_int mbind] in H.
  cbn. unfold lex_int in H.
  destruct (Ascii.eqb_spec c "0") as [->|_]; [reflexivity|].
  destruct (is_digit19 c) eqn:Hd; [|discriminate].
  clear -Hd. unfold is_digit, is_digit19, in_range in *. lia.
Qed.

Lemma number_ok_lex (lit rest : string) :
  number_ok lit = true -> value_end rest = true ->
  lex_number (lit ++ rest) = Some (lit, rest).
Proof.
  unfold number_ok. intros H Hrest.
  destruct (lex_number lit) as [[tok [|c t]]|] eqn:Hl; try discriminate.
  apply String.eqb_eq in H as ->.
  now rewrite (lex_number_app _ rest _ _ Hrest Hl).
Qed.

(** *** One step of the parser *)

Lemma parse_value_atoms (f : nat) (depth : Z) (rest : string) :
  parse_value (S f) depth ("null" ++ rest) = Some (JNull, rest) /\
  parse_value (S f) depth ("true" ++ rest) = Some (JBool true, rest) /\
  parse_value (S f) depth ("false" ++ rest) = Some (JBool false, rest).
Proof. destruct rest; repeat split; reflexivity. Qed.

Lemma parse_value_number (f : nat) (depth : Z) (c : ascii) (r : string) :
  (Ascii.eqb c "-" || is_digit c) = true ->
  parse_value (S f) depth (String c r)
  = '(lit, t) ← lex_number (String c r); Some (JNumber lit, t).
Proof.
  intros H. bytes c; vm_compute in H; try discriminate H; reflexivity.
Qed.

Lemma parse_value_string (f : nat) (depth : Z) (r : string) :
  parse_value (S f) depth (String dq r)
  = '(raw, t) ← lex_string r; Some (JString (unquote raw), t).
Proof. reflexivity. Qed.

Lemma parse_value_empty (f : nat) (depth : Z) (rest : string) :
  depth < maxNestingDepth ->
  parse_value (S f) depth ("[]" ++ rest) = Some (JArray [], rest) /\
  parse_value (S f) depth ("{}" ++ rest) = Some (JObject [], rest).
Proof.
  intros H. apply Z.ltb_lt in H. rewrite !append_cons, !append_nil_l.
  cbn [parse_value skip_space]. 
  change (is_space "[") with false. change (is_space "{") with false.
  cbv iota. change (Ascii.eqb "[" "{") with false.
  change (Ascii.eqb "[" "[") with true. change (Ascii.eqb "{" "{") with true.
  cbv iota. rewrite H. split; reflexivity.
Qed.

Lemma parse_value_array (f : nat) (depth : Z) (c : ascii) (r : string) :
  depth < maxNestingDepth -> value_start c = true ->
  parse_value (S f) depth (String "[" (String c r))
  = '(vs, t) ← parse_elements f (depth + 1) (String c r) [];
    Some (JArray vs, t).
Proof.
  intros H Hc. apply Z.ltb_lt in H.
  cbn [parse_value skip_space].
  change (is_space "[") with false. cbv iota.
  change (Ascii.eqb "[" "{") with false.
  change (Ascii.eqb "[" "[") with true. cbv iota. rewrite H.
  bytes c; vm_compute in Hc; try discriminate Hc; reflexivity.
Qed.

Lemma parse_value_object (f : nat) (depth : Z) (r : string) :
  depth < maxNestingDepth ->
  parse_value (S f) depth (String "{" (String dq r))
  = '(ms, t) ← parse_members f (depth + 1) (String dq r) [];
    Some (JObject ms, t).
Proof.
  intros H. apply Z.ltb_lt in H.
  cbn [parse_value skip_space].
  change (is_space "{") with false. cbv iota.
  change (Ascii.eqb "{" "{") with true. cbv iota. rewrite H.
  reflexivity.
Qed.

Lemma parse_elements_comma (f : nat) (depth : Z) (s r : string)
    (x : json) (acc : list json) :
  parse_value f depth s = Some (x, String "," r) ->
  parse_elements (S f) depth s acc = parse_elements f depth r (x :: acc).
Proof. intros H. cbn [parse_elements]. rewrite H. reflexivity. Qed.

Lemma parse_elements_close (f : nat) (depth : Z) (s r : string)
    (x : json) (acc : list json) :
  parse_value f depth s = Some (x, String "]" r) ->
  parse_elements (S f) depth s acc = Some (rev (x :: acc), r).
Proof. intros H. cbn [parse_elements]. rewrite H. reflexivity. Qed.

Lemma parse_members_comma (f : nat) (depth : Z) (r raw r2 r4 : string)
    (v : json) (acc : list (string * json)) :
  lex_string r = Some (raw, String ":" r2) ->
  parse_value f depth r2 = Some (v, String "," r4) ->
  parse_members (S f) depth (String dq r) acc
  = parse_members f depth r4 ((unquote raw, v) :: acc).
Proof.
  intros H1 H2. cbn [parse_members skip_space].
  change (is_space dq) with false. cbv iota.
  change (Ascii.eqb dq dq) with true. cbv iota.
  rewrite H1. cbn [mbind option_bind skip_space].
  change (is_space ":") with false. cbv iota. rewrite H2. reflexivity.
Qed.

Lemma parse_members_close (f : nat) (depth : Z) (r raw r2 r4 : string)
    (v : json) (acc : list (string * json)) :
  lex_string r = Some (raw, String ":" r2) ->
  parse_value f depth r2 = Some (v, String "}" r4) ->
  parse_members (S f) depth (String dq r) acc
  = Some (rev ((unquote raw, v) :: acc), r4).
Proof.
  intros H1 H2. cbn [parse_members skip_space].
  change (is_space dq) with false. cbv iota.
  change (Ascii.eqb dq dq) with true. cbv iota.
  rewrite H1. cbn [mbind option_bind skip_space].
  change (is_space ":") with false. cbv iota. rewrite H2. reflexivity.
Qed.

(** *** Documents *)

Lemma json_ind_nested (P : json -> Prop) :
  P JNull ->
  (forall b, P (JBool b)) ->
  (forall lit, P (JNumber lit)) ->
  (forall s, P (JString s)) ->
  (forall l, Forall P l -> P (JArray l)) ->
  (forall ms, Forall (fun kv : string * json => P kv.2) ms -> P (JObject ms)) ->
  forall j, P j.
Proof.
  intros Hnull Hbool Hnumber Hstring Harray Hobject j.
  remember (json_size j) as n eqn:Hn. revert j Hn.
  induction n as [n IH] using lt_wf_ind. intros j ->.
  destruct j as [ |b|lit|s|l|ms]; auto.
  - apply Harray, Forall_forall. intros x Hx.
    apply (IH (json_size x)); [|reflexivity]. cbn.
    apply Nat.lt_succ_r, sum_list_elem, list_elem_of_fmap. eauto.
  - apply Hobject, Forall_forall. intros [k v] Hx.
    apply (IH (json_size v)); [|reflexivity]. cbn.
    apply Nat.lt_succ_r, sum_list_elem, list_elem_of_fmap.
    exists (k, v). split; [reflexivity|assumption].
Qed.

Lemma concat_with_cons (sep x : string) (r : list string) :
  r <> [] -> concat_with sep (x :: r) = x ++ sep ++ concat_with sep r.
Proof. destruct r; [congruence|reflexivity]. Qed.

Lemma quote_app (k t : string) :
  quote k ++ t = String dq (quote_go (slen k) k ++ String dq t).
Proof.
  unfold quote, str1. now rewrite append_cons, append_assoc.
Qed.

Lemma bracket_app (o cl : ascii) (body rest : string) :
  (String o "" ++ body ++ String cl "") ++ rest
  = String o (body ++ String cl rest).
Proof.
  now rewrite append_cons, append_nil_l, append_cons, append_assoc.
Qed.

Lemma json_print_head (j : json) :
  json_texts_ok j = true ->
  exists c r, json_print j = String c r /\ value_start c = true.
Proof.
  intros Hok. destruct j as [ |[]|lit|s|l|ms]; cbn [json_print];
    try (eexists _, _; split; reflexivity).
  cbn [json_texts_ok] in Hok.
  destruct (number_ok_head lit Hok) as (c & r & -> & Hc).
  exists c, r. split; [reflexivity|]. unfold value_start.
  apply orb_true_iff in Hc. rewrite !orb_true_iff. tauto.
Qed.

Lemma height_elem (x : json) (l : list json) :
  x ∈ l ->
  json_height x <= fold_right (fun x h => Z.max (json_height x) h) 0 l.
Proof. induction 1 as [x l|x y l _ IH]; cbn [fold_right]; lia. Qed.

Lemma height_member (k : string) (v : json) (ms : list (string * json)) :
  (k, v) ∈ ms ->
  json_height v
  <= fold_right (fun (kv : string * json) h => Z.max (json_height (snd kv)) h)
       0 ms.
Proof.
  intros H. remember (k, v) as kv eqn:E. revert E.
  induction H as [x l|x y l _ IH]; intros ->; cbn [fold_right snd];
    [lia|]. specialize (IH eq_refl). lia.
Qed.

Lemma height_nonneg {A} (h : A -> Z) (l : list A) :
  0 <= fold_right (fun x acc => Z.max (h x) acc) 0 l.
Proof. induction l; cbn [fold_right]; lia. Qed.

Lemma parse_elements_print (depth : Z) (l : list json) :
  (forall x, x ∈ l -> reads depth x) -> l <> [] ->
  forall acc fuel rest,
    (2 * slen (concat_with "," (map json_print l)) + 2 <= fuel)%nat ->
    parse_elements fuel depth
      (concat_with "," (map json_print l) ++ String "]" rest) acc
    = Some (app (rev acc) l, rest).
Proof.
  induction l as [|x l IH]; intros Hx Hne acc fuel rest Hfuel;
    [congruence|].
  destruct fuel as [|f]; [lia|].
  assert (Hrx : reads depth x) by (apply Hx; left).
  destruct l as [|y l].
  - cbn [map concat_with] in *.
    rewrite (parse_elements_close f depth _ rest x acc); [reflexivity|].
    apply Hrx; [reflexivity|lia].
  - change (map json_print (x :: y :: l))
      with (json_print x :: map json_print (y :: l)) in *.
    rewrite concat_with_cons in * by discriminate.
    rewrite !slen_app, ?slen_cons in Hfuel;
      change (slen "") with 0%nat in Hfuel. rewrite !append_assoc.
    rewrite append_cons, append_nil_l.
    rewrite (parse_elements_comma f depth _
               (concat_with "," (map json_print (y :: l))
                ++ String "]" rest) x acc).
    + rewrite IH; [|intros z Hz; apply Hx; now right|discriminate|lia].
      cbn [rev]. now rewrite <- app_assoc.
    + apply Hrx; [reflexivity|lia].
Qed.

Lemma parse_members_print (depth : Z) (ms : list (string * json)) :
  (forall k v, (k, v) ∈ ms -> utf8_valid k = true /\ reads depth v) ->
  ms <> [] ->
  forall acc fuel rest,
    (2 * slen (concat_with ","
                 (map (fun kv : string * json =>
                         quote kv.1 ++ ":" ++ json_print kv.2) ms)) + 2
     <= fuel)%nat ->
    parse_members fuel depth
      (concat_with ","
         (map (fun kv : string * json =>
                 quote kv.1 ++ ":" ++ json_print kv.2) ms)
       ++ String "}" rest) acc
    = Some (app (rev acc) ms, rest).
Proof.
  induction ms as [|[k v] ms IH]; intros Hx Hne acc fuel rest Hfuel;
    [congruence|].
  destruct fuel as [|f]; [lia|].
  destruct (Hx k v) as [Hk Hv]; [left|].
  destruct ms as [|kv ms].
  - cbn [map concat_with fst snd] in *.
    rewrite !slen_app, ?slen_cons in Hfuel;
      change (slen "") with 0%nat in Hfuel.
    rewrite !append_assoc, quote_app, append_cons, append_nil_l.
    rewrite (parse_members_close f depth _ (quote_go (slen k) k)
               (json_print v ++ String "}" rest) rest v acc).
    + now rewrite unquote_quote.
    + now apply lex_string_quote.
    + apply Hv; [reflexivity|lia].
  - change (map ?F ((k, v) :: kv :: ms))
      with (F (k, v) :: map F (kv :: ms)) in *.
    rewrite concat_with_cons in * by discriminate. cbn [fst snd] in *.
    rewrite !slen_app, ?slen_cons in Hfuel;
      change (slen "") with 0%nat in Hfuel.
    rewrite !append_assoc, quote_app.
    rewrite (append_cons ":"), append_nil_l.
    rewrite (append_cons ","), append_nil_l.
    match goal with
    | |- context [String "," ?r4] =>
        rewrite (parse_members_comma f depth _ (quote_go (slen k) k)
                   (json_print v ++ String "," r4) r4 v acc)
    end.
    + rewrite IH; [|intros k' v' Hz; apply Hx; now right|discriminate|lia].
      rewrite unquote_quote by exact Hk.
      cbn [rev]. now rewrite <- app_assoc.
    + now apply lex_string_quote.
    + apply Hv; [reflexivity|lia].
Qed.

(** What the encoder writes for a document, the parser reads as that
    document, whatever value end follows it. *)
Lemma parse_value_print (j : json) :
  forall fuel depth rest,
    json_texts_ok j = true ->
    depth + json_height j <= maxNestingDepth ->
    value_end rest = true ->
    (2 * slen (json_print j) + 1 <= fuel)%nat ->
    parse_value fuel depth (json_print j ++ rest) = Some (j, rest).
Proof.
  induction j as [ |b|lit|s|l IH|ms IH] using json_ind_nested;
    intros fuel depth rest Hok Hh Hrest Hfuel;
    (destruct fuel as [|f]; [lia|]).
  - apply parse_value_atoms.
  - destruct b; apply parse_value_atoms.
  - cbn [json_print json_texts_ok] in *.
    destruct (number_ok_head lit Hok) as (c & r & E & Hc).
    rewrite E at 1. rewrite append_cons, parse_value_number by exact Hc.
    rewrite <- append_cons, <- E, (number_ok_lex lit rest Hok Hrest).
    reflexivity.
  - cbn [json_print json_texts_ok] in *.
    rewrite quote_app, parse_value_string, lex_string_quote by exact Hok.
    cbn [mbind option_bind]. now rewrite unquote_quote.
  - cbn [json_height] in Hh.
    pose proof (height_nonneg json_height l) as Hnn.
    destruct l as [|x l]; [apply parse_value_empty; lia|].
    cbn [json_texts_ok] in Hok.
    assert (Hall : forall y, y ∈ x :: l -> json_texts_ok y = true).
    { intros y Hy. apply (proj1 (forallb_forall _ _) Hok).
      now apply list_elem_of_In. }
    cbn [json_print] in *. rewrite bracket_app.
    rewrite !slen_app, ?slen_cons in Hfuel;
      change (slen "") with 0%nat in Hfuel.
    destruct (json_print_head x) as (c & r & Hx & Hc); [apply Hall; left|].
    assert (Hhead : exists r',
               concat_with "," (map json_print (x :: l)) ++ String "]" rest
               = String c r').
    { destruct l; cbn [map concat_with]; rewrite Hx, ?append_cons; eauto. }
    destruct Hhead as [r' Hr']. rewrite Hr'.
    rewrite parse_value_array by (exact Hc || lia). rewrite <- Hr'.
    rewrite (parse_elements_print (depth + 1) (x :: l));
      [reflexivity| |discriminate|lia].
    intros y Hy fuel' rest' Hrest' Hfuel'.
    apply (proj1 (Forall_forall _ _) IH y Hy); auto.
    pose proof (height_elem y _ Hy). lia.
  - cbn [json_height] in Hh.
    pose proof (height_nonneg (fun kv : string * json => json_height (snd kv))
                  ms) as Hnn.
    destruct ms as [|[k v] ms]; [apply parse_value_empty; lia|].
    cbn [json_texts_ok] in Hok.
    assert (Hall : forall k' v', (k', v') ∈ (k, v) :: ms ->
               utf8_valid k' = true /\ json_texts_ok v' = true).
    { intros k' v' Hy. apply andb_prop.
      apply (proj1 (forallb_forall _ _) Hok (k', v')).
      now apply list_elem_of_In. }
    cbn [json_print] in *. rewrite bracket_app.
    rewrite !slen_app, ?slen_cons in Hfuel;
      change (slen "") with 0%nat in Hfuel.
    match goal with
    | |- context [concat_with "," ?t ++ String "}" rest] =>
        assert (Hhead : exists r',
                   concat_with "," t ++ String "}" rest = String dq r')
    end.
    { destruct ms; cbn [map concat_with fst]; unfold quote at 1;
        rewrite ?append_cons; eauto. }
    destruct Hhead as [r' Hr']. rewrite Hr'.
    rewrite parse_value_object by lia. rewrite <- Hr'.
    rewrite (parse_members_print (depth + 1) ((k, v) :: ms));
      [reflexivity| |discriminate|lia].
    intros k' v' Hy. destruct (Hall k' v' Hy) as [Hk' Hv']. split; [easy|].
    intros fuel' rest' Hrest' Hfuel'.
    apply (proj1 (Forall_forall _ _) IH (k', v') Hy); auto.
    pose proof (height_member k' v' _ Hy). cbn [snd]. lia.
Qed.

(** A well-formed document is what its text parses to. *)
Lemma json_parse_print (j : json) :
  wf_json j = true -> json_parse (json_print j) = Some j.
Proof.
  unfold wf_json. intros H. apply andb_prop in H as [Hok Hh].
  apply Z.leb_le in Hh.
  unfold json_parse, json_first_value.
  rewrite <- (append_nil_r (json_print j)) at 2.
  rewrite (parse_value_print j _ 0 "" Hok); [reflexivity|lia|reflexivity|].
  unfold parse_fuel. lia.
Qed.

(** C8, as amended: a contact in which no slice or map is empty without
    being nil, whose timestamps and custom fields come back from their
    own encodings, and whose encoding is a well-formed document (strings
    in UTF-8, numbers written as number literals, nesting within the
    scanner's limit), is what decoding its encoding yields. *)
Theorem Contact_roundtrip_valid `{Platform} (c : Contact) :
  Contact_valid c ->
  Contact_well_formed c ->
  Contact_roundtrip c = Some (c, None).
Proof.
  intros Hvalid Hwf. unfold Contact_well_formed in Hwf.
  destruct (enc_Contact c) as [doc|] eqn:Henc; [|contradiction].
  unfold Contact_roundtrip, json_Marshal, to_json, Marshal_Contact.
  cbn [enc_ptr]. rewrite Henc. cbn.
  unfold Unmarshal_Contact_text. rewrite (json_parse_print doc Hwf).
  now rewrite (enc_Contact_decode c doc Hvalid Henc).
Qed.

Lemma Contact_roundtrip_valid_witness :
  Contact_roundtrip contact_ann = Some (contact_ann, None).
Proof.
  apply (@Contact_roundtrip_valid example_platform contact_ann).
  - repeat split; try reflexivity; vm_compute; congruence.
  - vm_compute. reflexivity.
Defined.

(** C8, as stated, fails: [omitempty] drops a slice that is empty, and
    the decoder leaves the field nil.  The record encodes without error
    and its text is valid JSON; what comes back is another record. *)
Lemma Contact_roundtrip_loses_empty_slice :
  json_Marshal (Some contact_with_empty_tags)
    = Some (js "{'active':false,'view_all_tickets':false,'name':''}") /\
  Contact_roundtrip contact_with_empty_tags = Some (Contact.zero, None) /\
  Contact.Tags contact_with_empty_tags = Some [] /\
  Contact.Tags (@Contact.zero example_platform) = None /\
  contact_with_empty_tags <> Contact.zero.
Proof.
  repeat split. discriminate.
Qed.

(** Why the strings must be UTF-8: a name that is not is written as
    U+FFFD. *)
Example Contact_roundtrip_invalid_utf8 :
  Contact.Name <$> (fst <$> Contact_roundtrip contact_bad_name)
  = Some replacement.
Proof. reflexivity. Qed.

(** Why the custom fields must be of the kinds the decoder stores: an
    [int] comes back as a [float64]. *)
Example Contact_roundtrip_int :
  Contact.CustomFields <$> (fst <$> Contact_roundtrip contact_int)
  = Some (Some {[ "level" := DFloat64 (float64_of_Z 5) ]}).
Proof. reflexivity. Qed.

(** Why the custom fields must come back: NaN has no encoding at all. *)
Example Contact_roundtrip_nan :
  Contact_roundtrip contact_nan = None.
Proof. reflexivity. Qed.

(* ================================================================== *)
(** ** Theorems: the parser *)

Lemma parse_value_eq (f : nat) (depth : Z) (s : string) :
  parse_value (S f) depth s
  = match skip_space s with
    | EmptyString => None
    | String c r =>
        if Ascii.eqb c "{" then
          if depth <? maxNestingDepth then
            match after "}" (skip_space r) with
            | Some r' => Some (JObject [], r')
            | None => '(ms, t) ← parse_members f (depth + 1) r [];
                      Some (JObject ms, t)
            end
          else None
        else if Ascii.eqb c "[" then
          if depth <? maxNestingDepth then
            match after "]" (skip_space r) with
            | Some r' => Some (JArray [], r')
            | None => '(vs, t) ← parse_elements f (depth + 1) r [];
                      Some (JArray vs, t)
            end
          else None
        else if Ascii.eqb c dq then
          '(raw, t) ← lex_string r; Some (JString (unquote raw), t)
        else if Ascii.eqb c "-" || is_digit c then
          '(lit, t) ← lex_number (String c r); Some (JNumber lit, t)
        else if Ascii.eqb c "t" then
          t ← strip_prefix lit_true (String c r); Some (JBool true, t)
        else if Ascii.eqb c "f" then
          t ← strip_prefix lit_false (String c r); Some (JBool false, t)
        else if Ascii.eqb c "n" then
          t ← strip_prefix lit_null (String c r); Some (JNull, t)
        else None
    end.
Proof.
  cbn [parse_value]. destruct (skip_space s) as [|c r]; [reflexivity|].
  destruct (Ascii.eqb c "{").
  { destruct (depth <? maxNestingDepth); [|reflexivity].
    destruct (skip_space r) as [|c' r']; [reflexivity|].
    bytes c'; reflexivity. }
  destruct (Ascii.eqb c "["); [|reflexivity].
  destruct (depth <? maxNestingDepth); [|reflexivity].
  destruct (skip_space r) as [|c' r']; [reflexivity|].
  bytes c'; reflexivity.
Qed.

Lemma parse_elements_eq (f : nat) (depth : Z) (s : string)
    (acc : list json) :
  parse_elements (S f) depth s acc
  = '(v, r) ← parse_value f depth s;
    match skip_space r with
    | String c r' =>
        if Ascii.eqb c "," then parse_elements f depth r' (v :: acc)
        else if Ascii.eqb c "]" then Some (rev (v :: acc), r')
        else None
    | EmptyString => None
    end.
Proof.
  cbn [parse_elements].
  destruct (parse_value f depth s) as [[v r]|]; [|reflexivity].
  cbn [mbind option_bind]. destruct (skip_space r) as [|c r'];
    [reflexivity|].
  bytes c; reflexivity.
Qed.

Lemma parse_members_eq (f : nat) (depth : Z) (s : string)
    (acc : list (string * json)) :
  parse_members (S f) depth s acc
  = match skip_space s with
    | String c r =>
        if Ascii.eqb c dq then
          '(raw, r1) ← lex_string r;
          match after ":" (skip_space r1) with
          | Some r2 =>
              '(v, r3) ← parse_value f depth r2;
              match skip_space r3 with
              | String c' r4 =>
                  if Ascii.eqb c' "," then
                    parse_members f depth r4 ((unquote raw, v) :: acc)
                  else if Ascii.eqb c' "}" then
                    Some (rev ((unquote raw, v) :: acc), r4)
                  else None
              | EmptyString => None
              end
          | None => None
          end
        else None
    | EmptyString => None
    end.
Proof.
  cbn [parse_members]. destruct (skip_space s) as [|c r]; [reflexivity|].
  destruct (Ascii.eqb c dq); [|reflexivity].
  destruct (lex_string r) as [[raw r1]|]; [|reflexivity].
  cbn [mbind option_bind].
  destruct (skip_space r1) as [|c1 r2]; [reflexivity|].
  bytes c1; try reflexivity.
  cbn [after]. change (Ascii.eqb ":" ":") with true. cbv iota.
  destruct (parse_value f depth r2) as [[v r3]|]; [|reflexivity].
  cbn [mbind option_bind].
  destruct (skip_space r3) as [|c' r4]; [reflexivity|].
  bytes c'; reflexivity.
Qed.

(** *** How much of the text each step consumes *)

Lemma slen_skip_space (s : string) : (slen (skip_space s) <= slen s)%nat.
Proof.
  induction s as [|c s IH]; [reflexivity|]. cbn [skip_space].
  destruct (is_space c); rewrite ?slen_cons; lia.
Qed.

Lemma skip_space_cons (s : string) (c : ascii) (r : string) :
  skip_space s = String c r -> (slen r < slen s)%nat.
Proof.
  intros H. pose proof (slen_skip_space s) as L. rewrite H, slen_cons in L.
  lia.
Qed.

Lemma slen_take_digits (s d t : string) :
  take_digits s = (d, t) -> (slen t <= slen s)%nat.
Proof.
  revert d t. induction s as [|c s IH]; intros d t H; cbn [take_digits] in H.
  - now injection H as <- <-.
  - destruct (is_digit c).
    + destruct (take_digits s) as [d' t']. injection H as <- <-.
      specialize (IH d' t' eq_refl). rewrite slen_cons. lia.
    + now injection H as <- <-.
Qed.

Lemma slen_lex_number (s lit t : string) :
  lex_number s = Some (lit, t) -> (slen t < slen s)%nat.
Proof.
  rewrite lex_number_eq. intros H.
  assert (Hchain : forall sg s1,
             ('(i, s2) ← lex_int s1; '(f, s3) ← lex_frac s2;
              '(e, s4) ← lex_exp s3; Some (sg ++ i ++ f ++ e, s4))
             = Some (lit, t) -> (slen t < slen s1)%nat).
  { clear H. intros sg s1 H.
    destruct (lex_int s1) as [[i s2]|] eqn:Hi; [|discriminate].
    cbn [mbind option_bind] in H.
    destruct (lex_frac s2) as [[f s3]|] eqn:Hf; [|discriminate].
    cbn [mbind option_bind] in H.
    destruct (lex_exp s3) as [[e s4]|] eqn:He; [|discriminate].
    cbn [mbind option_bind] in H. injection H as _ <-.
    assert (slen s2 < slen s1)%nat.
    { destruct s1 as [|c r]; [discriminate|]. cbn [lex_int] in Hi.
      rewrite slen_cons.
      destruct (Ascii.eqb c "0"); [injection Hi as _ <-; lia|].
      destruct (is_digit19 c); [|discriminate].
      destruct (take_digits r) as [d' t'] eqn:Hd. injection Hi as _ <-.
      apply slen_take_digits in Hd. lia. }
    assert (slen s3 <= slen s2)%nat.
    { rewrite lex_frac_eq in Hf. destruct s2 as [|c r];
        [injection Hf as _ <-; lia|].
      destruct (Ascii.eqb c "."); [|injection Hf as _ <-; lia].
      destruct (take_digits r) as [d' t'] eqn:Hd.
      apply slen_take_digits in Hd. rewrite slen_cons.
      destruct d'; [discriminate|]. injection Hf as _ <-. lia. }
    assert (slen s4 <= slen s3)%nat.
    { rewrite lex_exp_eq in He. destruct s3 as [|c r];
        [injection He as _ <-; lia|].
      destruct (Ascii.eqb c "e" || Ascii.eqb c "E");
        [|injection He as _ <-; lia].
      assert (Hd : forall sg' r1,
                 match take_digits r1 with
                 | (EmptyString, _) => None
                 | (d, t) => Some (String c (sg' ++ d), t)
                 end = Some (e, s4) ->
                 (slen r1 <= slen r)%nat ->
                 (slen s4 <= slen (String c r))%nat).
      { intros sg' r1 H1 L. destruct (take_digits r1) as [d' t'] eqn:Hd.
        apply slen_take_digits in Hd. rewrite slen_cons.
        destruct d'; [discriminate|]. injection H1 as _ <-. lia. }
      destruct r as [|c' r']; [discriminate|].
      destruct (Ascii.eqb c' "+");
        [apply (Hd _ _ He); rewrite slen_cons; lia|].
      destruct (Ascii.eqb c' "-");
        [apply (Hd _ _ He); rewrite slen_cons; lia|].
      apply (Hd _ _ He). lia. }
    lia. }
  destruct s as [|c r]; [discriminate|].
  destruct (Ascii.eqb c "-").
  - apply Hchain in H. rewrite slen_cons. lia.
  - apply Hchain in H. exact H.
Qed.

Lemma slen_lex_string (n : nat) :
  forall r raw t,
    (slen r <= n)%nat -> lex_string r = Some (raw, t) ->
    (slen t < slen r)%nat.
Proof.
  induction n as [|n IH]; intros r raw t L H;
    (destruct r as [|c r]; [discriminate|]); rewrite slen_cons in *;
    [lia|].
  cbn [lex_string] in H.
  destruct (Ascii.eqb c dq); [injection H as _ <-; lia|].
  destruct (Ascii.eqb c bs).
  - destruct r as [|e r2]; [discriminate|]. rewrite slen_cons in *.
    destruct (Ascii.eqb e "u").
    + destruct r2 as [|h1 [|h2 [|h3 [|h4 r3]]]]; try discriminate.
      rewrite !slen_cons in *.
      destruct (is_hex h1 && is_hex h2 && is_hex h3 && is_hex h4);
        [|discriminate].
      destruct (lex_string r3) as [[raw' t']|] eqn:E; [|discriminate].
      cbn [mbind option_bind] in H. injection H as _ <-.
      apply IH in E; lia.
    + destruct (is_simple_escape e); [|discriminate].
      destruct (lex_string r2) as [[raw' t']|] eqn:E; [|discriminate].
      cbn [mbind option_bind] in H. injection H as _ <-.
      apply IH in E; lia.
  - destruct (code c <? 32); [discriminate|].
    destruct (lex_string r) as [[raw' t']|] eqn:E; [|discriminate].
    cbn [mbind option_bind] in H. injection H as _ <-.
    apply IH in E; lia.
Qed.

Lemma slen_strip_prefix (p s t : string) :
  strip_prefix p s = Some t -> (slen t + slen p = slen s)%nat.
Proof.
  unfold strip_prefix. destruct (String.prefix p s) eqn:E; [|discriminate].
  intros [= <-]. rewrite slen_sdrop.
  enough (slen p <= slen s)%nat by lia.
  clear -E. revert s E. induction p as [|a p IH]; intros s E.
  - cbn. lia.
  - destruct s as [|b s]; [discriminate|]. cbn [String.prefix] in E.
    destruct (ascii_dec a b); [|discriminate].
    rewrite !slen_cons. apply IH in E. lia.
Qed.

Lemma after_cons (c : ascii) (s r : string) :
  after c s = Some r -> s = String c r.
Proof.
  destruct s as [|c' r']; [discriminate|]. cbn [after].
  destruct (Ascii.eqb_spec c' c); [|discriminate]. now intros [= <-]; subst.
Qed.

(** *** Fuel

    A parse that succeeds with some fuel succeeds, with the same result,
    with any fuel of at least twice the number of bytes it consumes. *)
Lemma parse_fuel_enough (f : nat) :
  (forall d s j r,
      parse_value f d s = Some (j, r) ->
      (slen r < slen s)%nat /\
      forall f', (2 * (slen s - slen r) <= f' + 1)%nat ->
                 parse_value f' d s = Some (j, r)) /\
  (forall d s acc l r,
      parse_elements f d s acc = Some (l, r) ->
      (slen r < slen s)%nat /\
      forall f', (2 * (slen s - slen r) <= f')%nat ->
                 parse_elements f' d s acc = Some (l, r)) /\
  (forall d s acc l r,
      parse_members f d s acc = Some (l, r) ->
      (slen r < slen s)%nat /\
      forall f', (2 * (slen s - slen r) <= f')%nat ->
                 parse_members f' d s acc = Some (l, r)).
Proof.
  induction f as [|f (IHv & IHe & IHm)]; [repeat split; discriminate|].
  split; [|split].
  - intros d s j r H. rewrite parse_value_eq in H.
    destruct (skip_space s) as [|c r0] eqn:Hs; [discriminate|].
    pose proof (skip_space_cons s c r0 Hs) as L0.
    destruct (Ascii.eqb c "{") eqn:E1.
    { destruct (d <? maxNestingDepth) eqn:Hd; [|discriminate].
      destruct (after "}" (skip_space r0)) as [r'|] eqn:Ha.
      - injection H as <- <-. pose proof (after_cons _ _ _ Ha) as Ha'.
        apply skip_space_cons in Ha'. split; [lia|].
        intros [|f'] B; [lia|].
        now rewrite parse_value_eq, Hs, E1, Hd, Ha.
      - destruct (parse_members f (d + 1) r0 []) as [[ms t]|] eqn:Hm;
          [|discriminate].
        cbn [mbind option_bind] in H. injection H as <- <-.
        destruct (IHm _ _ _ _ _ Hm) as [L K]. split; [lia|].
        intros [|f'] B; [lia|].
        rewrite parse_value_eq, Hs, E1, Hd, Ha, (K f') by lia.
        reflexivity. }
    destruct (Ascii.eqb c "[") eqn:E2.
    { destruct (d <? maxNestingDepth) eqn:Hd; [|discriminate].
      destruct (after "]" (skip_space r0)) as [r'|] eqn:Ha.
      - injection H as <- <-. pose proof (after_cons _ _ _ Ha) as Ha'.
        apply skip_space_cons in Ha'. split; [lia|].
        intros [|f'] B; [lia|].
        now rewrite parse_value_eq, Hs, E1, E2, Hd, Ha.
      - destruct (parse_elements f (d + 1) r0 []) as [[vs t]|] eqn:Hm;
          [|discriminate].
        cbn [mbind option_bind] in H. injection H as <- <-.
        destruct (IHe _ _ _ _ _ Hm) as [L K]. split; [lia|].
        intros [|f'] B; [lia|].
        rewrite parse_value_eq, Hs, E1, E2, Hd, Ha, (K f') by lia.
        reflexivity. }
    destruct (Ascii.eqb c dq) eqn:E3.
    { destruct (lex_string r0) as [[raw t]|] eqn:Hl; [|discriminate].
      cbn [mbind option_bind] in H. injection H as <- <-.
      pose proof (slen_lex_string _ _ _ _ (le_n _) Hl). split; [lia|].
      intros [|f'] B; [lia|].
      now rewrite parse_value_eq, Hs, E1, E2, E3, Hl. }
    destruct (Ascii.eqb c "-" || is_digit c) eqn:E4.
    { destruct (lex_number (String c r0)) as [[lit t]|] eqn:Hl;
        [|discriminate].
      cbn [mbind option_bind] in H. injection H as <- <-.
      pose proof (slen_lex_number _ _ _ Hl) as L. rewrite slen_cons in L.
      split; [lia|]. intros [|f'] B; [lia|].
      now rewrite parse_value_eq, Hs, E1, E2, E3, E4, Hl. }
    destruct (Ascii.eqb c "t") eqn:E5.
    { destruct (strip_prefix lit_true (String c r0)) as [t|] eqn:Hl;
        [|discriminate].
      cbn [mbind option_bind] in H. injection H as <- <-.
      pose proof (slen_strip_prefix _ _ _ Hl) as L.
      rewrite slen_cons in L. change (slen lit_true) with 4%nat in L.
      split; [lia|]. intros [|f'] B; [lia|].
      now rewrite parse_value_eq, Hs, E1, E2, E3, E4, E5, Hl. }
    destruct (Ascii.eqb c "f") eqn:E6.
    { destruct (strip_prefix lit_false (String c r0)) as [t|] eqn:Hl;
        [|discriminate].
      cbn [mbind option_bind] in H. injection H as <- <-.
      pose proof (slen_strip_prefix _ _ _ Hl) as L.
      rewrite slen_cons in L. change (slen lit_false) with 5%nat in L.
      split; [lia|]. intros [|f'] B; [lia|].
      now rewrite parse_value_eq, Hs, E1, E2, E3, E4, E5, E6, Hl. }
    destruct (Ascii.eqb c "n") eqn:E7; [|discriminate].
    destruct (strip_prefix lit_null (String c r0)) as [t|] eqn:Hl;
      [|discriminate].
    cbn [mbind option_bind] in H. injection H as <- <-.
    pose proof (slen_strip_prefix _ _ _ Hl) as L.
    rewrite slen_cons in L. change (slen lit_null) with 4%nat in L.
    split; [lia|]. intros [|f'] B; [lia|].
    now rewrite parse_value_eq, Hs, E1, E2, E3, E4, E5, E6, E7, Hl.
  - intros d s acc l r H. rewrite parse_elements_eq in H.
    destruct (parse_value f d s) as [[v r1]|] eqn:Hv; [|discriminate].
    cbn [mbind option_bind] in H. destruct (IHv _ _ _ _ Hv) as [L1 K1].
    destruct (skip_space r1) as [|c r'] eqn:Hs1; [discriminate|].
    pose proof (skip_space_cons _ _ _ Hs1) as L2.
    destruct (Ascii.eqb c ",") eqn:E1.
    + destruct (IHe _ _ _ _ _ H) as [L3 K3]. split; [lia|].
      intros [|f'] B; [lia|].
      rewrite parse_elements_eq, (K1 f') by lia.
      cbn [mbind option_bind]. rewrite Hs1, E1. apply K3. lia.
    + destruct (Ascii.eqb c "]") eqn:E2; [|discriminate].
      injection H as <- <-. split; [lia|]. intros [|f'] B; [lia|].
      rewrite parse_elements_eq, (K1 f') by lia.
      cbn [mbind option_bind]. now rewrite Hs1, E1, E2.
  - intros d s acc l r H. rewrite parse_members_eq in H.
    destruct (skip_space s) as [|c r0] eqn:Hs; [discriminate|].
    pose proof (skip_space_cons s c r0 Hs) as L0.
    destruct (Ascii.eqb c dq) eqn:E0; [|discriminate].
    destruct (lex_string r0) as [[raw r1]|] eqn:Hl; [|discriminate].
    cbn [mbind option_bind] in H.
    pose proof (slen_lex_string _ _ _ _ (le_n _) Hl) as L1.
    destruct (after ":" (skip_space r1)) as [r2|] eqn:Ha; [|discriminate].
    pose proof (after_cons _ _ _ Ha) as Ha'.
    apply skip_space_cons in Ha'.
    destruct (parse_value f d r2) as [[v r3]|] eqn:Hv; [|discriminate].
    cbn [mbind option_bind] in H. destruct (IHv _ _ _ _ Hv) as [L3 K3].
    destruct (skip_space r3) as [|c' r4] eqn:Hs3; [discriminate|].
    pose proof (skip_space_cons _ _ _ Hs3) as L4.
    destruct (Ascii.eqb c' ",") eqn:E1.
    + destruct (IHm _ _ _ _ _ H) as [L5 K5]. split; [lia|].
      intros [|f'] B; [lia|].
      rewrite parse_members_eq, Hs, E0, Hl. cbn [mbind option_bind].
      rewrite Ha, (K3 f') by lia. cbn [mbind option_bind].
      rewrite Hs3, E1. apply K5. lia.
    + destruct (Ascii.eqb c' "}") eqn:E2; [|discriminate].
      injection H as <- <-. split; [lia|]. intros [|f'] B; [lia|].
      rewrite parse_members_eq, Hs, E0, Hl. cbn [mbind option_bind].
      rewrite Ha, (K3 f') by lia. cbn [mbind option_bind].
      now rewrite Hs3, E1, E2.
Qed.

(** A text parses with the fuel that [json_parse] gives it whenever it
    parses with any fuel. *)
Lemma json_first_value_fuel (f : nat) (s : string) (j : json) (r : string) :
  parse_value f 0 s = Some (j, r) -> json_first_value s = Some (j, r).
Proof.
  intros H. destruct (parse_fuel_enough f) as (Hv & _).
  destruct (Hv _ _ _ _ H) as [_ K]. apply K. unfold parse_fuel. lia.
Qed.

(* ================================================================== *)
(** ** Theorems: white-space removal *)

Lemma strip_skip_space (s : string) :
  strip_space false false (skip_space s) = strip_space false false s.
Proof.
  induction s as [|c s IH]; [reflexivity|]. cbn [skip_space strip_space].
  destruct (is_space c) eqn:E; [exact IH|]. cbn [strip_space].
  now rewrite E.
Qed.

Lemma skip_space_strip (s : string) :
  skip_space (strip_space false false s) = strip_space false false s.
Proof.
  induction s as [|c s IH]; [reflexivity|]. cbn [strip_space].
  destruct (is_space c) eqn:E; [exact IH|]. cbn [skip_space].
  now rewrite E.
Qed.

Lemma skip_space_head (s : string) (c : ascii) (r : string) :
  skip_space s = String c r -> is_space c = false.
Proof.
  induction s as [|a s IH]; [discriminate|]. cbn [skip_space].
  destruct (is_space a) eqn:E; [exact IH|]. now intros [= <- _].
Qed.

(** The text from its first byte that is not white space. *)
Lemma strip_from (s : string) (c : ascii) (r : string) :
  skip_space s = String c r ->
  strip_space false false s
  = String c (strip_space (Ascii.eqb c dq) false r).
Proof.
  intros H. rewrite <- strip_skip_space, H. cbn [strip_space].
  now rewrite (skip_space_head s c r H).
Qed.

Lemma strip_nothing (s : string) :
  skip_space s = "" -> strip_space false false s = "".
Proof. intros H. now rewrite <- strip_skip_space, H. Qed.

Lemma all_chars_app (p : ascii -> bool) (a b : string) :
  all_chars p (a ++ b) = all_chars p a && all_chars p b.
Proof.
  induction a as [|c a IH]; [reflexivity|].
  rewrite append_cons. cbn [all_chars]. now rewrite IH, andb_assoc.
Qed.

Lemma strip_plain (u x : string) :
  all_chars plain_byte u = true ->
  strip_space false false (u ++ x) = u ++ strip_space false false x.
Proof.
  induction u as [|c u IH]; intros H; [reflexivity|].
  cbn [all_chars] in H. apply andb_prop in H as [Hc Hu].
  unfold plain_byte in Hc. apply andb_prop in Hc as [H1 H2].
  apply negb_true_iff in H1, H2.
  rewrite !append_cons. cbn [strip_space]. now rewrite H1, H2, IH.
Qed.

Lemma strip_in_string (c : ascii) (r : string) :
  Ascii.eqb c bs = false -> Ascii.eqb c dq = false ->
  strip_space true false (String c r) = String c (strip_space true false r).
Proof. intros H1 H2. cbn [strip_space]. now rewrite H1, H2. Qed.

Lemma strip_escape (e : ascii) (r : string) :
  strip_space true false (String bs (String e r))
  = String bs (String e (strip_space true false r)).
Proof. reflexivity. Qed.

Lemma is_hex_plain (h : ascii) :
  is_hex h = true -> Ascii.eqb h bs = false /\ Ascii.eqb h dq = false.
Proof.
  intros H. bytes h; vm_compute in H; try discriminate H; now vm_compute.
Qed.

(** A string literal that the scanner accepts is copied up to its
    closing quote, and is read again whatever follows that quote. *)
Lemma lex_string_strip (n : nat) :
  forall r raw t,
    (slen r <= n)%nat -> lex_string r = Some (raw, t) ->
    strip_space true false r = raw ++ String dq (strip_space false false t)
    /\ forall x, lex_string (raw ++ String dq x) = Some (raw, x).
Proof.
  induction n as [|n IH]; intros r raw t L H;
    (destruct r as [|c r]; [discriminate|]); rewrite slen_cons in *;
    [lia|].
  cbn [lex_string] in H.
  destruct (Ascii.eqb_spec c dq) as [->|Hdq].
  { injection H as <- <-. split; [reflexivity|]. intros x. reflexivity. }
  apply Ascii.eqb_neq in Hdq.
  destruct (Ascii.eqb_spec c bs) as [->|Hbs].
  - destruct r as [|e r2]; [discriminate|]. rewrite slen_cons in *.
    destruct (Ascii.eqb e "u") eqn:Eu.
    + destruct r2 as [|h1 [|h2 [|h3 [|h4 r3]]]]; try discriminate.
      rewrite !slen_cons in *.
      destruct (is_hex h1 && is_hex h2 && is_hex h3 && is_hex h4) eqn:Eh;
        [|discriminate].
      destruct (lex_string r3) as [[raw' t']|] eqn:E; [|discriminate].
      cbn [mbind option_bind] in H. injection H as <- <-.
      destruct (IH r3 raw' t' ltac:(lia) E) as [IH1 IH2].
      pose proof Eh as Eh'.
      apply andb_prop in Eh' as [Eh' K4]. apply andb_prop in Eh' as [Eh' K3].
      apply andb_prop in Eh' as [K1 K2].
      destruct (is_hex_plain _ K1), (is_hex_plain _ K2),
        (is_hex_plain _ K3), (is_hex_plain _ K4).
      split.
      * rewrite strip_escape, !strip_in_string, IH1 by assumption.
        reflexivity.
      * intros x. rewrite !append_cons. cbn [lex_string].
        change (Ascii.eqb bs dq) with false.
        change (Ascii.eqb bs bs) with true. cbv iota.
        now rewrite Eu, Eh, IH2.
    + destruct (is_simple_escape e) eqn:Ee; [|discriminate].
      destruct (lex_string r2) as [[raw' t']|] eqn:E; [|discriminate].
      cbn [mbind option_bind] in H. injection H as <- <-.
      destruct (IH r2 raw' t' ltac:(lia) E) as [IH1 IH2]. split.
      * now rewrite strip_escape, IH1.
      * intros x. rewrite !append_cons. cbn [lex_string].
        change (Ascii.eqb bs dq) with false.
        change (Ascii.eqb bs bs) with true. cbv iota.
        now rewrite Eu, Ee, IH2.
  - apply Ascii.eqb_neq in Hbs.
    destruct (code c <? 32) eqn:E32; [discriminate|].
    destruct (lex_string r) as [[raw' t']|] eqn:E; [|discriminate].
    cbn [mbind option_bind] in H. injection H as <- <-.
    destruct (IH r raw' t' ltac:(lia) E) as [IH1 IH2]. split.
    + now rewrite strip_in_string, IH1.
    + intros x. rewrite !append_cons. cbn [lex_string].
      now rewrite Hdq, Hbs, E32, IH2.
Qed.

(** *** Number literals, whatever follows them *)

Lemma head_is_app (p : ascii -> bool) (a b : string) :
  head_is p (a ++ b) = match a with "" => head_is p b | _ => head_is p a end.
Proof. destruct a; reflexivity. Qed.

Lemma digits_plain (d : string) :
  all_chars is_digit d = true -> all_chars plain_byte d = true.
Proof.
  induction d as [|c d IH]; [reflexivity|]. cbn [all_chars].
  intros H. apply andb_prop in H as [Hc Hd]. rewrite (IH Hd), andb_true_r.
  clear -Hc. bytes c; vm_compute in Hc; try discriminate Hc; reflexivity.
Qed.

Lemma take_digits_stop (y : string) :
  head_is (fun c => negb (is_digit c)) y = true -> take_digits y = ("", y).
Proof.
  destruct y as [|c y]; [reflexivity|]. cbn [head_is take_digits].
  intros Hy. apply negb_true_iff in Hy. now rewrite Hy.
Qed.

Lemma take_digits_tail (s d t : string) :
  take_digits s = (d, t) ->
  s = d ++ t /\ all_chars is_digit d = true /\
  forall y, head_is (fun c => negb (is_digit c)) y = true ->
            take_digits (d ++ y) = (d, y).
Proof.
  revert d t. induction s as [|c s IH]; intros d t H; cbn [take_digits] in H.
  - injection H as <- <-. repeat split. intros y Hy.
    rewrite append_nil_l. now apply take_digits_stop.
  - destruct (is_digit c) eqn:Ec.
    + destruct (take_digits s) as [d' t'].
      destruct (IH d' t' eq_refl) as (-> & Hp & Ht). injection H as <- <-.
      repeat split.
      * cbn [all_chars]. now rewrite Ec, Hp.
      * intros y Hy. rewrite append_cons. cbn [take_digits].
        now rewrite Ec, (Ht y Hy).
    + injection H as <- <-. repeat split. intros y Hy.
      rewrite append_nil_l. now apply take_digits_stop.
Qed.

Lemma lex_int_tail (s i t : string) :
  lex_int s = Some (i, t) ->
  s = i ++ t /\ all_chars plain_byte i = true /\ i <> "" /\
  forall y, head_is (fun c => negb (is_digit c)) y = true ->
            lex_int (i ++ y) = Some (i, y).
Proof.
  intros H. destruct s as [|c s]; [discriminate|]. cbn [lex_int] in H.
  destruct (Ascii.eqb_spec c "0") as [->|Hc].
  { injection H as <- <-. repeat split. discriminate. }
  apply Ascii.eqb_neq in Hc.
  destruct (is_digit19 c) eqn:E19; [|discriminate].
  assert (Ed : is_digit c = true).
  { clear -E19. unfold is_digit, is_digit19, in_range in *. lia. }
  destruct (take_digits s) as [d' t'] eqn:Hd.
  destruct (take_digits_tail _ _ _ Hd) as (-> & Hp & Ht).
  injection H as <- <-. repeat split.
  - apply digits_plain. cbn [all_chars]. now rewrite Ed, Hp.
  - discriminate.
  - intros y Hy. rewrite append_cons. cbn [lex_int].
    now rewrite Hc, E19, (Ht y Hy).
Qed.

Lemma lex_frac_nil (y : string) :
  head_is (fun c => negb (Ascii.eqb c ".")) y = true ->
  lex_frac y = Some ("", y).
Proof.
  destruct y as [|c y]; [reflexivity|]. rewrite lex_frac_eq.
  cbn [head_is]. intros Hy. apply negb_true_iff in Hy. now rewrite Hy.
Qed.

Lemma lex_frac_tail (s f t : string) :
  lex_frac s = Some (f, t) ->
  s = f ++ t /\ all_chars plain_byte f = true /\
  head_is (fun c => Ascii.eqb c ".") f = true /\
  forall y, head_is (fun c => negb (is_digit c)) y = true ->
            head_is (fun c => negb (Ascii.eqb c ".")) y = true ->
            lex_frac (f ++ y) = Some (f, y).
Proof.
  intros H. rewrite lex_frac_eq in H.
  assert (Hnil : forall s0,
             Some ("", s0) = Some (f, t) ->
             s0 = f ++ t /\ all_chars plain_byte f = true /\
             head_is (fun c => Ascii.eqb c ".") f = true /\
             forall y, head_is (fun c => negb (is_digit c)) y = true ->
                       head_is (fun c => negb (Ascii.eqb c ".")) y = true ->
                       lex_frac (f ++ y) = Some (f, y)).
  { intros s0 [= <- <-]. repeat split. intros y _ Hy.
    rewrite append_nil_l. now apply lex_frac_nil. }
  destruct s as [|c s]; [now apply Hnil|].
  destruct (Ascii.eqb_spec c ".") as [->|Hc]; [|now apply Hnil].
  destruct (take_digits s) as [d' t'] eqn:Hd.
  destruct (take_digits_tail _ _ _ Hd) as (-> & Hp & Ht).
  destruct d' as [|d0 d']; [discriminate|]. injection H as <- <-.
  repeat split.
  - change (all_chars plain_byte (String "." (String d0 d')))
      with (all_chars plain_byte (String d0 d')).
    now apply digits_plain.
  - intros y Hy _. rewrite append_cons, lex_frac_eq.
    change (Ascii.eqb "." ".") with true. cbv iota.
    now rewrite (Ht y Hy).
Qed.

Lemma lex_exp_nil (y : string) :
  head_is (fun c => negb (Ascii.eqb c "e" || Ascii.eqb c "E")) y = true ->
  lex_exp y = Some ("", y).
Proof.
  destruct y as [|c y]; [reflexivity|]. rewrite lex_exp_eq.
  cbn [head_is]. intros Hy. apply negb_true_iff in Hy. now rewrite Hy.
Qed.

Lemma digit_no_sign (c : ascii) :
  is_digit c = true ->
  Ascii.eqb c "+" = false /\ Ascii.eqb c "-" = false.
Proof.
  intros H. bytes c; vm_compute in H; try discriminate H; now vm_compute.
Qed.

Lemma lex_exp_tail (s e t : string) :
  lex_exp s = Some (e, t) ->
  s = e ++ t /\ all_chars plain_byte e = true /\
  head_is (fun c => Ascii.eqb c "e" || Ascii.eqb c "E") e = true /\
  forall y, head_is (fun c => negb (is_digit c)) y = true ->
            head_is (fun c => negb (Ascii.eqb c "e" || Ascii.eqb c "E")) y
            = true ->
            lex_exp (e ++ y) = Some (e, y).
Proof.
  intros H. rewrite lex_exp_eq in H.
  assert (Hnil : forall s0,
             Some ("", s0) = Some (e, t) ->
             s0 = e ++ t /\ all_chars plain_byte e = true /\
             head_is (fun c => Ascii.eqb c "e" || Ascii.eqb c "E") e = true /\
             forall y, head_is (fun c => negb (is_digit c)) y = true ->
                       head_is (fun c => negb (Ascii.eqb c "e"
                                                 || Ascii.eqb c "E")) y
                       = true ->
                       lex_exp (e ++ y) = Some (e, y)).
  { intros s0 [= <- <-]. repeat split. intros y _ Hy.
    rewrite append_nil_l. now apply lex_exp_nil. }
  destruct s as [|c s]; [now apply Hnil|].
  destruct (Ascii.eqb c "e" || Ascii.eqb c "E") eqn:Ec; [|now apply Hnil].
  clear Hnil.
  assert (Hc : plain_byte c = true).
  { clear -Ec. bytes c; vm_compute in Ec; try discriminate Ec; reflexivity. }
  (* the sign, if any, then the digits *)
  assert (Hdigits : forall sg r1,
             all_chars plain_byte sg = true ->
             s = sg ++ r1 ->
             (forall d0 z, is_digit d0 = true ->
                           lex_exp (String c (sg ++ String d0 z))
                           = match take_digits (String d0 z) with
                             | (EmptyString, _) => None
                             | (d, t) => Some (String c (sg ++ d), t)
                             end) ->
             match take_digits r1 with
             | (EmptyString, _) => None
             | (d, t) => Some (String c (sg ++ d), t)
             end = Some (e, t) ->
             String c s = e ++ t /\ all_chars plain_byte e = true /\
             head_is (fun c => Ascii.eqb c "e" || Ascii.eqb c "E") e = true /\
             forall y, head_is (fun c => negb (is_digit c)) y = true ->
                       head_is (fun c => negb (Ascii.eqb c "e"
                                                 || Ascii.eqb c "E")) y
                       = true ->
                       lex_exp (e ++ y) = Some (e, y)).
  { intros sg r1 Hsg Hs Hlex H1.
    destruct (take_digits r1) as [d' t'] eqn:Hd.
    destruct (take_digits_tail _ _ _ Hd) as (-> & Hp & Ht).
    destruct d' as [|d0 d']; [discriminate|]. injection H1 as <- <-.
    pose proof Hp as Hp'. cbn [all_chars] in Hp'.
    apply andb_prop in Hp' as [Hd0 _].
    repeat split.
    - now rewrite Hs, !append_cons, append_assoc.
    - cbn [all_chars]. now rewrite Hc, all_chars_app, Hsg, (digits_plain _ Hp).
    - exact Ec.
    - intros y Hy _. rewrite append_cons, append_assoc, append_cons.
      rewrite (Hlex d0 (d' ++ y) Hd0), <- append_cons.
      now rewrite (Ht y Hy). }
  destruct s as [|c' s]; [discriminate|].
  destruct (Ascii.eqb_spec c' "+") as [->|Hplus].
  { apply (Hdigits "+" s); auto. intros d0 z _. rewrite lex_exp_eq, Ec.
    reflexivity. }
  apply Ascii.eqb_neq in Hplus.
  destruct (Ascii.eqb_spec c' "-") as [->|Hminus].
  { apply (Hdigits "-" s); auto. intros d0 z _. rewrite lex_exp_eq, Ec.
    reflexivity. }
  apply Ascii.eqb_neq in Hminus.
  apply (Hdigits "" (String c' s)); auto.
  intros d0 z Hd0. rewrite lex_exp_eq, Ec, append_nil_l.
  destruct (digit_no_sign d0 Hd0) as [-> ->]. reflexivity.
Qed.

(** A literal that the scanner reads is read again before any text that
    may follow a value. *)
Lemma lex_number_tail (s lit t : string) :
  lex_number s = Some (lit, t) ->
  s = lit ++ t /\ all_chars plain_byte lit = true /\
  forall y, value_end y = true -> lex_number (lit ++ y) = Some (lit, y).
Proof.
  rewrite lex_number_eq. intros H.
  assert (Hend : forall y,
             value_end y = true ->
             head_is (fun c => negb (is_digit c)) y = true /\
             head_is (fun c => negb (Ascii.eqb c ".")) y = true /\
             head_is (fun c => negb (Ascii.eqb c "e" || Ascii.eqb c "E")) y
             = true).
  { intros [|c y] Hy; [repeat split|].
    destruct (value_end_head c y Hy) as (H1 & H2 & H3). cbn [head_is].
    now rewrite H1, H2, H3. }
  assert (Hchain : forall sg s1,
             ('(i, s2) ← lex_int s1; '(f, s3) ← lex_frac s2;
              '(e, s4) ← lex_exp s3; Some (sg ++ i ++ f ++ e, s4))
             = Some (lit, t) ->
             sg ++ s1 = lit ++ t /\
             (all_chars plain_byte sg = true ->
              all_chars plain_byte lit = true) /\
             forall y, value_end y = true ->
               ('(i, s2) ← lex_int (sdrop (slen sg) (lit ++ y));
                '(f, s3) ← lex_frac s2;
                '(e, s4) ← lex_exp s3; Some (sg ++ i ++ f ++ e, s4))
               = Some (lit, y)).
  { clear H. intros sg s1 H.
    destruct (lex_int s1) as [[i s2]|] eqn:Hi; [|discriminate].
    cbn [mbind option_bind] in H.
    destruct (lex_frac s2) as [[f s3]|] eqn:Hf; [|discriminate].
    cbn [mbind option_bind] in H.
    destruct (lex_exp s3) as [[e s4]|] eqn:He; [|discriminate].
    cbn [mbind option_bind] in H. injection H as <- <-.
    destruct (lex_int_tail _ _ _ Hi) as (-> & Pi & _ & Ti).
    destruct (lex_frac_tail _ _ _ Hf) as (-> & Pf & Hdot & Tf).
    destruct (lex_exp_tail _ _ _ He) as (-> & Pe & Hexp & Te).
    repeat split.
    - now rewrite !append_assoc.
    - intros Psg. now rewrite !all_chars_app, Psg, Pi, Pf, Pe.
    - intros y Hy. destruct (Hend y Hy) as (Y1 & Y2 & Y3).
      rewrite !append_assoc, sdrop_app.
      (* what follows the exponent, the fraction, the integer *)
      assert (E1 : head_is (fun c => negb (is_digit c)) (e ++ y) = true /\
                   head_is (fun c => negb (Ascii.eqb c ".")) (e ++ y) = true).
      { rewrite !head_is_app. destruct e as [|c e]; [now split|].
        cbn [head_is] in *. clear -Hexp.
        bytes c; vm_compute in Hexp; try discriminate Hexp; now vm_compute. }
      destruct E1 as [E1 E2].
      assert (F1 : head_is (fun c => negb (is_digit c)) (f ++ e ++ y) = true).
      { rewrite head_is_app. destruct f as [|c f]; [exact E1|].
        cbn [head_is] in *. clear -Hdot.
        bytes c; vm_compute in Hdot; try discriminate Hdot; now vm_compute. }
      rewrite (Ti _ F1). cbn [mbind option_bind].
      rewrite (Tf _ E1 E2). cbn [mbind option_bind].
      rewrite (Te _ Y1 Y3). cbn [mbind option_bind]. reflexivity. }
  destruct s as [|c s]; [discriminate|].
  destruct (Ascii.eqb_spec c "-") as [->|Hc].
  - destruct (Hchain _ _ H) as (Hs & Hp & Ht). repeat split; auto.
    intros y Hy. specialize (Ht y Hy). rewrite lex_number_eq.
    assert (Hlit : exists l, lit = String "-" l).
    { destruct lit as [|c0 l]; [|rewrite !append_cons in Hs;
        injection Hs as <- _; eauto].
      apply Hchain in H as (_ & _ & H). specialize (H "" eq_refl).
      destruct (lex_int _) as [[i s2]|]; [|discriminate].
      cbn [mbind option_bind] in H.
      destruct (lex_frac _) as [[f s3]|]; [|discriminate].
      cbn [mbind option_bind] in H.
      destruct (lex_exp _) as [[e s4]|]; discriminate. }
    destruct Hlit as [l ->]. rewrite append_cons.
    change (Ascii.eqb "-" "-") with true. cbv iota.
    rewrite append_cons in Ht.
    change (sdrop (slen "-") (String "-" (l ++ y))) with (l ++ y) in Ht.
    exact Ht.
  - apply Ascii.eqb_neq in Hc. destruct (Hchain _ _ H) as (Hs & Hp & Ht).
    rewrite append_nil_l in Hs. repeat split; auto.
    intros y Hy. specialize (Ht y Hy). rewrite lex_number_eq.
    change (sdrop (slen "") (lit ++ y)) with (lit ++ y) in Ht.
    destruct lit as [|c0 l].
    + exfalso. destruct (lex_int (String c s)) as [[i s2]|] eqn:Hi;
        [|discriminate].
      cbn [mbind option_bind] in H.
      destruct (lex_frac s2) as [[f s3]|]; [|discriminate].
      cbn [mbind option_bind] in H.
      destruct (lex_exp s3) as [[e s4]|]; [|discriminate].
      cbn [mbind option_bind] in H.
      destruct (lex_int_tail _ _ _ Hi) as (_ & _ & Hne & _).
      injection H as H _. rewrite append_nil_l in H.
      destruct i; [congruence|discriminate].
    + rewrite append_cons in Hs. injection Hs as <- _.
      rewrite append_cons, Hc. rewrite append_cons in Ht. exact Ht.
Qed.

(** *** The document of a text without its white space *)

Lemma prefix_split (p s : string) :
  String.prefix p s = true -> s = p ++ sdrop (slen p) s.
Proof.
  revert s. induction p as [|a p IH]; intros s H; [reflexivity|].
  destruct s as [|b s]; [discriminate|]. cbn [String.prefix] in H.
  destruct (ascii_dec a b) as [->|]; [|discriminate].
  rewrite append_cons. change (sdrop (slen (String b p)) (String b s))
    with (sdrop (slen p) s). now rewrite <- (IH s H).
Qed.

Lemma prefix_app (p x : string) : String.prefix p (p ++ x) = true.
Proof.
  induction p as [|a p IH]; [now destruct x|].
  rewrite append_cons. cbn [String.prefix].
  destruct (ascii_dec a a); [exact IH|congruence].
Qed.

Lemma strip_prefix_strip (p s t : string) :
  all_chars plain_byte p = true ->
  strip_prefix p s = Some t ->
  strip_space false false s = p ++ strip_space false false t /\
  strip_prefix p (p ++ strip_space false false t)
  = Some (strip_space false false t).
Proof.
  unfold strip_prefix. intros Hp H.
  destruct (String.prefix p s) eqn:E; [|discriminate]. injection H as <-.
  split.
  - rewrite (prefix_split p s E) at 1. now apply strip_plain.
  - now rewrite prefix_app, sdrop_app.
Qed.

Lemma after_strip (c : ascii) (s : string) :
  is_space c = false -> Ascii.eqb c dq = false ->
  after c (skip_space (strip_space false false s))
  = strip_space false false <$> after c (skip_space s).
Proof.
  intros Hsp Hdq. rewrite skip_space_strip.
  destruct (skip_space s) as [|a r] eqn:Hs.
  - now rewrite (strip_nothing s Hs).
  - rewrite (strip_from s a r Hs). cbn [after].
    destruct (Ascii.eqb_spec a c) as [->|]; [|reflexivity].
    now rewrite Hdq.
Qed.

(** What follows a value once the white space is gone. *)
Lemma value_end_strip (r : string) (c : ascii) (r' : string) :
  skip_space r = String c r' ->
  (Ascii.eqb c "," || Ascii.eqb c "]" || Ascii.eqb c "}") = true ->
  value_end (strip_space false false r) = true.
Proof.
  intros Hs Hc. rewrite (strip_from r c r' Hs). exact Hc.
Qed.

Lemma parse_strip (f : nat) :
  (forall d s j r,
      parse_value f d s = Some (j, r) ->
      value_end (strip_space false false r) = true ->
      parse_value f d (strip_space false false s)
      = Some (j, strip_space false false r)) /\
  (forall d s acc l r,
      parse_elements f d s acc = Some (l, r) ->
      parse_elements f d (strip_space false false s) acc
      = Some (l, strip_space false false r)) /\
  (forall d s acc l r,
      parse_members f d s acc = Some (l, r) ->
      parse_members f d (strip_space false false s) acc
      = Some (l, strip_space false false r)).
Proof.
  induction f as [|f (IHv & IHe & IHm)]; [repeat split; discriminate|].
  split; [|split].
  - intros d s j r H Hend. rewrite parse_value_eq in H.
    rewrite parse_value_eq, skip_space_strip.
    destruct (skip_space s) as [|c r0] eqn:Hs; [discriminate|].
    rewrite (strip_from s c r0 Hs).
    destruct (Ascii.eqb_spec c "{") as [->|E1].
    { change (Ascii.eqb "{" dq) with false.
      destruct (d <? maxNestingDepth); [|discriminate].
      rewrite after_strip by reflexivity.
      destruct (after "}" (skip_space r0)) as [r'|].
      - now injection H as <- <-.
      - cbn [fmap option_fmap option_map].
        destruct (parse_members f (d + 1) r0 []) as [[ms t]|] eqn:Hm;
          [|discriminate].
        cbn [mbind option_bind] in H. injection H as <- <-.
        now rewrite (IHm _ _ _ _ _ Hm). }
    destruct (Ascii.eqb_spec c "[") as [->|E2].
    { change (Ascii.eqb "[" dq) with false.
      destruct (d <? maxNestingDepth); [|discriminate].
      rewrite after_strip by reflexivity.
      destruct (after "]" (skip_space r0)) as [r'|].
      - now injection H as <- <-.
      - cbn [fmap option_fmap option_map].
        destruct (parse_elements f (d + 1) r0 []) as [[vs t]|] eqn:Hm;
          [|discriminate].
        cbn [mbind option_bind] in H. injection H as <- <-.
        now rewrite (IHe _ _ _ _ _ Hm). }
    destruct (Ascii.eqb c dq) eqn:E3.
    { destruct (lex_string r0) as [[raw t]|] eqn:Hl; [|discriminate].
      cbn [mbind option_bind] in H. injection H as <- <-.
      destruct (lex_string_strip _ _ _ _ (le_n _) Hl) as [K1 K2].
      now rewrite K1, K2. }
    destruct (Ascii.eqb c "-" || is_digit c) eqn:E4.
    { destruct (lex_number (String c r0)) as [[lit t]|] eqn:Hl;
        [|discriminate].
      cbn [mbind option_bind] in H. injection H as <- <-.
      destruct (lex_number_tail _ _ _ Hl) as (Hsplit & Hp & Ht).
      assert (Hstrip : String c (strip_space false false r0)
                       = lit ++ strip_space false false t).
      { rewrite <- (strip_plain lit t Hp), <- Hsplit. cbn [strip_space].
        now rewrite (skip_space_head s c r0 Hs), E3. }
      now rewrite Hstrip, (Ht _ Hend). }
    assert (Hlit : forall (p : string) (b : json),
               all_chars plain_byte p = true ->
               (t' ← strip_prefix p (String c r0); Some (b, t'))
               = Some (j, r) ->
               (t' ← strip_prefix p (String c (strip_space false false r0));
                Some (b, t'))
               = Some (j, strip_space false false r)).
    { intros p b Hp Hb.
      destruct (strip_prefix p (String c r0)) as [t'|] eqn:Hl;
        [|discriminate].
      cbn [mbind option_bind] in Hb. injection Hb as <- <-.
      destruct (strip_prefix_strip _ _ _ Hp Hl) as [K1 K2].
      cbn [strip_space] in K1.
      rewrite (skip_space_head s c r0 Hs), E3 in K1.
      now rewrite K1, K2. }
    destruct (Ascii.eqb c "t"); [now apply (Hlit lit_true)|].
    destruct (Ascii.eqb c "f"); [now apply (Hlit lit_false)|].
    destruct (Ascii.eqb c "n"); [now apply (Hlit lit_null)|].
    discriminate.
  - intros d s acc l r H. rewrite parse_elements_eq in H.
    rewrite parse_elements_eq.
    destruct (parse_value f d s) as [[v r1]|] eqn:Hv; [|discriminate].
    cbn [mbind option_bind] in H.
    destruct (skip_space r1) as [|c r'] eqn:Hs1; [discriminate|].
    assert (Hc : (Ascii.eqb c "," || Ascii.eqb c "]" || Ascii.eqb c "}")
                 = true).
    { destruct (Ascii.eqb c ","); [reflexivity|].
      destruct (Ascii.eqb c "]"); [reflexivity|discriminate]. }
    rewrite (IHv _ _ _ _ Hv (value_end_strip _ _ _ Hs1 Hc)).
    cbn [mbind option_bind]. rewrite skip_space_strip.
    rewrite (strip_from r1 c r' Hs1).
    destruct (Ascii.eqb_spec c ",") as [->|E1].
    { change (Ascii.eqb "," dq) with false. now apply IHe. }
    destruct (Ascii.eqb_spec c "]") as [->|E2]; [|discriminate].
    change (Ascii.eqb "]" dq) with false. now injection H as <- <-.
  - intros d s acc l r H. rewrite parse_members_eq in H.
    rewrite parse_members_eq, skip_space_strip.
    destruct (skip_space s) as [|c r0] eqn:Hs; [discriminate|].
    rewrite (strip_from s c r0 Hs).
    destruct (Ascii.eqb c dq) eqn:E0; [|discriminate].
    destruct (lex_string r0) as [[raw r1]|] eqn:Hl; [|discriminate].
    cbn [mbind option_bind] in H.
    destruct (lex_string_strip _ _ _ _ (le_n _) Hl) as [K1 K2].
    rewrite K1, K2. cbn [mbind option_bind].
    rewrite after_strip by reflexivity.
    destruct (after ":" (skip_space r1)) as [r2|]; [|discriminate].
    cbn [fmap option_fmap option_map].
    destruct (parse_value f d r2) as [[v r3]|] eqn:Hv; [|discriminate].
    cbn [mbind option_bind] in H.
    destruct (skip_space r3) as [|c' r4] eqn:Hs3; [discriminate|].
    assert (Hc : (Ascii.eqb c' "," || Ascii.eqb c' "]" || Ascii.eqb c' "}")
                 = true).
    { destruct (Ascii.eqb c' ","); [reflexivity|].
      destruct (Ascii.eqb c' "}"); [|discriminate].
      now rewrite orb_true_r. }
    rewrite (IHv _ _ _ _ Hv (value_end_strip _ _ _ Hs3 Hc)).
    cbn [mbind option_bind]. rewrite skip_space_strip.
    rewrite (strip_from r3 c' r4 Hs3).
    destruct (Ascii.eqb_spec c' ",") as [->|E1].
    { change (Ascii.eqb "," dq) with false. now apply IHm. }
    destruct (Ascii.eqb_spec c' "}") as [->|E2]; [|discriminate].
    change (Ascii.eqb "}" dq) with false. now injection H as <- <-.
Qed.

(** A valid text and the text without its insignificant white space
    are texts of the same document. *)
Lemma json_parse_strip (s : string) (j : json) :
  json_parse s = Some j ->
  json_parse (strip_space false false s) = Some j.
Proof.
  unfold json_parse. intros H.
  destruct (json_first_value s) as [[v r]|] eqn:Hv; [|discriminate].
  cbn [mbind option_bind] in H.
  destruct (skip_space r) as [|c r'] eqn:Hr; [|discriminate].
  injection H as ->. unfold json_first_value in Hv.
  destruct (parse_strip (parse_fuel s)) as (Kv & _).
  pose proof (strip_nothing r Hr) as Hn.
  specialize (Kv _ _ _ _ Hv). rewrite Hn in Kv. specialize (Kv eq_refl).
  now rewrite (json_first_value_fuel _ _ _ _ Kv).
Qed.

(* ================================================================== *)
(** ** Theorems: payloads and errors of an exchange *)

Lemma Payload_nothing (body : Reader) :
  unread body = "" -> (Payload body).1 = "".
Proof.
  intros H. unfold Payload, io_ReadAll. cbn [fst snd]. rewrite H.
  now destruct (broken body).
Qed.

Lemma Error_message (e : APIError) (msg : string) :
  Err e = Some msg -> Error e = Returned (msg ++ " - " ++ ResBody e).
Proof. unfold Error. now intros ->. Qed.

(** A payload that is an object is the object of the body. *)
Lemma Payload_object (body : Reader) (ms : list (string * json)) :
  json_parse (Payload body).1 = Some (JObject ms) ->
  json_parse (unread body) = Some (JObject ms).
Proof.
  unfold Payload, io_ReadAll, json_Compact, json_Valid. cbn [fst snd].
  destruct (broken body); [discriminate|].
  destruct (json_parse (unread body)) as [j|] eqn:Hj; [|discriminate].
  now rewrite (json_parse_strip _ _ Hj).
Qed.

(** X1: [Payload] reads the body to its end, so that a second call
    returns the empty string; the first returns either the empty string,
    when the body cannot be read or is not valid JSON, or the body
    without its insignificant white space, which is a text of the same
    document. *)
Theorem Payload_same_document (body : Reader) :
  unread (Payload body).2 = "" /\
  (Payload (Payload body).2).1 = "" /\
  (((Payload body).1 = "" /\
    (broken body = true \/ json_Valid (unread body) = false)) \/
   (exists j,
       broken body = false /\
       json_parse (unread body) = Some j /\
       (Payload body).1 = strip_space false false (unread body) /\
       json_parse (Payload body).1 = Some j)).
Proof.
  split; [reflexivity|]. split; [now apply Payload_nothing|].
  unfold Payload, io_ReadAll, json_Compact, json_Valid. cbn [fst snd unread].
  destruct (broken body); [left; auto|].
  destruct (json_parse (unread body)) as [j|] eqn:Hj; [|left; auto].
  right. exists j. repeat split. now apply json_parse_strip.
Qed.



(** X3: on a status mismatch with a response body that cannot be read or
    is not valid JSON (an HTML error page, an empty body), the error is
    the base error with an empty [ResBody]: nothing of the body reaches
    the caller, and [Error] gives the status message followed by a
    dash. *)
Theorem do_mismatch_body_dropped {T} `{Unmarshal T} (c : client)
    (req : Request) (out : option T) (expectedStatus : Z) (raw : Response) :
  outcome_of (httpClient c req) = inr raw ->
  Response_StatusCode raw <> expectedStatus ->
  broken (Response_Body raw) = true \/
  json_Valid (unread (Response_Body raw)) = false ->
  exists e,
    returned (do c req out expectedStatus) = Some (Error_API e) /\
    e = base_APIError (Response_StatusCode raw) expectedStatus
          (Payload (request_body_after (httpClient c req))).1 "" /\
    Error e = Returned (status_message (Response_StatusCode raw)
                          expectedStatus ++ " - ").
Proof.
  intros Hraw Hst Hbody.
  destruct (do_status_mismatch c req out expectedStatus raw Hraw Hst)
    as [-> _].
  assert (Hp : (Payload (Response_Body raw)).1 = "").
  { unfold Payload, io_ReadAll, json_Compact. cbn [fst snd].
    destruct (broken (Response_Body raw)); [reflexivity|].
    destruct Hbody as [Hb|Hv]; [discriminate|]. now rewrite Hv. }
  rewrite Hp, NewApiError_not_json by reflexivity.
  eexists. split; [reflexivity|]. split; [reflexivity|].
  reflexivity.
Qed.

Lemma do_mismatch_body_dropped_witness :
  exists e,
    returned (do (example_client (answering 502 "<html>Bad Gateway</html>"))
                restore_request no_out StatusOK) = Some (Error_API e) /\
    e = base_APIError 502 StatusOK
          (Payload (request_body_after
                      (answering 502 "<html>Bad Gateway</html>"
                         restore_request))).1 "" /\
    Error e = Returned (status_message 502 StatusOK ++ " - ").
Proof.
  apply (do_mismatch_body_dropped
           (example_client (answering 502 "<html>Bad Gateway</html>"))
           restore_request no_out StatusOK
           (mkResponse 502 (bytes_NewReader "<html>Bad Gateway</html>")));
    [reflexivity|discriminate|right; reflexivity].
Defined.

(** X4: on a status mismatch the error keeps its base state, that is
    its [StatusCode] is the observed status code, its message names the
    two codes, its payloads are the captured ones and [Error] returns
    the message followed by the response payload, whenever the response
    body, if it is a JSON object, has no key that matches [Err],
    [ReqBody], [ResBody] or [StatusCode]; the target is left alone. *)
Theorem do_mismatch_base_kept {T} `{Unmarshal T} (c : client)
    (req : Request) (out : option T) (expectedStatus : Z) (raw : Response) :
  outcome_of (httpClient c req) = inr raw ->
  Response_StatusCode raw <> expectedStatus ->
  (forall ms,
      json_parse (unread (Response_Body raw)) = Some (JObject ms) ->
      forallb (fun kv => negb (reaches_base kv.1)) ms = true) ->
  exists e,
    returned (do c req out expectedStatus) = Some (Error_API e) /\
    StatusCode e = Response_StatusCode raw /\
    Err e = Some (status_message (Response_StatusCode raw) expectedStatus) /\
    ReqBody e = (Payload (request_body_after (httpClient c req))).1 /\
    ResBody e = (Payload (Response_Body raw)).1 /\
    Error e = Returned (status_message (Response_StatusCode raw)
                          expectedStatus ++ " - "
                        ++ (Payload (Response_Body raw)).1) /\
    out_after (do c req out expectedStatus) = out.
Proof.
  intros Hraw Hst Hkeys.
  destruct (do_status_mismatch c req out expectedStatus raw Hraw Hst)
    as [-> ->].
  eexists. split; [reflexivity|].
  match goal with
  | |- context [NewApiError ?a ?b ?p ?q] =>
      assert (Hb : base_state (NewApiError a b p q)
                   = (Some (status_message a b), p, q, a))
  end.
  { apply NewApiError_base_kept. intros ms Hms.
    now apply Hkeys, Payload_object. }
  unfold base_state in Hb. injection Hb as E1 E2 E3 E4.
  pose proof (Error_message _ _ E1) as HE. rewrite E3 in HE.
  repeat split; assumption.
Qed.

Lemma do_mismatch_base_kept_witness :
  exists e,
    returned (do (example_client
                    (answering 400 (js "{'description':'Validation failed'}")))
                restore_request no_out StatusOK) = Some (Error_API e) /\
    StatusCode e = 400 /\
    Err e = Some (status_message 400 StatusOK) /\
    ReqBody e
    = (Payload (request_body_after
                  (answering 400 (js "{'description':'Validation failed'}")
                     restore_request))).1 /\
    ResBody e
    = (Payload (bytes_NewReader (js "{'description':'Validation failed'}"))).1 /\
    Error e
    = Returned (status_message 400 StatusOK ++ " - "
                ++ (Payload (bytes_NewReader
                               (js "{'description':'Validation failed'}"))).1) /\
    out_after (do (example_client
                     (answering 400 (js "{'description':'Validation failed'}")))
                 restore_request no_out StatusOK) = no_out.
Proof.
  apply (do_mismatch_base_kept
           (example_client
              (answering 400 (js "{'description':'Validation failed'}")))
           restore_request no_out StatusOK
           (mkResponse 400
              (bytes_NewReader (js "{'description':'Validation failed'}"))));
    [reflexivity|discriminate|].
  intros ms Hms. vm_compute in Hms. injection Hms as <-. reflexivity.
Defined.

(** X5: whenever the transport gives a response, [do] returns with the
    body of that response closed, on every path: a status mismatch, a
    decoding error, a success with or without a target. *)
Theorem do_closes_response_body {T} `{Unmarshal T} (c : client)
    (req : Request) (out : option T) (expectedStatus : Z) (raw : Response) :
  outcome_of (httpClient c req) = inr raw ->
  exists res,
    response_after (do c req out expectedStatus) = Some res /\
    closed (Response_Body res) = true /\
    Response_StatusCode res = Response_StatusCode raw.
Proof.
  intros Hraw. unfold do. rewrite Hraw.
  destruct (negb (Response_StatusCode raw =? expectedStatus)).
  - unfold Request_Payload, Response_Payload.
    destruct (Payload (Body _)) as [p1 b1].
    destruct (Payload (Response_Body raw)) as [p2 b2].
    cbn. eauto.
  - destruct out as [o|]; [|cbn; eauto].
    destruct (Decode (Response_Body raw) o) as [[o' [e|]] body']; cbn; eauto.
Qed.

Lemma do_closes_response_body_witness :
  exists res,
    response_after (do (example_client (answering 200 "not json"))
                      restore_request (Some (@Contact.zero example_platform))
                      StatusOK) = Some res /\
    closed (Response_Body res) = true /\
    Response_StatusCode res = 200.
Proof.
  apply (do_closes_response_body
           (example_client (answering 200 "not json")) restore_request
           (Some (@Contact.zero example_platform)) StatusOK
           (mkResponse 200 (bytes_NewReader "not json"))).
  reflexivity.
Defined.

(* ================================================================== *)
(** ** Theorems: the operations on contacts *)

(** Without a target, [do] returns nil exactly when the transport gives
    a response with the expected status. *)
Lemma do_no_target (c : client) (req : Request) (expectedStatus : Z) :
  returned (do c req no_out expectedStatus) = None <->
  exists raw, outcome_of (httpClient c req) = inr raw /\
              Response_StatusCode raw = expectedStatus.
Proof.
  unfold do, no_out. destruct (outcome_of (httpClient c req)) as [err|raw].
  - split; [discriminate|]. intros (raw & Hraw & _). discriminate.
  - destruct (Z.eqb_spec (Response_StatusCode raw) expectedStatus) as [E|E];
      cbn [negb].
    + split; [eauto|reflexivity].
    + unfold Request_Payload, Response_Payload.
      destruct (Payload (Body _)) as [p1 b1].
      destruct (Payload (Response_Body raw)) as [p2 b2]. cbn [returned].
      split; [discriminate|]. intros (raw' & [= <-] & Hst). contradiction.
Qed.

(** X6: [Delete], [Restore] and [SendInvite] return a nil error exactly
    when the request could be built and the transport answered with the
    expected status, 200, 200 and 204; the body of the response plays no
    part. *)
Theorem bodyless_operations_succeed `{Platform} (c : client) (id : Z) :
  (Delete c id = None <->
   exists req raw,
     newRequest c "DELETE" (contacts_path id "") no_body = Ok req /\
     outcome_of (httpClient c req) = inr raw /\
     Response_StatusCode raw = 200) /\
  (Restore c id = None <->
   exists req raw,
     newRequest c "PUT" (contacts_path id "/restore") no_body = Ok req /\
     outcome_of (httpClient c req) = inr raw /\
     Response_StatusCode raw = 200) /\
  (SendInvite c id = None <->
   exists req raw,
     newRequest c "POST" (contacts_path id "/send_invite") no_body = Ok req /\
     outcome_of (httpClient c req) = inr raw /\
     Response_StatusCode raw = 204).
Proof.
  assert (Hop : forall method endpoint status,
             match newRequest c method endpoint no_body with
             | Fail err => Some err
             | Ok req => returned (do c req no_out status)
             end = None <->
             exists req raw,
               newRequest c method endpoint no_body = Ok req /\
               outcome_of (httpClient c req) = inr raw /\
               Response_StatusCode raw = status).
  { intros method endpoint status.
    destruct (newRequest c method endpoint no_body) as [req|err].
    - rewrite do_no_target. split.
      + intros (raw & H1 & H2). eauto.
      + intros (req' & raw & [= <-] & H1 & H2). eauto.
    - split; [discriminate|]. intros (req & raw & Hreq & _). discriminate. }
  unfold Delete, Restore, SendInvite. repeat split; apply Hop.
Qed.

(** With a target, [do] always hands a target back. *)
Lemma do_target_kept {T} `{Unmarshal T} (c : client) (req : Request)
    (o : T) (expectedStatus : Z) :
  exists o', out_after (do c req (Some o) expectedStatus) = Some o'.
Proof.
  unfold do. destruct (outcome_of (httpClient c req)) as [err|raw];
    [cbn; eauto|].
  destruct (negb (Response_StatusCode raw =? expectedStatus)).
  - unfold Request_Payload, Response_Payload.
    destruct (Payload (Body _)) as [p1 b1].
    destruct (Payload (Response_Body raw)) as [p2 b2]. cbn. eauto.
  - destruct (Decode (Response_Body raw) o) as [[o' [e|]] body']; cbn; eauto.
Qed.

(** X7: the contact that [Create], [Update] and [View] return is nil
    exactly when the request could not be built; once it is built they
    return a contact that is not nil, error or not. *)
Theorem contact_pointer_nil `{Platform} (c : client) (id : Z)
    (t : option Contact) :
  ((Create c t).1 = None <->
   exists err, newRequest c "POST" "contacts" (Some t) = Fail err) /\
  ((Update c id t).1 = None <->
   exists err, newRequest c "PUT" (contacts_path id "") (Some t) = Fail err) /\
  ((View c id).1 = None <->
   exists err, newRequest c "GET" (contacts_path id "") no_body = Fail err).
Proof.
  assert (Hop : forall (r : result Request) status,
             (match r with
              | Fail err => (None, Some err)
              | Ok req =>
                  let d := do c req (Some Contact.zero) status in
                  (out_after d, returned d)
              end).1 = None <-> exists err, r = Fail err).
  { intros [req|err] status; cbn [fst].
    - destruct (do_target_kept c req Contact.zero status) as [o' ->].
      split; [discriminate|]. intros [err Herr]. discriminate.
    - split; eauto. }
  unfold Create, Update, View. repeat split; apply Hop.
Qed.

(** X8: when the exchange fails, because the transport gives no response
    or because the status is not the expected one, [Create], [Update]
    and [View] return the zero [Contact] together with the error. *)
Theorem contact_zero_on_failure `{Platform} (c : client) (id : Z)
    (t : option Contact) (req : Request) :
  (newRequest c "POST" "contacts" (Some t) = Ok req ->
   exchange_fails c req 201 ->
   (Create c t).1 = Some Contact.zero /\ (Create c t).2 <> None) /\
  (newRequest c "PUT" (contacts_path id "") (Some t) = Ok req ->
   exchange_fails c req 200 ->
   (Update c id t).1 = Some Contact.zero /\ (Update c id t).2 <> None) /\
  (newRequest c "GET" (contacts_path id "") no_body = Ok req ->
   exchange_fails c req 200 ->
   (View c id).1 = Some Contact.zero /\ (View c id).2 <> None).
Proof.
  assert (Hdo : forall status,
             exchange_fails c req status ->
             out_after (do c req (Some Contact.zero) status)
             = Some Contact.zero /\
             returned (do c req (Some Contact.zero) status) <> None).
  { intros status [[err Herr]|(raw & Hraw & Hne)].
    - unfold do. rewrite Herr. split; [reflexivity|discriminate].
    - destruct (do_status_mismatch c req (Some Contact.zero) status raw
                  Hraw Hne) as [-> ->].
      split; [reflexivity|discriminate]. }
  unfold Create, Update, View, StatusCreated, StatusOK.
  split; [|split]; intros Hreq Hf; rewrite Hreq; cbn [fst snd];
    now apply Hdo.
Qed.

(** *** Contact fields through JSON *)

Lemma codec_choices (m : option (gmap string string)) (j : json) :
  no_entries m = false ->
  enc_ptr (enc_map enc_string) m = Some j ->
  decode_map "" decode_string None j = (m, Clean).
Proof. intros _. apply codec_string_map. Qed.

(** The document written for a valid contact field decodes, into a new
    [ContactField], to that field. *)
Lemma enc_ContactField_decode (f : ContactField) (doc : json) :
  ContactField_valid f ->
  enc_ContactField f = Some doc ->
  decode_ContactField ContactField.zero doc = (f, Clean).
Proof.
  destruct f as [f1 f2 f3 f4 f5 f6 f7 f8 f9 f10 f11 f12 f13].
  unfold ContactField_valid, enc_ContactField, struct.
  cbn [ContactField.EditableInSignup ContactField.ID ContactField.Label
    ContactField.Name ContactField.Position ContactField.Default
    ContactField.Type_ ContactField.CustomersCanEdit
    ContactField.LabelForCustomers ContactField.RequiredForCustomers
    ContactField.DisplayedForCustomers ContactField.RequiredForAgents
    ContactField.Choices].
  intros (Hn2 & Hn5 & Hv13) Henc.
  match type of Henc with
  | JObject <$> ?x = _ => destruct x as [ms|] eqn:Hf; [|discriminate Henc]
  end.
  injection Henc as <-. cbn [decode_ContactField]. unfold ContactField.zero.
  (* editable_in_signup *)
  apply fields_cons in Hf as (l & ms' & Hl & Hf & ->).
  rewrite (decode_members_app store_ContactField l ms' _
     (ContactField.mk f1 0 "" "" 0 false "" false "" false false false
        None));
    [clear Hl l
    |member_step ltac:(unfold store_ContactField) Hl
       ltac:(discriminate Homit)
       ltac:(rewrite (codec_bool _ _ _ Hdoc))].
  rename ms' into ms.
  (* id *)
  apply fields_cons in Hf as (l & ms' & Hl & Hf & ->).
  rewrite (decode_members_app store_ContactField l ms' _
     (ContactField.mk f1 f2 "" "" 0 false "" false "" false false
        false None));
    [clear Hl l
    |member_step ltac:(unfold store_ContactField) Hl
       ltac:(discriminate Homit)
       ltac:(rewrite (codec_uint64 _ _ _ Hn2 Hdoc))].
  rename ms' into ms.
  (* label *)
  apply fields_cons in Hf as (l & ms' & Hl & Hf & ->).
  rewrite (decode_members_app store_ContactField l ms' _
     (ContactField.mk f1 f2 f3 "" 0 false "" false "" false false
        false None));
    [clear Hl l
    |member_step ltac:(unfold store_ContactField) Hl
       ltac:(discriminate Homit)
       ltac:(rewrite (codec_string _ _ _ Hdoc))].
  rename ms' into ms.
  (* name *)
  apply fields_cons in Hf as (l & ms' & Hl & Hf & ->).
  rewrite (decode_members_app store_ContactField l ms' _
     (ContactField.mk f1 f2 f3 f4 0 false "" false "" false false
        false None));
    [clear Hl l
    |member_step ltac:(unfold store_ContactField) Hl
       ltac:(discriminate Homit)
       ltac:(rewrite (codec_string _ _ _ Hdoc))].
  rename ms' into ms.
  (* position *)
  apply fields_cons in Hf as (l & ms' & Hl & Hf & ->).
  rewrite (decode_members_app store_ContactField l ms' _
     (ContactField.mk f1 f2 f3 f4 f5 false "" false "" false false
        false None));
    [clear Hl l
    |member_step ltac:(unfold store_ContactField) Hl
       ltac:(discriminate Homit)
       ltac:(rewrite (codec_uint64 _ _ _ Hn5 Hdoc))].
  rename ms' into ms.
  (* default *)
  apply fields_cons in Hf as (l & ms' & Hl & Hf & ->).
  rewrite (decode_members_app store_ContactField l ms' _
     (ContactField.mk f1 f2 f3 f4 f5 f6 "" false "" false false false
        None));
    [clear Hl l
    |member_step ltac:(unfold store_ContactField) Hl
       ltac:(discriminate Homit)
       ltac:(rewrite (codec_bool _ _ _ Hdoc))].
  rename ms' into ms.
  (* type *)
  apply fields_cons in Hf as (l & ms' & Hl & Hf & ->).
  rewrite (decode_members_app store_ContactField l ms' _
     (ContactField.mk f1 f2 f3 f4 f5 f6 f7 false "" false false false
        None));
    [clear Hl l
    |member_step ltac:(unfold store_ContactField) Hl
       ltac:(discriminate Homit)
       ltac:(rewrite (codec_string _ _ _ Hdoc))].
  rename ms' into ms.
  (* customers_can_edit *)
  apply fields_cons in Hf as (l & ms' & Hl & Hf & ->).
  rewrite (decode_members_app store_ContactField l ms' _
     (ContactField.mk f1 f2 f3 f4 f5 f6 f7 f8 "" false false false
        None));
    [clear Hl l
    |member_step ltac:(unfold store_ContactField) Hl
       ltac:(discriminate Homit)
       ltac:(rewrite (codec_bool _ _ _ Hdoc))].
  rename ms' into ms.
  (* label_for_customers *)
  apply fields_cons in Hf as (l & ms' & Hl & Hf & ->).
  rewrite (decode_members_app store_ContactField l ms' _
     (ContactField.mk f1 f2 f3 f4 f5 f6 f7 f8 f9 false false false
        None));
    [clear Hl l
    |member_step ltac:(unfold store_ContactField) Hl
       ltac:(discriminate Homit)
       ltac:(rewrite (codec_string _ _ _ Hdoc))].
  rename ms' into ms.
  (* required_for_customers *)
  apply fields_cons in Hf as (l & ms' & Hl & Hf & ->).
  rewrite (decode_members_app store_ContactField l ms' _
     (ContactField.mk f1 f2 f3 f4 f5 f6 f7 f8 f9 f10 false false None));
    [clear Hl l
    |member_step ltac:(unfold store_ContactField) Hl
       ltac:(discriminate Homit)
       ltac:(rewrite (codec_bool _ _ _ Hdoc))].
  rename ms' into ms.
  (* displayed_for_customers *)
  apply fields_cons in Hf as (l & ms' & Hl & Hf & ->).
  rewrite (decode_members_app store_ContactField l ms' _
     (ContactField.mk f1 f2 f3 f4 f5 f6 f7 f8 f9 f10 f11 false None));
    [clear Hl l
    |member_step ltac:(unfold store_ContactField) Hl
       ltac:(discriminate Homit)
       ltac:(rewrite (codec_bool _ _ _ Hdoc))].
  rename ms' into ms.
  (* required_for_agents *)
  apply fields_cons in Hf as (l & ms' & Hl & Hf & ->).
  rewrite (decode_members_app store_ContactField l ms' _
     (ContactField.mk f1 f2 f3 f4 f5 f6 f7 f8 f9 f10 f11 f12 None));
    [clear Hl l
    |member_step ltac:(unfold store_ContactField) Hl
       ltac:(discriminate Homit)
       ltac:(rewrite (codec_bool _ _ _ Hdoc))].
  rename ms' into ms.
  (* choices *)
  apply fields_cons in Hf as (l & ms' & Hl & Hf & ->).
  rewrite (decode_members_app store_ContactField l ms' _
     (ContactField.mk f1 f2 f3 f4 f5 f6 f7 f8 f9 f10 f11 f12 f13));
    [clear Hl l
    |member_step ltac:(unfold store_ContactField) Hl
       ltac:(now rewrite (empty_map_is_nil _ Homit Hv13))
       ltac:(rewrite (codec_choices _ _ Homit Hdoc))].
  rename ms' into ms.
  injection Hf as <-. reflexivity.
Qed.

(** X21: [HardDelete] and [Merge] return a nil error exactly when their
    parameters could be encoded, the request could be built, and the
    transport answered with the expected status, 200 and 204; the body
    of the response plays no part. *)
Theorem HardDelete_Merge_succeed `{Platform} (c : client) (id : Z)
    (force : bool) (secondaryIDs : option (list Z)) (attrs : option Contact) :
  (HardDelete c id force = None <->
   exists text req raw,
     json_print <$> enc_HardDelete_params id force = Some text /\
     newRequest c "DELETE" (contacts_path id "/hard_delete")
       (Some (Bytes (Some text))) = Ok req /\
     outcome_of (httpClient c req) = inr raw /\
     Response_StatusCode raw = 200) /\
  (Merge c id secondaryIDs attrs = None <->
   exists text req raw,
     json_print <$> enc_Merge_params id secondaryIDs attrs = Some text /\
     newRequest c "POST" "contacts/merge" (Some (Bytes (Some text))) = Ok req /\
     outcome_of (httpClient c req) = inr raw /\
     Response_StatusCode raw = 204).
Proof.
  assert (Hop : forall (params : option string) method endpoint status,
             match params with
             | None => Some (Error_json MarshalFailure)
             | Some in_ =>
                 match newRequest c method endpoint (Some (Bytes (Some in_)))
                 with
                 | Fail err => Some err
                 | Ok req => returned (do c req no_out status)
                 end
             end = None <->
             exists text req raw,
               params = Some text /\
               newRequest c method endpoint (Some (Bytes (Some text)))
               = Ok req /\
               outcome_of (httpClient c req) = inr raw /\
               Response_StatusCode raw = status).
  { intros [text|] method endpoint status.
    - destruct (newRequest c method endpoint (Some (Bytes (Some text))))
        as [req|err] eqn:Hreq.
      + rewrite do_no_target. split.
        * intros (raw & H1 & H2). exists text, req, raw. auto.
        * intros (text' & req' & raw & [= <-] & Hreq' & H1 & H2).
          rewrite Hreq in Hreq'. injection Hreq' as <-. eauto.
      + split; [discriminate|].
        intros (text' & req' & raw & [= <-] & Hreq' & _).
        rewrite Hreq in Hreq'. discriminate.
    - split; [discriminate|]. intros (text & req & raw & Hp & _).
      discriminate. }
  unfold HardDelete, Merge. split; apply Hop.
Qed.

(* ================================================================== *)
(** ** Theorems: reading what was written *)

(** An array or an object is read back from its text whatever bytes
    follow it. *)
Lemma parse_container_print (j : json) (fuel : nat) (depth : Z)
    (rest : string) :
  is_container j = true ->
  json_texts_ok j = true ->
  depth + json_height j <= maxNestingDepth ->
  (2 * slen (json_print j) + 1 <= fuel)%nat ->
  parse_value fuel depth (json_print j ++ rest) = Some (j, rest).
Proof.
  intros Hc Hok Hh Hfuel. destruct fuel as [|f]; [lia|].
  destruct j as [ | | | |l|ms]; try discriminate Hc; clear Hc.
  - cbn [json_height] in Hh.
    pose proof (height_nonneg json_height l) as Hnn.
    destruct l as [|x l]; [apply parse_value_empty; lia|].
    cbn [json_texts_ok] in Hok.
    assert (Hall : forall y, y ∈ x :: l -> json_texts_ok y = true).
    { intros y Hy. apply (proj1 (forallb_forall _ _) Hok).
      now apply list_elem_of_In. }
    cbn [json_print] in *. rewrite bracket_app.
    rewrite !slen_app, ?slen_cons in Hfuel;
      change (slen "") with 0%nat in Hfuel.
    destruct (json_print_head x) as (c & r & Hx & Hc); [apply Hall; left|].
    assert (Hhead : exists r',
               concat_with "," (map json_print (x :: l)) ++ String "]" rest
               = String c r').
    { destruct l; cbn [map concat_with]; rewrite Hx, ?append_cons; eauto. }
    destruct Hhead as [r' Hr']. rewrite Hr'.
    rewrite parse_value_array by (exact Hc || lia). rewrite <- Hr'.
    rewrite (parse_elements_print (depth + 1) (x :: l));
      [reflexivity| |discriminate|lia].
    intros y Hy fuel' rest' Hrest' Hfuel'.
    apply parse_value_print; auto.
    pose proof (height_elem y _ Hy). lia.
  - cbn [json_height] in Hh.
    pose proof (height_nonneg (fun kv : string * json => json_height (snd kv))
                  ms) as Hnn.
    destruct ms as [|[k v] ms]; [apply parse_value_empty; lia|].
    cbn [json_texts_ok] in Hok.
    assert (Hall : forall k' v', (k', v') ∈ (k, v) :: ms ->
               utf8_valid k' = true /\ json_texts_ok v' = true).
    { intros k' v' Hy. apply andb_prop.
      apply (proj1 (forallb_forall _ _) Hok (k', v')).
      now apply list_elem_of_In. }
    cbn [json_print] in *. rewrite bracket_app.
    rewrite !slen_app, ?slen_cons in Hfuel;
      change (slen "") with 0%nat in Hfuel.
    match goal with
    | |- context [concat_with "," ?t ++ String "}" rest] =>
        assert (Hhead : exists r',
                   concat_with "," t ++ String "}" rest = String dq r')
    end.
    { destruct ms; cbn [map concat_with fst]; unfold quote at 1;
        rewrite ?append_cons; eauto. }
    destruct Hhead as [r' Hr']. rewrite Hr'.
    rewrite parse_value_object by lia. rewrite <- Hr'.
    rewrite (parse_members_print (depth + 1) ((k, v) :: ms));
      [reflexivity| |discriminate|lia].
    intros k' v' Hy. destruct (Hall k' v' Hy) as [Hk' Hv']. split; [easy|].
    intros fuel' rest' Hrest' Hfuel'.
    apply parse_value_print; auto.
    pose proof (height_member k' v' _ Hy). cbn [snd]. lia.
Qed.

(** The decoder of a stream reads a well-formed array or object that
    starts the stream, stores it, and leaves the bytes after it
    unread. *)
Lemma Decode_container {T} `{Unmarshal T} (body : Reader) (o : T)
    (doc : json) (rest : string) :
  is_container doc = true -> wf_json doc = true ->
  unread body = json_print doc ++ rest ->
  Decode body o
  = ((from_json doc o).1,
     match (from_json doc o).2 with
     | Clean => None
     | Mismatch => Some (Error_json UnmarshalTypeError)
     | Abort => Some (Error_json UnmarshalerError)
     end,
     {| unread := rest; broken := broken body; closed := closed body |}).
Proof.
  intros Hc Hwf Hbody. unfold wf_json in Hwf.
  apply andb_prop in Hwf as [Hok Hh]. apply Z.leb_le in Hh.
  unfold Decode, json_first_value. rewrite Hbody.
  rewrite (parse_container_print doc _ 0 rest Hc Hok);
    [|lia|unfold parse_fuel; rewrite slen_app; lia].
  rewrite Hc, andb_false_r. cbn [negb andb].
  now destruct (from_json doc o) as [v st].
Qed.

(** With the expected status and a body that starts with the text of a
    well-formed array or object that fits the target, [do] stores the
    document and returns nil. *)
Lemma do_reads_container {T} `{Unmarshal T} (c : client) (req : Request)
    (o v : T) (expectedStatus : Z) (raw : Response) (doc : json)
    (rest : string) :
  outcome_of (httpClient c req) = inr raw ->
  Response_StatusCode raw = expectedStatus ->
  unread (Response_Body raw) = json_print doc ++ rest ->
  is_container doc = true -> wf_json doc = true ->
  from_json doc o = (v, Clean) ->
  returned (do c req (Some o) expectedStatus) = None /\
  out_after (do c req (Some o) expectedStatus) = Some v.
Proof.
  intros Hraw Hst Hbody Hc Hwf Hdec. unfold do. rewrite Hraw.
  apply Z.eqb_eq in Hst. rewrite Hst. cbn [negb].
  rewrite (Decode_container _ o doc rest Hc Hwf Hbody), Hdec.
  split; reflexivity.
Qed.

Lemma enc_Contact_object `{Platform} (t : Contact) (doc : json) :
  enc_Contact t = Some doc -> is_container doc = true.
Proof.
  unfold enc_Contact, struct. destruct (fields _); [|discriminate].
  now intros [= <-].
Qed.

Lemma enc_list_array {T} (enc : T -> option json) (l : list T) (doc : json) :
  enc_list enc l = Some doc -> is_container doc = true.
Proof.
  unfold enc_list. destruct (mapM enc l); [|discriminate]. now intros [= <-].
Qed.

(** X9: when the server answers 200 with a body that starts with the
    JSON encoding of a valid contact, [View] returns that contact and a
    nil error; the bytes after the encoding are not examined. *)
Theorem View_reads_contact `{Platform} (c : client) (id : Z) (t : Contact)
    (doc : json) (rest : string) (req : Request) (raw : Response) :
  Contact_valid t -> enc_Contact t = Some doc -> wf_json doc = true ->
  newRequest c "GET" (contacts_path id "") no_body = Ok req ->
  outcome_of (httpClient c req) = inr raw ->
  Response_StatusCode raw = 200 ->
  unread (Response_Body raw) = json_print doc ++ rest ->
  View c id = (Some t, None).
Proof.
  intros Hvalid Henc Hwf Hreq Hraw Hst Hbody. unfold View. rewrite Hreq.
  destruct (do_reads_container c req Contact.zero t StatusOK raw doc rest
              Hraw Hst Hbody (enc_Contact_object t doc Henc) Hwf
              (enc_Contact_decode t doc Hvalid Henc)) as [-> ->].
  reflexivity.
Qed.

Lemma View_reads_contact_witness :
  @View example_platform
    (example_client
       (answering 200
          (js "{'id':5,'active':true,'view_all_tickets':false,'name':'Ann'} trailing")))
    5
  = (Some (Contact.mk _ 5 "" true false None None false "Ann" None None None
             "" None None None None None None None None None None None),
     None).
Proof.
  eapply (@View_reads_contact example_platform _ 5 _ _ " trailing").
  - repeat split; try reflexivity; vm_compute; congruence.
  - reflexivity.
  - reflexivity.
  - reflexivity.
  - reflexivity.
  - reflexivity.
  - reflexivity.
Defined.

(** X10: [Create] sends the encoding of the contact and reads the
    answer into a new contact: with a server that answers 201 with the
    body it was sent, a valid contact comes back as it was. *)
Theorem Create_echo `{Platform} (c : client) (t : Contact) (doc : json) :
  Contact_valid t -> enc_Contact t = Some doc -> wf_json doc = true ->
  url_Parse_ok (baseURL c ++ "contacts") = true ->
  httpClient c = echoing 201 ->
  Create c (Some t) = (Some t, None).
Proof.
  intros Hvalid Henc Hwf Hurl Hecho. unfold Create, newRequest.
  unfold json_Marshal, to_json, Marshal_Contact. cbn [enc_ptr].
  rewrite Henc. cbn [fmap option_fmap option_map].
  unfold http_NewRequest. change (String.eqb "POST" "") with false.
  cbv iota. change (validMethod "POST") with true. rewrite Hurl.
  cbn [negb].
  match goal with
  | |- context [do c ?r _ _] => set (req := r)
  end.
  destruct (do_reads_container c req Contact.zero t StatusCreated
              (mkResponse 201 (bytes_NewReader (json_print doc))) doc ""
              ltac:(now rewrite Hecho) eq_refl
              ltac:(cbn; now rewrite append_nil_r)
              (enc_Contact_object t doc Henc) Hwf
              (enc_Contact_decode t doc Hvalid Henc)) as [-> ->].
  reflexivity.
Qed.

Lemma Create_echo_witness :
  @Create example_platform (example_client (echoing 201)) (Some contact_ann)
  = (Some contact_ann, None).
Proof.
  eapply (@Create_echo example_platform (example_client (echoing 201))
            contact_ann).
  - repeat split; try reflexivity; vm_compute; congruence.
  - reflexivity.
  - vm_compute. reflexivity.
  - reflexivity.
  - reflexivity.
Defined.

Lemma codec_Contact_ptr `{Platform} (x : option Contact) (jx : json) :
  from_option Contact_valid True x ->
  enc_ptr enc_Contact x = Some jx ->
  decode_ptr Contact.zero decode_Contact None jx = (x, Clean).
Proof.
  destruct x as [t|]; cbn [from_option enc_ptr].
  - intros Hvalid Henc. pose proof (enc_Contact_object t jx Henc) as Hc.
    pose proof (enc_Contact_decode t jx Hvalid Henc) as Hd.
    destruct jx; try discriminate Hc; cbn [decode_ptr default];
      now rewrite Hd.
  - now intros _ [= <-].
Qed.



Lemma enc_ContactField_object (f : ContactField) (doc : json) :
  enc_ContactField f = Some doc -> is_container doc = true.
Proof.
  unfold enc_ContactField, struct. destruct (fields _); [|discriminate].
  now intros [= <-].
Qed.

Lemma codec_ContactField_ptr (x : option ContactField) (jx : json) :
  from_option ContactField_valid True x ->
  enc_ptr enc_ContactField x = Some jx ->
  decode_ptr ContactField.zero decode_ContactField None jx = (x, Clean).
Proof.
  destruct x as [f|]; cbn [from_option enc_ptr].
  - intros Hvalid Henc. pose proof (enc_ContactField_object f jx Henc) as Hc.
    pose proof (enc_ContactField_decode f jx Hvalid Henc) as Hd.
    destruct jx; try discriminate Hc; cbn [decode_ptr default];
      now rewrite Hd.
  - now intros _ [= <-].
Qed.



Lemma json_first_value_blank (s : string) :
  skip_space s = "" -> json_first_value s = None.
Proof.
  intros H. unfold json_first_value, parse_fuel.
  replace (2 * slen s + 3)%nat with (S (2 * slen s + 2)) by lia.
  now rewrite parse_value_eq, H.
Qed.

(** X13: [SearchContacts] expects the status 204 and decodes the body
    all the same: whenever the body of the response is empty or blank,
    as that of a 204 response is, it returns an error and a nil slice,
    whatever the status. *)
Theorem SearchContacts_blank_body `{Platform} (c : client) (keyword : string)
    (req : Request) (raw : Response) :
  newRequest c "POST" ("contacts/autocomplete?term=" ++ keyword) no_body
  = Ok req ->
  outcome_of (httpClient c req) = inr raw ->
  skip_space (unread (Response_Body raw)) = "" ->
  (SearchContacts c keyword).1 = None /\
  exists err,
    (SearchContacts c keyword).2 = Some err /\
    (Response_StatusCode raw = 204 ->
     err = Error_io \/ err = Error_json UnexpectedEOF).
Proof.
  intros Hreq Hraw Hblank. unfold SearchContacts. rewrite Hreq.
  cbn [fst snd]. unfold do. rewrite Hraw.
  destruct (Z.eqb_spec (Response_StatusCode raw) StatusNoContent) as [E|E];
    cbn [negb].
  - unfold Decode. rewrite (json_first_value_blank _ Hblank).
    cbn [out_after returned mjoin option_join]. split; [reflexivity|].
    eexists. split; [reflexivity|]. intros _.
    destruct (broken (Response_Body raw)); [now left|right].
    now rewrite Hblank.
  - unfold Request_Payload, Response_Payload.
    destruct (Payload (Body _)) as [p1 b1].
    destruct (Payload (Response_Body raw)) as [p2 b2].
    cbn [out_after returned]. split; [reflexivity|].
    eexists. split; [reflexivity|]. intros E'. contradiction.
Qed.

Lemma SearchContacts_blank_body_witness :
  (@SearchContacts example_platform (example_client (answering 204 "")) "ann").1
  = None /\
  exists err,
    (@SearchContacts example_platform (example_client (answering 204 ""))
       "ann").2 = Some err /\
    (Response_StatusCode (mkResponse 204 (bytes_NewReader "")) = 204 ->
     err = Error_io \/ err = Error_json UnexpectedEOF).
Proof.
  eapply (@SearchContacts_blank_body example_platform
            (example_client (answering 204 "")) "ann");
    reflexivity.
Defined.

(** X14: a contact that has no JSON encoding (a custom field that holds
    NaN or an infinity, a timestamp whose [MarshalJSON] fails) makes
    [Create], [Update] and [Merge] return the marshalling error, and no
    contact, whatever the transport would do; [Hash] fails as well. *)
Theorem unencodable_contact `{Platform} (c : client) (id : Z)
    (secondaryIDs : option (list Z)) (t : Contact) :
  enc_Contact t = None ->
  Create c (Some t) = (None, Some (Error_json MarshalFailure)) /\
  Update c id (Some t) = (None, Some (Error_json MarshalFailure)) /\
  Merge c id secondaryIDs (Some t) = Some (Error_json MarshalFailure) /\
  Hash (Some t) = Fail (Error_json MarshalFailure).
Proof.
  intros Henc.
  assert (Hm : @json_Marshal (option Contact) _ (Some t) = None).
  { unfold json_Marshal, to_json, Marshal_Contact. cbn [enc_ptr].
    now rewrite Henc. }
  repeat split.
  - unfold Create, newRequest. now rewrite Hm.
  - unfold Update, newRequest. now rewrite Hm.
  - unfold Merge, enc_Merge_params, struct, field. cbn [is_nil enc_ptr].
    rewrite Henc. destruct (enc_slice enc_uint64 secondaryIDs); reflexivity.
  - unfold Hash. now rewrite Hm.
Qed.

Lemma unencodable_contact_witness :
  @Create example_platform (example_client (answering 201 "{}"))
    (Some contact_nan) = (None, Some (Error_json MarshalFailure)) /\
  @Update example_platform (example_client (answering 201 "{}")) 5
    (Some contact_nan) = (None, Some (Error_json MarshalFailure)) /\
  @Merge example_platform (example_client (answering 201 "{}")) 5
    (Some [6]) (Some contact_nan) = Some (Error_json MarshalFailure) /\
  @Hash example_platform (Some contact_nan)
  = Fail (Error_json MarshalFailure).
Proof.
  apply (@unencodable_contact example_platform
           (example_client (answering 201 "{}")) 5 (Some [6]) contact_nan).
  reflexivity.
Defined.

(** *** Hashes *)

(** The digests of RFC 1321's test suite that fit one and two blocks. *)
Example md5_Sum_rfc1321 :
  hex_EncodeToString (md5_Sum "") = "d41d8cd98f00b204e9800998ecf8427e" /\
  hex_EncodeToString (md5_Sum "abc") = "900150983cd24fb0d6963f7d28e17f72" /\
  hex_EncodeToString
    (md5_Sum ("1234567890123456789012345678901234567890"
              ++ "1234567890123456789012345678901234567890"))
  = "57edf4a22be3c955ac49da2e2107b67a".
Proof. repeat split; vm_compute; reflexivity. Qed.

Lemma hex_EncodeToString_length (s : string) :
  slen (hex_EncodeToString s) = (2 * slen s)%nat.
Proof.
  induction s as [|c s IH]; [reflexivity|]. cbn [hex_EncodeToString].
  rewrite !slen_cons, IH. lia.
Qed.

Lemma hex_EncodeToString_digits (s : string) :
  all_chars is_hex_lower (hex_EncodeToString s) = true.
Proof.
  induction s as [|c s IH]; [reflexivity|]. cbn [hex_EncodeToString all_chars].
  rewrite IH, andb_true_r. clear. bytes c; reflexivity.
Qed.

Lemma md5_Sum_length (data : string) : slen (md5_Sum data) = 16%nat.
Proof.
  unfold md5_Sum. destruct (md5_blocks _ _ _) as [[[a b] c] d]. reflexivity.
Qed.

(** X15: [Hash] fails exactly when the contact has no JSON encoding;
    otherwise it returns the MD5 digest of that encoding as 32
    lower-case hexadecimal digits, also for a nil receiver. *)
Theorem Hash_digest `{Platform} (c : option Contact) :
  (Hash c = Fail (Error_json MarshalFailure) <-> json_Marshal c = None) /\
  (forall h,
      Hash c = Ok h ->
      slen h = 32%nat /\ all_chars is_hex_lower h = true /\
      exists text, json_Marshal c = Some text /\
                   h = hex_EncodeToString (md5_Sum text)) /\
  Hash None = Ok (hex_EncodeToString (md5_Sum "null")).
Proof.
  unfold Hash. split; [|split].
  - destruct (json_Marshal c); split; congruence.
  - intros h. destruct (json_Marshal c) as [text|]; [|discriminate].
    intros [= <-]. repeat split.
    + now rewrite hex_EncodeToString_length, md5_Sum_length.
    + apply hex_EncodeToString_digits.
    + eauto.
  - reflexivity.
Qed.

(** X16: [Hash] does not tell a slice or a map that is empty from one
    that is nil: [omitempty] leaves both out of the encoding. *)
Theorem Hash_empty_as_nil `{Platform} (id : Z) (ext : string)
    (active deleted : bool) (created updated : option Time) (view : bool)
    (name : string) (job desc addr : option string) (email : string)
    (phone mobile twitter zone lang company : option string) :
  Hash (Some (Contact.mk _ id ext active deleted created updated view name
                job desc addr email (Some []) phone mobile (Some []) twitter
                zone lang company (Some []) (Some []) (Some ∅)))
  = Hash (Some (Contact.mk _ id ext active deleted created updated view name
                  job desc addr email None phone mobile None twitter zone
                  lang company None None None)).
Proof. reflexivity. Qed.

(* ================================================================== *)
(** ** Theorems: the constructor *)

(** X17: [NewClient] never fails, and every request built by the client
    it returns goes to [https://<subdomain>.freshdesk.com/api/v2/]
    followed by the endpoint, with the API key as the user name of its
    credentials. *)
Theorem NewClient_requests `{Platform} {L T : Type} `{Marshal T}
    (rc : option L -> Request -> exchange) (subdomain key : string)
    (log : option L) (method endpoint : string) (body : option T) :
  (NewClient rc subdomain key log).2 = None /\
  BaseUrl (NewClient rc subdomain key log).1
  = "https://" ++ subdomain ++ ".freshdesk.com/api/v2/" /\
  forall req,
    newRequest (Contacts (NewClient rc subdomain key log).1) method endpoint
      body = Ok req ->
    URL req = "https://" ++ subdomain ++ ".freshdesk.com/api/v2/" ++ endpoint /\
    Header req !! "Authorization"
    = Some ["Basic " ++ base64 (key ++ ":X")].
Proof.
  split; [reflexivity|]. split; [reflexivity|].
  intros req. unfold newRequest, Contacts, NewClient. cbn [fst baseURL apiKey].
  destruct (match body with Some v => _ | None => _ end) as [b|err];
    [|discriminate].
  unfold http_NewRequest.
  destruct (negb (validMethod _)); [discriminate|].
  destruct (negb (url_Parse_ok _)); [discriminate|].
  intros [= <-]. cbn [URL Header SetBasicAuth AddHeader]. split.
  - now rewrite !append_assoc.
  - unfold Header_Add, Header_Set, basicAuth.
    rewrite lookup_insert_ne by discriminate.
    now rewrite lookup_insert.
Qed.

(* ================================================================== *)
(** ** Theorems: what a contact is written as *)

Lemma fields_elem (fs : list (option (list (string * json))))
    (ms : list (string * json)) :
  fields fs = Some ms ->
  forall kv, kv ∈ ms <-> exists l, Some l ∈ fs /\ kv ∈ l.
Proof.
  revert ms. induction fs as [|x fs IH]; intros ms Hf kv.
  - injection Hf as <-. split; [intros Hk; inversion Hk|].
    intros (l & Hl & _). inversion Hl.
  - apply fields_cons in Hf as (l & ms' & -> & Hf & ->).
    rewrite elem_of_app, (IH ms' Hf kv). split.
    + intros [Hk|(l' & Hl' & Hk)].
      * exists l. split; [left|exact Hk].
      * exists l'. split; [now right|exact Hk].
    + intros (l' & Hl' & Hk). apply elem_of_cons in Hl' as [[= ->]|Hl'].
      * now left.
      * right. eauto.
Qed.

Lemma field_elem (key : string) (omit : bool) (doc : option json)
    (l : list (string * json)) (kv : string * json) :
  Some l = field key omit doc -> kv ∈ l ->
  omit = false /\ kv.1 = key /\ doc = Some kv.2.
Proof.
  unfold field. destruct omit.
  - intros [= ->] Hk. inversion Hk.
  - destruct doc as [j|]; [|discriminate]. intros [= ->] Hk.
    apply list_elem_of_singleton in Hk as ->. auto.
Qed.

(** X18: the members [active], [view_all_tickets] and [name] have no
    [omitempty]: every encoding of a contact carries the three of them,
    with the values of the record, so that an [Update] always sends
    them; and it carries [id] and [email] exactly when they are not
    zero and not empty. *)
Theorem enc_Contact_members `{Platform} (t : Contact) (doc : json) :
  enc_Contact t = Some doc ->
  exists ms,
    doc = JObject ms /\
    ("active", JBool (Contact.Active t)) ∈ ms /\
    ("view_all_tickets", JBool (Contact.ViewAllTickets t)) ∈ ms /\
    ("name", JString (Contact.Name t)) ∈ ms /\
    ("id" ∈ ms.*1 <-> Contact.ID t <> 0) /\
    ("email" ∈ ms.*1 <-> Contact.Email t <> "").
Proof.
  unfold enc_Contact, struct. intros Henc.
  match type of Henc with
  | JObject <$> ?x = _ => destruct x as [ms|] eqn:Hf; [|discriminate Henc]
  end.
  injection Henc as <-. exists ms. split; [reflexivity|].
  match type of Hf with fields ?l = _ => set (fs := l) in * end.
  pose proof (fields_elem fs ms Hf) as Hin. clear Hf.
  assert (Hkey : forall k,
             k ∈ ms.*1 ->
             exists l kv, kv.1 = k /\ kv ∈ l /\ Some l ∈ fs).
  { intros k Hk. apply list_elem_of_fmap in Hk as (kv & -> & Hk).
    apply Hin in Hk as (l & Hl & Hk). eauto. }
  unfold fs in *. clear fs.
  split; [|split; [|split; [|split]]].
  - apply Hin. eexists. split; [|left].
    do 2 right. left.
  - apply Hin. eexists. split; [|left].
    do 6 right. left.
  - apply Hin. eexists. split; [|left].
    do 7 right. left.
  - split.
    + intros Hk. apply Hkey in Hk as (l & kv & Hk1 & Hk & Hl).
      repeat (apply elem_of_cons in Hl as [Hl|Hl];
              [destruct (field_elem _ _ _ _ _ Hl Hk) as (Ho & Hn & _);
               try (rewrite Hk1 in Hn; discriminate Hn)|]);
        [|inversion Hl].
      now apply Z.eqb_neq in Ho.
    + intros Hne. apply Z.eqb_neq in Hne. apply list_elem_of_fmap.
      exists ("id", JNumber (itoa (Contact.ID t))). split; [reflexivity|].
      apply Hin. exists [("id", JNumber (itoa (Contact.ID t)))].
      split; [|left]. unfold field at 1. rewrite Hne. left.
  - split.
    + intros Hk. apply Hkey in Hk as (l & kv & Hk1 & Hk & Hl).
      repeat (apply elem_of_cons in Hl as [Hl|Hl];
              [destruct (field_elem _ _ _ _ _ Hl Hk) as (Ho & Hn & _);
               try (rewrite Hk1 in Hn; discriminate Hn)|]);
        [|inversion Hl].
      now apply String.eqb_neq in Ho.
    + intros Hne. apply String.eqb_neq in Hne. apply list_elem_of_fmap.
      exists ("email", JString (Contact.Email t)). split; [reflexivity|].
      apply Hin. exists [("email", JString (Contact.Email t))].
      split; [|left]. do 11 right. unfold field at 1. rewrite Hne. left.
Qed.

Lemma enc_Contact_members_witness :
  exists ms,
    ann_document = JObject ms /\
    ("active", JBool (Contact.Active contact_ann)) ∈ ms /\
    ("view_all_tickets", JBool (Contact.ViewAllTickets contact_ann)) ∈ ms /\
    ("name", JString (Contact.Name contact_ann)) ∈ ms /\
    ("id" ∈ ms.*1 <-> Contact.ID contact_ann <> 0) /\
    ("email" ∈ ms.*1 <-> Contact.Email contact_ann <> "").
Proof.
  apply (@enc_Contact_members example_platform contact_ann ann_document).
  reflexivity.
Defined.

(* ================================================================== *)
(** ** Theorems: what is written has no white space to remove *)

Lemma number_ok_plain (lit : string) :
  number_ok lit = true -> all_chars plain_byte lit = true.
Proof.
  unfold number_ok. intros H.
  destruct (lex_number lit) as [[tok [|c t]]|] eqn:Hl; try discriminate.
  apply String.eqb_eq in H as ->.
  now destruct (lex_number_tail _ _ _ Hl) as (_ & Hp & _).
Qed.

Lemma strip_quote (s x : string) :
  utf8_valid s = true ->
  strip_space false false (quote s ++ x)
  = quote s ++ strip_space false false x.
Proof.
  intros Hs. rewrite !quote_app. cbn [strip_space].
  change (is_space dq) with false. change (Ascii.eqb dq dq) with true.
  cbv iota.
  destruct (lex_string_strip _ _ _ _ (le_n _) (lex_string_quote s x Hs))
    as [-> _].
  reflexivity.
Qed.

Lemma strip_concat (texts : list string) (x : string) :
  Forall (fun t => forall y, strip_space false false (t ++ y)
                             = t ++ strip_space false false y) texts ->
  strip_space false false (concat_with "," texts ++ x)
  = concat_with "," texts ++ strip_space false false x.
Proof.
  induction 1 as [|t texts Ht _ IH]; [reflexivity|].
  destruct texts as [|t' texts]; [apply Ht|].
  rewrite concat_with_cons by discriminate.
  rewrite !append_assoc, Ht. f_equal.
  rewrite (strip_plain "," _ eq_refl). f_equal. exact IH.
Qed.

(** The text written for a document is copied as it is. *)
Lemma strip_print (j : json) :
  json_texts_ok j = true ->
  forall x, strip_space false false (json_print j ++ x)
            = json_print j ++ strip_space false false x.
Proof.
  induction j as [ |b|lit|s|l IH|ms IH] using json_ind_nested;
    intros Hok x; cbn [json_print json_texts_ok] in *.
  - now apply strip_plain.
  - destruct b; now apply strip_plain.
  - apply strip_plain, number_ok_plain, Hok.
  - now apply strip_quote.
  - rewrite !append_assoc, (strip_plain "[" _ eq_refl). f_equal.
    rewrite strip_concat; [now rewrite (strip_plain "]" _ eq_refl)|].
    apply Forall_fmap, Forall_forall. intros y Hy. cbn.
    apply (proj1 (Forall_forall _ _) IH y Hy).
    apply (proj1 (forallb_forall _ _) Hok). now apply list_elem_of_In.
  - rewrite !append_assoc, (strip_plain "{" _ eq_refl). f_equal.
    rewrite strip_concat; [now rewrite (strip_plain "}" _ eq_refl)|].
    apply Forall_fmap, Forall_forall. intros [k v] Hy z. cbn [fst snd].
    pose proof (proj1 (forallb_forall _ _) Hok (k, v)
                  ltac:(now apply list_elem_of_In)) as Hkv.
    cbn [fst snd] in Hkv. apply andb_prop in Hkv as [Hk Hv].
    rewrite !append_assoc, (strip_quote k _ Hk). f_equal.
    rewrite (strip_plain ":" _ eq_refl). f_equal.
    apply (proj1 (Forall_forall _ _) IH (k, v) Hy Hv).
Qed.

(** X19: the body of a request that [newRequest] builds from a value
    whose encoding is well formed is valid JSON without insignificant
    white space: before the transport reads it, [Payload] gives back
    exactly the bytes that [json.Marshal] wrote. *)
Theorem newRequest_payload `{Platform} {T} `{Marshal T} (c : client)
    (method endpoint : string) (v : T) (doc : json) (req : Request) :
  to_json v = Some doc -> wf_json doc = true ->
  newRequest c method endpoint (Some v) = Ok req ->
  unread (Body req) = json_print doc /\
  (Request_Payload req).1 = json_print doc.
Proof.
  intros Hdoc Hwf Hreq. unfold newRequest, json_Marshal in Hreq.
  rewrite Hdoc in Hreq. cbn [fmap option_fmap option_map] in Hreq.
  unfold http_NewRequest in Hreq.
  destruct (negb (validMethod _)); [discriminate|].
  destruct (negb (url_Parse_ok _)); [discriminate|].
  injection Hreq as <-. split; [reflexivity|].
  unfold Request_Payload. cbn [Body SetBasicAuth AddHeader].
  pose proof (Payload_compact (bytes_NewReader (json_print doc)) eq_refl)
    as Hp.
  destruct (Payload (bytes_NewReader (json_print doc))) as [p b].
  cbn [fst] in *. rewrite Hp. cbn [unread bytes_NewReader].
  unfold json_Valid. rewrite (json_parse_print doc Hwf).
  unfold wf_json in Hwf. apply andb_prop in Hwf as [Hok _].
  rewrite <- (append_nil_r (json_print doc)) at 1.
  now rewrite (strip_print doc Hok ""), append_nil_r.
Qed.

Lemma newRequest_payload_witness :
  unread (Body create_zero_request) = json_print zero_document /\
  (Request_Payload create_zero_request).1 = json_print zero_document.
Proof.
  apply (@newRequest_payload example_platform (option Contact)
           (@Marshal_Contact example_platform)
           (example_client reporting) "POST" "contacts"
           (Some (@Contact.zero example_platform)));
    reflexivity.
Defined.

(* ================================================================== *)
(** ** Theorems: the duplicate signal of a decoded error *)

Lemma dyn_of_json_no_int (j : json) (n : Z) : dyn_of_json j <> DInt n.
Proof.
  destruct j; cbn [dyn_of_json]; try discriminate.
  destruct (ParseFloat64 lit); discriminate.
Qed.

Lemma decode_info_decoded (old : gmap string dyn) (j : json) :
  map_Forall (fun _ v => decoded v) old ->
  map_Forall (fun _ v => decoded v) (decode_info old j).1.
Proof.
  intros Hold. destruct j as [ | | | | |ms]; cbn [decode_info fst]; auto;
    try apply map_Forall_empty.
  revert old Hold. induction ms as [|[k v] ms IH]; intros old Hold;
    [exact Hold|].
  cbn [fold_left fst snd]. apply IH, map_Forall_insert_2; [|exact Hold].
  now exists v.
Qed.

Lemma decode_members_keeps {A} (P : A -> Prop)
    (store : A -> string -> json -> A * status) (ms : list (string * json)) :
  (forall a k v, P a -> P (store a k v).1) ->
  forall a, P a -> P (decode_members store ms a).1.
Proof.
  intros Hstore. induction ms as [|[k v] ms IH]; intros a Ha; [exact Ha|].
  cbn [decode_members]. specialize (Hstore a k v Ha).
  destruct (store a k v) as [a1 e1]. cbn [fst] in Hstore.
  specialize (IH a1 Hstore).
  destruct (decode_members store ms a1) as [a2 e2].
  now destruct e1.
Qed.

Lemma decode_elements_keeps {A} (P : A -> Prop) (zero : A)
    (dec : A -> json -> A * status) (l : list json) :
  P zero -> (forall a j, P a -> P (dec a j).1) ->
  forall old, Forall P old -> Forall P (decode_elements zero dec old l).1.
Proof.
  intros Hzero Hdec. induction l as [|j l IH]; intros old Hold;
    [constructor|].
  cbn [decode_elements].
  assert (Hhd : P (hd zero old)) by (destruct Hold; assumption).
  assert (Htl : Forall P (tl old)) by (destruct Hold; [constructor|assumption]).
  specialize (Hdec _ j Hhd). destruct (dec (hd zero old) j) as [x e1].
  cbn [fst] in Hdec. specialize (IH _ Htl).
  destruct (decode_elements zero dec (tl old) l) as [rest e2].
  destruct e1; cbn [fst]; constructor; assumption.
Qed.

Lemma store_FieldError_decoded (fe : FieldError) (k : string) (v : json) :
  map_Forall (fun _ x => decoded x) (AdditionalInfo fe) ->
  map_Forall (fun _ x => decoded x)
    (AdditionalInfo (store_FieldError fe k v).1).
Proof.
  intros Hfe. unfold store_FieldError.
  destruct (key_is "field" k);
    [destruct (decode_string _ _); exact Hfe|].
  destruct (key_is "additional_info" k).
  { pose proof (decode_info_decoded (AdditionalInfo fe) v Hfe) as Hd.
    destruct (decode_info _ _). exact Hd. }
  destruct (key_is "message" k);
    [destruct (decode_string _ _); exact Hfe|].
  destruct (key_is "code" k);
    [destruct (decode_string _ _); exact Hfe|].
  exact Hfe.
Qed.

Lemma decode_Errors_decoded (old : list FieldError) (j : json) :
  Forall (fun fe => map_Forall (fun _ x => decoded x) (AdditionalInfo fe)) old ->
  Forall (fun fe => map_Forall (fun _ x => decoded x) (AdditionalInfo fe))
    (decode_Errors old j).1.
Proof.
  intros Hold. destruct j as [ | | | |l| ]; cbn [decode_Errors fst]; auto.
  apply decode_elements_keeps; [apply map_Forall_empty| |exact Hold].
  intros fe j Hfe. destruct j as [ | | | | |ms]; cbn [decode_FieldError fst];
    auto.
  apply decode_members_keeps; [|exact Hfe].
  intros a k v. apply store_FieldError_decoded.
Qed.

(** The values under [additional_info] of an error that [NewApiError]
    returns were all stored by the decoder. *)
Lemma NewApiError_decoded (statusCode expectedStatus : Z) (req res : string) :
  Forall (fun fe => map_Forall (fun _ x => decoded x) (AdditionalInfo fe))
    (Errors (NewApiError statusCode expectedStatus req res)).
Proof.
  unfold NewApiError, Unmarshal_APIError.
  destruct (json_parse res) as [[ | | | | |ms]|]; cbn [fst];
    try (cbn; constructor).
  pose proof (decode_members_keeps
                (fun a => Forall (fun fe => map_Forall (fun _ x => decoded x)
                                              (AdditionalInfo fe)) (Errors a))
                store_APIError ms) as Hk.
  destruct (decode_members store_APIError ms _) as [i' st] eqn:E.
  cbn [fst]. specialize (Hk ltac:(
    intros a k v Ha; unfold store_APIError;
    repeat match goal with
           | |- context [if ?b then _ else _] => destruct b
           end;
    try (destruct (decode_error_value _ _); exact Ha);
    try (destruct (decode_string _ _); exact Ha);
    try (destruct (decode_int _ _); exact Ha);
    try exact Ha;
    pose proof (decode_Errors_decoded (Errors a) v Ha) as Hd;
    destruct (decode_Errors _ _); exact Hd)).
  specialize (Hk (base_APIError statusCode expectedStatus req res)
                ltac:(constructor)).
  now rewrite E in Hk.
Qed.

Lemma first_duplicate_elem (errs : list FieldError) (fe : FieldError) :
  first_duplicate errs = Some fe -> fe ∈ errs.
Proof.
  unfold first_duplicate. intros H. apply find_some in H as [H _].
  now apply list_elem_of_In.
Qed.

(** X20: on the error that [NewApiError] builds from a response,
    [IsDuplicate] panics exactly when the first entry for a duplicate
    e-mail address carries a [user_id] that the response gave as a
    boolean, a string, an array or an object; a number, [null] and a
    missing [user_id] never make it panic. *)
Theorem IsDuplicate_decoded_error `{Platform} (statusCode expectedStatus : Z)
    (req res : string) :
  IsDuplicate (NewApiError statusCode expectedStatus req res) = Panicked <->
  exists fe v,
    first_duplicate (Errors (NewApiError statusCode expectedStatus req res))
    = Some fe /\
    AdditionalInfo fe !! "user_id" = Some v /\
    not_a_number v = true.
Proof.
  rewrite IsDuplicate_first.
  pose proof (NewApiError_decoded statusCode expectedStatus req res) as Hall.
  destruct (first_duplicate _) as [fe|] eqn:Hfe;
    [|split; [discriminate|]; intros (fe' & v' & Hfe' & _); discriminate].
  pose proof (proj1 (Forall_forall _ _) Hall fe (first_duplicate_elem _ _ Hfe))
    as Hinfo.
  destruct (AdditionalInfo fe !! "user_id") as [v|] eqn:Hv.
  - destruct (Hinfo _ _ Hv) as [j Hj].
    destruct v as [ |b|f|s|l|m|n];
      try (split; [discriminate|];
           intros (fe' & v' & [= <-] & Hv' & Hn); rewrite Hv in Hv';
           injection Hv' as <-; discriminate Hn);
      try (split; [intros _; exists fe; eexists; repeat split; eauto
                  |reflexivity]).
    exfalso. symmetry in Hj. exact (dyn_of_json_no_int j n Hj).
  - split; [discriminate|]. intros (fe' & v' & [= <-] & Hv' & _).
    rewrite Hv in Hv'. discriminate.
Qed.
